(** * Mekko chart utilities (src/utils.ts): a shallow embedding and its properties

    The module [powerbi.extensibility.visual.utils] is a flat library of
    helpers.  This development embeds
    - [calcValueDomain] and the d3 reductions [d3.min] / [d3.max] it calls,
    - [getClosestColumnIndex] and [getFillOpacity],
    - [setChosenColumnOpacity] over a small model of the rendered scene,
    - [applyUserMinMax] and [transformDomain] over a heap of JavaScript
      objects with prototype links, so that object identity, aliasing and
      mutation are visible,
    and proves the properties the specification states about them.

    Part I holds the definitions, Part II the lemmas and theorems. *)

From Stdlib Require Import ZArith Lia SpecFloat.
From stdpp Require Import prelude gmap strings.

(** * Part I: definitions *)

(** ** JavaScript numbers

    A JavaScript number is an IEEE 754 binary64 value.  The Standard
    Library's [spec_float] with precision 53 and maximal exponent 1024 is
    that format, with executable operations. *)

Module Num.

Definition number : Type := spec_float.

Definition prec : Z := 53.
Definition emax : Z := 1024.

Definition NaN : number := S754_nan.
Definition Infinity : number := S754_infinity false.

(** The number denoted by an integer literal. *)
Definition of_Z (z : Z) : number := binary_normalize prec emax z 0 false.

(** [Number.MAX_VALUE], (2^53 - 1) * 2^971. *)
Definition MAX_VALUE : number := SFmax_float prec emax.

(** [x - y] and [Math.abs x]. *)
Definition sub (x y : number) : number := SFsub prec emax x y.
Definition abs (x : number) : number := SFabs x.

(** The relational operators on numbers; each is false as soon as an
    operand is NaN.  [gt x y] is [x > y] and [ge x y] is [x >= y]. *)
Definition lt (x y : number) : bool := SFltb x y.
Definition le (x y : number) : bool := SFleb x y.
Definition gt (x y : number) : bool := lt y x.
Definition ge (x y : number) : bool := le y x.

(** Strict equality [x === y] on numbers: NaN differs from itself and the
    two zeros are equal. *)
Definition strict_eq (x y : number) : bool := SFeqb x y.

Definition is_nan (x : number) : bool :=
  match x with S754_nan => true | _ => false end.

(** Away from NaN, [SFcompare] is the lexicographic order of the triple
    (class, exponent, mantissa) computed by [rank]; the order facts of
    Part II are read off that triple with linear arithmetic. *)
Definition rank (x : number) : Z * Z * Z :=
  match x with
  | S754_nan => (0, 0, 0)
  | S754_zero _ => (0, 0, 0)
  | S754_infinity true => (-2, 0, 0)
  | S754_infinity false => (2, 0, 0)
  | S754_finite true m e => (-1, - e, - Zpos m)
  | S754_finite false m e => (1, e, Zpos m)
  end%Z.

Definition lex_lt (a b : Z * Z * Z) : Prop :=
  let '(a1, a2, a3) := a in
  let '(b1, b2, b3) := b in
  (a1 < b1 \/ (a1 = b1 /\ (a2 < b2 \/ (a2 = b2 /\ a3 < b3))))%Z.

Definition lex_le (a b : Z * Z * Z) : Prop :=
  let '(a1, a2, a3) := a in
  let '(b1, b2, b3) := b in
  (a1 < b1 \/ (a1 = b1 /\ (a2 < b2 \/ (a2 = b2 /\ a3 <= b3))))%Z.

End Num.

Import Num.

(** A JavaScript slot typed [number] that may hold [undefined]: [None] is
    [undefined].  In a relational operator [undefined] converts to NaN. *)
Definition to_number (x : option number) : number :=
  match x with Some n => n | None => NaN end.

(** ** Constants of the module *)

(** [PctRoundingError = 0.0001], the binary64 nearest to it. *)
Definition PctRoundingError : number := S754_finite false 7378697629483821 (-66).

(** [DimmedOpacity = 0.4] and [DefaultOpacity = 1.0]. *)
Definition DimmedOpacity : number := S754_finite false 7205759403792794 (-54).
Definition DefaultOpacity : number := of_Z 1.

Module Range.

Record NumberRange := { min : option number; max : option number }.

End Range.

Abbreviation NumberRange := Range.NumberRange.

Definition DefaultNumberRange : NumberRange :=
  {| Range.min := Some (of_Z 0); Range.max := Some (of_Z 10) |}.

(** ** Chart data *)

(** The fields of a data point and of a series that the utilities read. *)
Module Chart.

Record MekkoChartColumnDataPoint := {
  position : number;
  valueAbsolute : number;
  categoryIndex : number
}.

Record MekkoChartSeries := { data : list MekkoChartColumnDataPoint }.

End Chart.

Abbreviation MekkoChartColumnDataPoint := Chart.MekkoChartColumnDataPoint.
Abbreviation MekkoChartSeries := Chart.MekkoChartSeries.

(** ** The d3 reductions

    Modelled from the spec: [d3.min] and [d3.max] belong to the d3 host
    library, which is not under src/.  They are the reductions the
    specification calls the minimum and the maximum, with d3's documented
    treatment of the values that have no order: an [undefined] or NaN
    value is skipped, and an array without any comparable value yields
    [undefined].  The first loop looks for the first value [b] with
    [b != null && b >= b]; the second keeps the running extremum [a] and
    replaces it when [a > b] (when [b > a] for [d3.max]). *)

Module d3.

Definition comparable (b : option number) : bool :=
  match b with Some x => ge x x | None => false end.

Fixpoint min_from (a : number) (bs : list (option number)) : number :=
  match bs with
  | [] => a
  | Some b :: bs' => if gt a b then min_from b bs' else min_from a bs'
  | None :: bs' => min_from a bs'
  end.

Fixpoint min_values (bs : list (option number)) : option number :=
  match bs with
  | [] => None
  | b :: bs' =>
      if comparable b then Some (min_from (to_number b) bs') else min_values bs'
  end.

Fixpoint max_from (a : number) (bs : list (option number)) : number :=
  match bs with
  | [] => a
  | Some b :: bs' => if gt b a then max_from b bs' else max_from a bs'
  | None :: bs' => max_from a bs'
  end.

Fixpoint max_values (bs : list (option number)) : option number :=
  match bs with
  | [] => None
  | b :: bs' =>
      if comparable b then Some (max_from (to_number b) bs') else max_values bs'
  end.

(** [d3.min(array, f)] and [d3.max(array, f)]. *)
Definition min {A} (array : list A) (f : A -> option number) : option number :=
  min_values (map f array).

Definition max {A} (array : list A) (f : A -> option number) : option number :=
  max_values (map f array).

End d3.

(** ** [calcValueDomain] *)

Section CalcValueDomain.

(** [Double.roundToPrecision] of the host's type utilities, a parameter. *)
Variable roundToPrecision : option number -> number -> option number.

Definition calcValueDomain (data : list MekkoChartSeries) (is100pct : bool)
  : NumberRange :=
  if (length data =? 0)%nat then
    {| Range.min := DefaultNumberRange.(Range.min);
       Range.max := DefaultNumberRange.(Range.max) |}
  else
    let min :=
      d3.min data (fun series =>
        d3.min series.(Chart.data) (fun dataPoint =>
          Some (sub dataPoint.(Chart.position) dataPoint.(Chart.valueAbsolute)))) in
    let max :=
      d3.max data (fun series =>
        d3.max series.(Chart.data) (fun dataPoint =>
          Some dataPoint.(Chart.position))) in
    let min := if is100pct then roundToPrecision min PctRoundingError else min in
    let max := if is100pct then roundToPrecision max PctRoundingError else max in
    {| Range.min := min; Range.max := max |}.

End CalcValueDomain.

(** ** [getClosestColumnIndex] and [getFillOpacity] *)

(** The loop of [getClosestColumnIndex]: [i] is the index of the head of
    the centers still to visit. *)
Fixpoint getClosestColumnIndex_loop (coordinate : number)
    (columnsCenters : list number) (i currentIndex : nat) (distance : number)
  : nat :=
  match columnsCenters with
  | [] => currentIndex
  | center :: rest =>
      let currentDistance := abs (sub coordinate center) in
      if lt currentDistance distance
      then getClosestColumnIndex_loop coordinate rest (S i) i currentDistance
      else getClosestColumnIndex_loop coordinate rest (S i) currentIndex distance
  end.

Definition getClosestColumnIndex (coordinate : number)
    (columnsCenters : list number) : nat :=
  getClosestColumnIndex_loop coordinate columnsCenters 0 0 MAX_VALUE.

Definition getFillOpacity (selected highlight hasSelection hasPartialHighlights : bool)
  : number :=
  if (hasPartialHighlights && negb highlight) || (hasSelection && negb selected)
  then DimmedOpacity
  else DefaultOpacity.

(** ** [setChosenColumnOpacity]

    The scene is given as the two [selectAll] calls see it: for every
    series group under the graphics context, the column rectangles that
    [RectName + columnGroupSelector] matches inside it.  A rectangle
    carries its bound data point, its inline fill opacity, and the target
    of the fill-opacity transition scheduled on it, if any. *)

Record Rect := {
  datum : MekkoChartColumnDataPoint;
  fill_opacity : option number;
  transition_to : option number
}.

(** [selection.filter(f).transition().style("fill-opacity", v)] schedules
    an animated change on the rectangles that pass [f];
    [selection.filter(f).style("fill-opacity", v)] writes the style at
    once. *)
Definition transition_style (f : MekkoChartColumnDataPoint -> bool) (v : number)
    (series : list (list Rect)) : list (list Rect) :=
  map (map (fun r =>
    if f r.(datum)
    then {| datum := r.(datum); fill_opacity := r.(fill_opacity);
            transition_to := Some v |}
    else r)) series.

Definition style (f : MekkoChartColumnDataPoint -> bool) (v : number)
    (series : list (list Rect)) : list (list Rect) :=
  map (map (fun r =>
    if f r.(datum)
    then {| datum := r.(datum); fill_opacity := Some v;
            transition_to := r.(transition_to) |}
    else r)) series.

(** [lastColumnIndex] is [None] when the caller passes [undefined]. *)
Definition setChosenColumnOpacity (series : list (list Rect))
    (selectedColumnIndex : number) (lastColumnIndex : option number)
  : list (list Rect) :=
  let lastColumnUndefined :=
    match lastColumnIndex with None => true | Some _ => false end in
  let series :=
    transition_style (fun dataPoint =>
      negb (strict_eq dataPoint.(Chart.categoryIndex) selectedColumnIndex)
      && (lastColumnUndefined
          || match lastColumnIndex with
             | Some last => strict_eq dataPoint.(Chart.categoryIndex) last
             | None => false
             end))
      DimmedOpacity series in
  style (fun dataPoint =>
    strict_eq dataPoint.(Chart.categoryIndex) selectedColumnIndex)
    DefaultOpacity series.

(** ** JavaScript objects

    [transformDomain] receives references to host objects, reads them
    through their prototype chains, and builds new objects with
    [Prototype.inherit].  Objects therefore live in a heap: a list of
    objects, a reference being an index into it.  Allocation appends, so a
    reference that exists stays valid and a new one is the length of the
    heap. *)

Abbreviation loc := nat.

(** Values.  A [Date] is kept as the number of milliseconds its [valueOf]
    returns: the utilities only compare it. *)
Inductive value :=
| VUndefined
| VNull
| VBool (b : bool)
| VNumber (x : number)
| VString (s : string)
| VDate (t : number)
| VRef (l : loc).

(** Property keys: a name, or an array index. *)
Inductive key :=
| Name (s : string)
| Index (i : nat).

Global Instance key_eq_dec : EqDecision key.
Proof. solve_decision. Defined.

Global Instance key_countable : Countable key.
Proof.
  refine (inj_countable'
            (fun k => match k with Name s => inl s | Index i => inr i end)
            (fun x => match x with inl s => Name s | inr i => Index i end) _).
  intros []; reflexivity.
Defined.

(** An object has a prototype link, own properties, and, when it is an
    array, its elements: the index properties and [length] of an array are
    those of the list. *)
Record object := Object {
  proto : option loc;
  elems : option (list value);
  props : gmap key value
}.

Abbreviation heap := (list object).

Definition own (o : object) (k : key) : option value :=
  match k, o.(elems) with
  | Index i, Some xs => xs !! i
  | _, _ => o.(props) !! k
  end.

(** [[Get]] along the prototype chain.  A chain without a cycle is no
    longer than the heap, which bounds the walk; [None] reports a dangling
    reference or a cyclic chain.  A property found nowhere is
    [undefined]. *)
Fixpoint lookup_chain (fuel : nat) (h : heap) (l : loc) (k : key)
  : option value :=
  match fuel with
  | O => None
  | S fuel' =>
      match h !! l with
      | None => None
      | Some o =>
          match own o k with
          | Some v => Some v
          | None =>
              match o.(proto) with
              | None => Some VUndefined
              | Some p => lookup_chain fuel' h p k
              end
          end
      end
  end.

(** The [length] an object shows: that of the first array on its chain.
    [None] also when the chain holds no array. *)
Fixpoint length_chain (fuel : nat) (h : heap) (l : loc) : option nat :=
  match fuel with
  | O => None
  | S fuel' =>
      match h !! l with
      | None => None
      | Some o =>
          match o.(elems) with
          | Some xs => Some (length xs)
          | None =>
              match o.(proto) with
              | None => None
              | Some p => length_chain fuel' h p
              end
          end
      end
  end.

(** [v[k]] and [v.length] as pure reads of a heap; a property access on
    [undefined] or [null] is a TypeError, and one on another primitive is
    outside the fragment modelled: both are [None]. *)
Definition get_in (h : heap) (v : value) (k : key) : option value :=
  match v with
  | VRef l => lookup_chain (length h) h l k
  | _ => None
  end.

Definition length_in (h : heap) (v : value) : option nat :=
  match v with
  | VRef l => length_chain (length h) h l
  | _ => None
  end.

(** *** Computations

    A computation maps a heap to the heap it leaves and to its result,
    [None] when it throws (or leaves the fragment modelled). *)

Definition M (A : Type) : Type := heap -> heap * option A.

Definition ret {A} (a : A) : M A := fun h => (h, Some a).

Definition throw {A} : M A := fun h => (h, None).

Definition bind {A B} (m : M A) (f : A -> M B) : M B :=
  fun h =>
    match m h with
    | (h', Some a) => f a h'
    | (h', None) => (h', None)
    end.

Declare Scope js_scope.
Delimit Scope js_scope with js.

Notation "x <- m ;; k" := (bind m (fun x => k))
  (at level 100, m at next level, right associativity) : js_scope.
Notation "m ;; k" := (bind m (fun _ => k))
  (at level 100, right associativity) : js_scope.

Local Open Scope js_scope.

Definition read {A} (f : heap -> option A) : M A :=
  fun h => (h, f h).

Definition get (v : value) (k : key) : M value := read (fun h => get_in h v k).

Definition length_of (v : value) : M nat := read (fun h => length_in h v).

Definition alloc (o : object) : M value :=
  fun h => (h ++ [o], Some (VRef (length h))).

(** The array literal [[]]. *)
Definition new_array : M value :=
  alloc {| proto := None; elems := Some []; props := ∅ |}.

(** [v[k] = x] for an ordinary object [v]: the assignment creates or
    overwrites an own property of [v], whatever its prototypes hold.
    Assignments to an index of an array do not occur in the module. *)
Definition set (v : value) (k : key) (x : value) : M () :=
  fun h =>
    match v with
    | VRef l =>
        match h !! l with
        | Some o =>
            match k, o.(elems) with
            | Index _, Some _ => (h, None)
            | _, _ =>
                (<[l := {| proto := o.(proto); elems := o.(elems);
                           props := <[k := x]> o.(props) |}]> h, Some ())
            end
        | None => (h, None)
        end
    | _ => (h, None)
    end.

(** [v.push(x)] for an array [v]. *)
Definition push (v : value) (x : value) : M () :=
  fun h =>
    match v with
    | VRef l =>
        match h !! l with
        | Some o =>
            match o.(elems) with
            | Some xs =>
                (<[l := {| proto := o.(proto); elems := Some (xs ++ [x]);
                           props := o.(props) |}]> h, Some ())
            | None => (h, None)
            end
        | None => (h, None)
        end
    | _ => (h, None)
    end.

(** Modelled from the spec: [Prototype.inherit] belongs to the host's type
    utilities, which are not under src/: it produces an independently
    mutable object that inherits every field it does not set itself from
    its prototype object.  A prototype that is not an object leaves the
    new object without one. *)
Definition inherit (v : value) : M value :=
  alloc {| proto := match v with VRef p => Some p | _ => None end;
           elems := None; props := ∅ |}.

(** [for (let i = 0; i < bound; i++) body]: the bound is read again before
    every turn.  The fuel is the bound at entry plus one, enough whenever
    the body leaves the bound as it is. *)
Fixpoint for_loop (fuel : nat) (bound : M nat) (body : nat -> M ()) (i : nat)
  : M () :=
  match fuel with
  | O => throw
  | S fuel' =>
      n <- bound ;;
      if (i <? n)%nat
      then (body i ;; for_loop fuel' bound body (S i))
      else ret ()
  end.

Definition for_ (bound : M nat) (body : nat -> M ()) : M () :=
  n <- bound ;; for_loop (S n) bound body 0.

(** *** Operators on values *)

(** [ToBoolean]. *)
Definition ToBoolean (v : value) : bool :=
  match v with
  | VUndefined | VNull => false
  | VBool b => b
  | VNumber x => negb (is_nan x || strict_eq x (of_Z 0))
  | VString s => match s with EmptyString => false | String _ _ => true end
  | VDate _ | VRef _ => true
  end.

(** [typeof v === "number"]. *)
Definition is_number (v : value) : bool :=
  match v with VNumber _ => true | _ => false end.

Section Operators.

(** The numeric value of a string ([StringToNumber] of the language), a
    parameter. *)
Variable StringToNumber : string -> number.

(** [ToNumber] of a primitive or of a [Date]; other objects convert
    through their own methods, which is outside the fragment. *)
Definition ToNumber (v : value) : option number :=
  match v with
  | VUndefined => Some NaN
  | VNull => Some (of_Z 0)
  | VBool b => Some (if b then of_Z 1 else of_Z 0)
  | VNumber x => Some x
  | VString s => Some (StringToNumber s)
  | VDate t => Some t
  | VRef _ => None
  end.

(** The comparison behind the relational operators: two strings compare
    as strings, any other pair as numbers, and a NaN operand leaves the
    pair unordered (inner [None]). *)
Definition compare_values (a b : value) : option (option comparison) :=
  match a, b with
  | VString s, VString t => Some (Some (String.compare s t))
  | _, _ =>
      match ToNumber a, ToNumber b with
      | Some x, Some y => Some (SFcompare x y)
      | _, _ => None
      end
  end.

Definition js_gt (a b : value) : option bool :=
  match compare_values a b with
  | Some (Some Gt) => Some true
  | Some _ => Some false
  | None => None
  end.

Definition js_ge (a b : value) : option bool :=
  match compare_values a b with
  | Some (Some (Gt | Eq)) => Some true
  | Some _ => Some false
  | None => None
  end.

Definition js_le (a b : value) : option bool :=
  match compare_values a b with
  | Some (Some (Lt | Eq)) => Some true
  | Some _ => Some false
  | None => None
  end.

End Operators.

Definition lift {A} (x : option A) : M A := fun h => (h, x).

(** ** [transformDomain] and [applyUserMinMax] *)

Section TransformDomain.

(** [AxisHelper.isOrdinal] of the host's chart utilities, a parameter: it
    inspects a value type descriptor and changes nothing. *)
Variable isOrdinal : heap -> value -> bool.

Variable StringToNumber : string -> number.

Definition transformDomain (dataView min max : value) : M value :=
  categories <- get dataView (Name "categories") ;;
  if negb (ToBoolean categories) then ret dataView else
  values <- get dataView (Name "values") ;;
  if negb (ToBoolean values) then ret dataView else
  categories_length <- (c <- get dataView (Name "categories") ;; length_of c) ;;
  if (categories_length =? 0)%nat then ret dataView else
  values_length <- (v <- get dataView (Name "values") ;; length_of v) ;;
  if (values_length =? 0)%nat then ret dataView else

  if negb (is_number min) && negb (is_number max) then ret dataView else

  category <- (c <- get dataView (Name "categories") ;; get c (Index 0)) ;;
  categoryType <-
    (if ToBoolean category
     then (source <- get category (Name "source") ;; get source (Name "type"))
     else ret VNull) ;;

  ordinal <- read (fun h => Some (isOrdinal h categoryType)) ;;
  if ordinal then ret VUndefined else

  categoryValues <- get category (Name "values") ;;
  categoryObjects <- get category (Name "objects") ;;

  if negb (ToBoolean categoryValues) || negb (ToBoolean categoryObjects)
  then ret dataView else

  newcategoryValues <- new_array ;;
  newValues <- new_array ;;
  newObjects <- new_array ;;

  min <- (if negb (is_number min)
          then get categoryValues (Index 0)
          else ret min) ;;
  max <- (if negb (is_number max)
          then (n <- length_of categoryValues ;;
                if (n =? 0)%nat then ret VUndefined
                else get categoryValues (Index (n - 1)))
          else ret max) ;;

  invalid <- lift (js_gt StringToNumber min max) ;;
  if invalid then ret dataView else

  for_ (v <- get dataView (Name "values") ;; length_of v) (fun j =>
    a <- new_array ;;
    push newValues a) ;;

  for_ (length_of categoryValues) (fun t =>
    above <- (x <- get categoryValues (Index t) ;;
              lift (js_ge StringToNumber x min)) ;;
    inside <- (if above
               then (x <- get categoryValues (Index t) ;;
                     lift (js_le StringToNumber x max))
               else ret false) ;;
    if inside then
      (x <- get categoryValues (Index t) ;;
       push newcategoryValues x) ;;
      (if ToBoolean categoryObjects
       then (o <- get categoryObjects (Index t) ;;
             push newObjects o)
       else ret ()) ;;
      values <- get dataView (Name "values") ;;
      if ToBoolean values then
        for_ (v <- get dataView (Name "values") ;; length_of v) (fun k =>
          target <- get newValues (Index k) ;;
          x <- (v <- get dataView (Name "values") ;;
                column <- get v (Index k) ;;
                column_values <- get column (Name "values") ;;
                get column_values (Index t)) ;;
          push target x)
      else ret ()
    else ret ()) ;;

  resultDataView <- inherit dataView ;;
  resultDataViewValues <-
    (v <- get resultDataView (Name "values") ;;
     r <- inherit v ;;
     set resultDataView (Name "values") r ;;
     ret r) ;;
  resultDataViewCategories <-
    (c <- get dataView (Name "categories") ;;
     r <- inherit c ;;
     set resultDataView (Name "categories") r ;;
     ret r) ;;
  resultDataViewCategories0 <-
    (target <- get resultDataView (Name "categories") ;;
     c <- get resultDataViewCategories (Index 0) ;;
     r <- inherit c ;;
     set target (Index 0) r ;;
     ret r) ;;

  set resultDataViewCategories0 (Name "values") newcategoryValues ;;

  objects <- get resultDataViewCategories0 (Name "objects") ;;
  (if ToBoolean objects
   then set resultDataViewCategories0 (Name "objects") newObjects
   else ret ()) ;;

  for_ (v <- get dataView (Name "values") ;; length_of v) (fun t =>
    measureArray <-
      (c <- get resultDataViewValues (Index t) ;;
       r <- inherit c ;;
       set resultDataViewValues (Index t) r ;;
       ret r) ;;
    x <- get newValues (Index t) ;;
    set measureArray (Name "values") x) ;;

  ret resultDataView.

Definition applyUserMinMax (isScalar : bool)
    (dataView xAxisCardProperties : value) : M value :=
  if isScalar then
    min <- get xAxisCardProperties (Name "start") ;;
    max <- get xAxisCardProperties (Name "end") ;;
    transformDomain dataView min max
  else ret dataView.

End TransformDomain.

(** ** Reading a data view back from the heap *)

(** The elements an array-like value shows: [v[0]], ..., [v[v.length-1]]. *)
Definition read_array (h : heap) (v : value) : option (list value) :=
  match length_in h v with
  | Some n => mapM (fun i => get_in h v (Index i)) (seq 0 n)
  | None => None
  end.

(** ** Notions the statements of Part II use *)

(** The values [calcValueDomain] reduces: [position - valueAbsolute] and
    [position] of every data point of every series, in order. *)
Definition differences (data : list MekkoChartSeries) : list number :=
  flat_map (fun series =>
    map (fun dataPoint => sub dataPoint.(Chart.position) dataPoint.(Chart.valueAbsolute))
        series.(Chart.data)) data.

Definition positions (data : list MekkoChartSeries) : list number :=
  flat_map (fun series => map Chart.position series.(Chart.data)) data.

(** The numbers among the values handed to a reduction. *)
Definition numbers_of (bs : list (option number)) : list number := omap id bs.

(** [r] is the minimum (the maximum) of the numbers of [xs]: one of them
    and below (above) every other; NaN entries have no order and do not
    count, and without any number there is no minimum: [r] is
    [undefined]. *)
Definition is_minimum (xs : list number) (r : option number) : Prop :=
  match r with
  | Some m =>
      In m xs /\ is_nan m = false /\
      forall x, In x xs -> is_nan x = false -> le m x = true
  | None => forall x, In x xs -> is_nan x = true
  end.

Definition is_maximum (xs : list number) (r : option number) : Prop :=
  match r with
  | Some m =>
      In m xs /\ is_nan m = false /\
      forall x, In x xs -> is_nan x = false -> le x m = true
  | None => forall x, In x xs -> is_nan x = true
  end.

(** [min <= max] on the two slots of a range. *)
Definition range_ordered (r : NumberRange) : bool :=
  le (to_number r.(Range.min)) (to_number r.(Range.max)).

(** The distance [getClosestColumnIndex] minimises. *)
Definition distance (coordinate center : number) : number :=
  abs (sub coordinate center).

(** The two filters of [setChosenColumnOpacity]. *)
Definition dimmed (selectedColumnIndex : number) (lastColumnIndex : option number)
    (dataPoint : MekkoChartColumnDataPoint) : bool :=
  negb (strict_eq dataPoint.(Chart.categoryIndex) selectedColumnIndex)
  && match lastColumnIndex with
     | None => true
     | Some last => strict_eq dataPoint.(Chart.categoryIndex) last
     end.

Definition chosen (selectedColumnIndex : number)
    (dataPoint : MekkoChartColumnDataPoint) : bool :=
  strict_eq dataPoint.(Chart.categoryIndex) selectedColumnIndex.

(** *** Data views in the heap *)

Definition array_of (xs : list value) : object :=
  {| proto := None; elems := Some xs; props := ∅ |}.

(** The object [Prototype.inherit v] creates, once it owns [ps]. *)
Definition derived (v : value) (ps : gmap key value) : object :=
  {| proto := match v with VRef p => Some p | _ => None end;
     elems := None; props := ps |}.

(** [v[0]], ..., [v[n-1]]; an index out of range reads [undefined]. *)
Definition read_upto (h : heap) (v : value) (n : nat) : option (list value) :=
  mapM (fun i => get_in h v (Index i)) (seq 0 n).

(** [column.values[0]], ..., [column.values[n-1]]. *)
Definition read_column (h : heap) (n : nat) (column : value)
  : option (list value) :=
  match get_in h column (Name "values") with
  | Some a => read_upto h a n
  | None => None
  end.

(** What [transformDomain] reads of a data view on its way to the
    filtering loop: the objects it goes through and the sequences it
    filters. *)
Record DataView := {
  categories : value;          (* dataView.categories *)
  values : value;              (* dataView.values *)
  columns : list value;        (* dataView.values[k], every k *)
  category : value;            (* dataView.categories[0] *)
  categoryType : value;        (* category.source.type *)
  categoryValues : value;      (* category.values *)
  categoryObjects : value;     (* category.objects *)
  cvs : list value;            (* categoryValues[t], every t *)
  objs : list value;           (* categoryObjects[t], t < categoryValues.length *)
  cols : list (list value)     (* dataView.values[k].values[t], same t *)
}.

Record loaded (h : heap) (dataView : value) (d : DataView) : Prop := {
  ld_categories : get_in h dataView (Name "categories") = Some d.(categories);
  ld_values : get_in h dataView (Name "values") = Some d.(values);
  ld_nonempty : exists n, length_in h d.(categories) = Some (S n);
  ld_columns : read_array h d.(values) = Some d.(columns);
  ld_column : d.(columns) <> [];
  ld_category : get_in h d.(categories) (Index 0) = Some d.(category);
  ld_type :
    match get_in h d.(category) (Name "source") with
    | Some source => get_in h source (Name "type")
    | None => None
    end = Some d.(categoryType);
  ld_categoryValues :
    get_in h d.(category) (Name "values") = Some d.(categoryValues);
  ld_categoryObjects :
    get_in h d.(category) (Name "objects") = Some d.(categoryObjects);
  ld_objects : ToBoolean d.(categoryObjects) = true;
  ld_cvs : read_array h d.(categoryValues) = Some d.(cvs);
  ld_objs : read_upto h d.(categoryObjects) (length d.(cvs)) = Some d.(objs);
  ld_cols : mapM (read_column h (length d.(cvs))) d.(columns) = Some d.(cols)
}.

(** The bounds after the defaults: a bound that is not a number is
    replaced by the first, respectively the last, category value. *)
Definition resolve_min (h : heap) (categoryValues min : value) : option value :=
  if negb (is_number min) then get_in h categoryValues (Index 0) else Some min.

Definition resolve_max (h : heap) (categoryValues max : value) : option value :=
  if negb (is_number max) then
    match length_in h categoryValues with
    | Some n =>
        if (n =? 0)%nat then Some VUndefined
        else get_in h categoryValues (Index (n - 1))
    | None => None
    end
  else Some max.

Section Kept.

Variable StringToNumber : string -> number.

(** [x >= min && x <= max]. *)
Definition keeps (min max x : value) : bool :=
  match js_ge StringToNumber x min, js_le StringToNumber x max with
  | Some true, Some true => true
  | _, _ => false
  end.

(** The two comparisons of the loop have a result on [x]. *)
Definition comparable_with (min max x : value) : Prop :=
  is_Some (js_ge StringToNumber x min) /\ is_Some (js_le StringToNumber x max).

End Kept.

(** A sequence restricted to the indices a mask keeps. *)
Fixpoint restrict {A} (mask : list bool) (xs : list A) : list A :=
  match mask, xs with
  | b :: mask', x :: xs' =>
      if b then x :: restrict mask' xs' else restrict mask' xs'
  | _, _ => []
  end.

(** The sequences a data view shows, each array read over its own
    length. *)
Definition shows (h : heap) (dataView : value)
    (cvs objs : list value) (cols : list (list value)) : Prop :=
  exists categories category categoryValues categoryObjects values columns,
    get_in h dataView (Name "categories") = Some categories /\
    get_in h categories (Index 0) = Some category /\
    get_in h category (Name "values") = Some categoryValues /\
    read_array h categoryValues = Some cvs /\
    get_in h category (Name "objects") = Some categoryObjects /\
    read_array h categoryObjects = Some objs /\
    get_in h dataView (Name "values") = Some values /\
    read_array h values = Some columns /\
    Forall2 (fun column col =>
               exists a, get_in h column (Name "values") = Some a /\
                         read_array h a = Some col) columns cols.

(** *** The heap [transformDomain] leaves after filtering

    The three local arrays come first, then one array per value column,
    then the derived data view, its derived value columns object, its
    derived categories object and its derived first category, then one
    derived object per value column. *)

Section Shape.

Variable h : heap.
Variable dataView : value.
Variable d : DataView.

(** The heap while the loops run: [A], [nv] and [O] are the contents of
    [newcategoryValues], [newValues] and [newObjects], and [cs] those of
    the arrays [newValues] refers to. *)
Definition stage (A nv O : list value) (cs : list (list value)) : heap :=
  h ++ array_of A :: array_of nv :: array_of O :: (array_of <$> cs).

Definition column_arrays (j : nat) : list value :=
  VRef <$> seq (length h + 3) j.

(** The location of the derived data view. *)
Definition result_loc : loc := length h + 3 + length d.(columns).

Fixpoint measure_props (t : nat) : gmap key value :=
  match t with
  | O => ∅
  | S t' => <[Index t' := VRef (result_loc + 4 + t')]> (measure_props t')
  end.

Definition measures (t : nat) : list object :=
  imap (fun i column =>
          derived column (<[Name "values" := VRef (length h + 3 + i)]> ∅))
       (take t d.(columns)).

Definition result_heap (A O : list value) (cs : list (list value)) (t : nat)
  : heap :=
  stage A (column_arrays (length d.(columns))) O cs
  ++ [ derived dataView
         (<[Name "categories" := VRef (result_loc + 2)]>
            (<[Name "values" := VRef (result_loc + 1)]> ∅));
       derived d.(values) (measure_props t);
       derived d.(categories) (<[Index 0 := VRef (result_loc + 3)]> ∅);
       derived d.(category)
         (<[Name "objects" := VRef (length h + 2)]>
            (<[Name "values" := VRef (length h)]> ∅)) ]
  ++ measures t.

End Shape.

(** *** The filtering path

    [transformDomain] reaches its filtering loop on a data view [d] with
    the resolved bounds [lo] and [hi] when every guard before the loop
    lets it pass. *)

Section Filtering.

Variable isOrdinal : heap -> value -> bool.
Variable StringToNumber : string -> number.

Record filtering (h : heap) (dataView min max : value) (d : DataView)
    (lo hi : value) : Prop := {
  ft_loaded : loaded h dataView d;
  ft_bound : is_number min || is_number max = true;
  ft_scalar : isOrdinal h d.(categoryType) = false;
  ft_min : resolve_min h d.(categoryValues) min = Some lo;
  ft_max : resolve_max h d.(categoryValues) max = Some hi;
  ft_valid : js_gt StringToNumber lo hi = Some false;
  ft_comparable : Forall (comparable_with StringToNumber lo hi) d.(cvs)
}.

(** The indices the loop keeps. *)
Definition kept (d : DataView) (lo hi : value) : list bool :=
  keeps StringToNumber lo hi <$> d.(cvs).

End Filtering.

(** A heap extends another when it holds every object of the other, as it
    is and where it is. *)
Definition extends (h h' : heap) : Prop :=
  forall l o, h !! l = Some o -> h' !! l = Some o.

(** The heap after [t] turns of the filtering loop, and after [k] turns
    of the loop over the value columns inside its turn [t]. *)

Section LoopShapes.

Variable StringToNumber : string -> number.
Variable h : heap.
Variable d : DataView.
Variables lo hi : value.

Definition loop_heap (t : nat) : heap :=
  stage h (restrict (take t (kept StringToNumber d lo hi)) (cvs d))
          (column_arrays h (length (columns d)))
          (restrict (take t (kept StringToNumber d lo hi)) (objs d))
          (restrict (take t (kept StringToNumber d lo hi)) <$> cols d).

Definition column_loop_heap (t k : nat) : heap :=
  stage h (restrict (take (S t) (kept StringToNumber d lo hi)) (cvs d))
          (column_arrays h (length (columns d)))
          (restrict (take (S t) (kept StringToNumber d lo hi)) (objs d))
          ((restrict (take (S t) (kept StringToNumber d lo hi)) <$> take k (cols d))
           ++ (restrict (take t (kept StringToNumber d lo hi)) <$> drop k (cols d))).

End LoopShapes.

(** While [transformDomain] collects the kept values, [newValues] (the
    second of its three local arrays) refers to arrays created after it. *)
Definition collecting (h0 h : heap) : Prop :=
  extends h0 h /\
  exists nv,
    h !! (length h0 + 1)%nat = Some (array_of nv) /\
    Forall (fun x => exists l, x = VRef l /\ (length h0 + 1 < l)%nat) nv.

(** A computation that only reads leaves the heap as it is. *)
Definition reads {A} (m : M A) : Prop := forall h, (m h).1 = h.

(** *** The guards before the filtering loop *)

(** [category ? category.source.type : null]. *)
Definition category_type (h : heap) (category : value) : option value :=
  if ToBoolean category then
    match get_in h category (Name "source") with
    | Some source => get_in h source (Name "type")
    | None => None
    end
  else Some VNull.

(** A call reaches the test on the axis type when the data view has
    categories and values, neither empty, and a bound is a number;
    [category] is then the first category column and [categoryType] the
    type the test looks at. *)
Record reaches_axis (h : heap) (dataView min max category categoryType : value)
  : Prop := {
  ra_categories :
    exists categories n,
      get_in h dataView (Name "categories") = Some categories /\
      length_in h categories = Some (S n) /\
      get_in h categories (Index 0) = Some category;
  ra_values :
    exists values n,
      get_in h dataView (Name "values") = Some values /\
      length_in h values = Some (S n);
  ra_bound : is_number min || is_number max = true;
  ra_type : category_type h category = Some categoryType
}.

(** *** A data view to run the functions on

    An object without prototype, and a heap holding a data view with two
    category columns and one value column: the first category has the
    values 1, 2, 3, 4 with a metadata object each, the value column holds
    10, 20, 30, 40, and the second category has four values of its own. *)

Definition plain (ps : list (key * value)) : object :=
  {| proto := None; elems := None; props := list_to_map ps |}.

Definition num (z : Z) : value := VNumber (of_Z z).

Definition example_heap : heap :=
  [ (* 0 *) plain [(Name "categories", VRef 1); (Name "values", VRef 7);
                   (Name "metadata", VString "kept")];
    (* 1 *) array_of [VRef 2; VRef 11];
    (* 2 *) plain [(Name "source", VRef 3); (Name "values", VRef 4);
                   (Name "objects", VRef 5)];
    (* 3 *) plain [(Name "type", VRef 6); (Name "displayName", VString "x")];
    (* 4 *) array_of [num 1; num 2; num 3; num 4];
    (* 5 *) array_of [VRef 10; VUndefined; VRef 10; VUndefined];
    (* 6 *) plain [(Name "numeric", VBool true)];
    (* 7 *) array_of [VRef 8];
    (* 8 *) plain [(Name "source", VRef 3); (Name "values", VRef 9)];
    (* 9 *) array_of [num 10; num 20; num 30; num 40];
    (* 10 *) plain [];
    (* 11 *) plain [(Name "source", VRef 3); (Name "values", VRef 12)];
    (* 12 *) array_of [VString "a"; VString "b"; VString "c"; VString "d"] ].

Definition example_view : DataView :=
  {| categories := VRef 1; values := VRef 7; columns := [VRef 8];
     category := VRef 2; categoryType := VRef 6;
     categoryValues := VRef 4; categoryObjects := VRef 5;
     cvs := [num 1; num 2; num 3; num 4];
     objs := [VRef 10; VUndefined; VRef 10; VUndefined];
     cols := [[num 10; num 20; num 30; num 40]] |}.

(** The same data view with a first category that has no metadata
    objects. *)
Definition example_heap_without_objects : heap :=
  <[2%nat := plain [(Name "source", VRef 3); (Name "values", VRef 4)]]>
    example_heap.

(** Hosts for the examples: no type is ordinal, or every type is, and no
    string is a number. *)
Definition never_ordinal (h : heap) (type : value) : bool := false.
Definition always_ordinal (h : heap) (type : value) : bool := true.
Definition no_numeric_string (s : string) : number := NaN.

(** [dataView.categories[0].values], element by element. *)
Definition shows_values (h : heap) (dataView : value) : option (list value) :=
  match get_in h dataView (Name "categories") with
  | Some categories =>
      match get_in h categories (Index 0) with
      | Some category =>
          match get_in h category (Name "values") with
          | Some categoryValues => read_array h categoryValues
          | None => None
          end
      | None => None
      end
  | None => None
  end.

(** ** Notions the further properties use *)


(** The data view [transformDomain] returns, as a data view to read:
    what a second reader finds when it goes through the derived data view
    the way [transformDomain] goes through its input: the derived
    categories and value columns objects, the derived first category, and
    the arrays [A], [O] and [cs] that hold the kept category values,
    metadata objects and column values. *)
Definition result_data_view (h : heap) (d : DataView)
    (A O : list value) (cs : list (list value)) : DataView :=
  {| categories := VRef (result_loc h d + 2);
     values := VRef (result_loc h d + 1);
     columns := VRef <$> seq (result_loc h d + 4) (length d.(columns));
     category := VRef (result_loc h d + 3);
     categoryType := d.(categoryType);
     categoryValues := VRef (length h);
     categoryObjects := VRef (length h + 2);
     cvs := A; objs := O; cols := cs |}.

(** The example heap with an axis card that asks for the range from 2 to
    3, at the location 13. *)
Definition example_heap_with_card : heap :=
  example_heap ++ [plain [(Name "start", num 2); (Name "end", num 3)]].

(** The example heap with a hole for its first category column. *)
Definition example_heap_with_hole : heap :=
  <[1%nat := array_of [VUndefined; VRef 11]]> example_heap.

(** * Part II: lemmas and theorems *)

(** ** The order on numbers *)

Ltac compare_cases :=
  repeat match goal with
    | |- context [Z.compare ?a ?b] =>
        let H := fresh in destruct (Z.compare_spec a b) as [H|H|H]
    | |- context [Pos.compare_cont Eq ?a ?b] =>
        let H := fresh in
        change (Pos.compare_cont Eq a b) with (Pos.compare a b);
        destruct (Pos.compare_spec a b) as [H|H|H]
    end.

Lemma lt_rank (x y : number) :
  lt x y = true <->
  is_nan x = false /\ is_nan y = false /\ lex_lt (rank x) (rank y).
Proof.
  unfold lt, SFltb.
  destruct x as [[]|[]| |[] mx ex], y as [[]|[]| |[] my ey]; simpl;
    compare_cases; simpl; split;
    try (intros; discriminate);
    try (intros (? & ? & ?); discriminate);
    try (intros _; repeat split; lia);
    try (intros (_ & _ & ?); try reflexivity; exfalso; lia).
Qed.

Lemma le_rank (x y : number) :
  le x y = true <->
  is_nan x = false /\ is_nan y = false /\ lex_le (rank x) (rank y).
Proof.
  unfold le, SFleb.
  destruct x as [[]|[]| |[] mx ex], y as [[]|[]| |[] my ey]; simpl;
    compare_cases; simpl; split;
    try (intros; discriminate);
    try (intros (? & ? & ?); discriminate);
    try (intros _; repeat split; lia);
    try (intros (_ & _ & ?); try reflexivity; exfalso; lia).
Qed.

Lemma lt_false (x y : number) :
  lt x y = false <->
  is_nan x = true \/ is_nan y = true \/ lex_le (rank y) (rank x).
Proof.
  rewrite <- not_true_iff_false, lt_rank.
  destruct (is_nan x), (is_nan y), (rank x) as [[? ?] ?], (rank y) as [[? ?] ?];
    simpl; intuition (try discriminate; try lia).
Qed.

Lemma le_false (x y : number) :
  le x y = false <->
  is_nan x = true \/ is_nan y = true \/ lex_lt (rank y) (rank x).
Proof.
  rewrite <- not_true_iff_false, le_rank.
  destruct (is_nan x), (is_nan y), (rank x) as [[? ?] ?], (rank y) as [[? ?] ?];
    simpl; intuition (try discriminate; try lia).
Qed.

(** Turns every comparison in sight into its reading on ranks and decides
    the result. *)
Ltac by_rank :=
  unfold gt, ge in *;
  repeat match goal with
    | H : lt _ _ = true |- _ => apply lt_rank in H
    | H : le _ _ = true |- _ => apply le_rank in H
    | H : lt _ _ = false |- _ => apply lt_false in H
    | H : le _ _ = false |- _ => apply le_false in H
    | |- lt _ _ = true => apply lt_rank
    | |- le _ _ = true => apply le_rank
    | |- lt _ _ = false => apply lt_false
    | |- le _ _ = false => apply le_false
    end;
  repeat match goal with
    | |- context [is_nan ?x] => destruct (is_nan x)
    | H : context [is_nan ?x] |- _ => destruct (is_nan x)
    end;
  repeat match goal with
    | |- context [rank ?x] => destruct (rank x) as [[? ?] ?]
    | H : context [rank ?x] |- _ => destruct (rank x) as [[? ?] ?]
    end;
  simpl in *; intuition (try discriminate; try lia).

Lemma lt_irrefl x : lt x x = false.
Proof. by_rank. Qed.

Lemma le_refl x : is_nan x = false -> le x x = true.
Proof. intros ?. by_rank. Qed.

Lemma le_self_not_nan x : le x x = true -> is_nan x = false.
Proof. intros ?. by_rank. Qed.

Lemma lt_trans x y z : lt x y = true -> lt y z = true -> lt x z = true.
Proof. intros ? ?. by_rank. Qed.

Lemma le_trans x y z : le x y = true -> le y z = true -> le x z = true.
Proof. intros ? ?. by_rank. Qed.

Lemma le_lt_trans x y z : le x y = true -> lt y z = true -> lt x z = true.
Proof. intros ? ?. by_rank. Qed.

Lemma lt_le_trans x y z : lt x y = true -> le y z = true -> lt x z = true.
Proof. intros ? ?. by_rank. Qed.

Lemma lt_not_le x y : lt x y = true -> le y x = false.
Proof. intros ?. by_rank. Qed.

Lemma lt_asym x y : lt x y = true -> lt y x = false.
Proof. intros ?. by_rank. Qed.

Lemma not_lt_le x y :
  is_nan x = false -> is_nan y = false -> lt y x = false -> le x y = true.
Proof. intros ? ? ?. by_rank. Qed.

Lemma le_not_nan_l x y : le x y = true -> is_nan x = false.
Proof. intros ?. by_rank. Qed.

Lemma le_not_nan_r x y : le x y = true -> is_nan y = false.
Proof. intros ?. by_rank. Qed.

(** ** The d3 reductions compute a minimum and a maximum *)

Lemma min_from_spec bs : forall a,
  is_nan a = false ->
  (d3.min_from a bs = a \/ In (d3.min_from a bs) (numbers_of bs)) /\
  le (d3.min_from a bs) a = true /\
  forall x, In x (numbers_of bs) -> is_nan x = false ->
            le (d3.min_from a bs) x = true.
Proof.
  induction bs as [|[b|] bs IH]; intros a Ha; simpl.
  - split; [now left|]. split; [now apply le_refl|]. intros x [].
  - destruct (gt a b) eqn:Hgt.
    + assert (Hb : is_nan b = false) by by_rank.
      destruct (IH b Hb) as (Hin & Hle & Hall).
      split; [right; destruct Hin as [->|Hin]; [now left|now right]|].
      split; [by_rank|].
      intros x [<-|Hx] Hn; [exact Hle|now apply Hall].
    + destruct (IH a Ha) as (Hin & Hle & Hall).
      split; [destruct Hin as [->|Hin]; [now left|right; now right]|].
      split; [exact Hle|].
      intros x [<-|Hx] Hn; [by_rank|now apply Hall].
  - apply IH, Ha.
Qed.

Lemma min_values_spec bs : is_minimum (numbers_of bs) (d3.min_values bs).
Proof.
  induction bs as [|[b|] bs IH]; simpl.
  - intros x [].
  - destruct (ge b b) eqn:Hb.
    + assert (Hn : is_nan b = false) by by_rank.
      destruct (min_from_spec bs b Hn) as (Hin & Hle & Hall).
      split; [destruct Hin as [->|Hin]; [now left|now right]|].
      split; [by_rank|].
      intros x [<-|Hx] Hx'; [exact Hle|now apply Hall].
    + assert (Hn : is_nan b = true) by by_rank.
      destruct (d3.min_values bs) as [m|]; simpl in *.
      * destruct IH as (Hin & Hm & Hall).
        split; [now right|]. split; [exact Hm|].
        intros x [<-|Hx] Hx'; [congruence|now apply Hall].
      * intros x [<-|Hx]; [exact Hn|now apply IH].
  - exact IH.
Qed.

Lemma max_from_spec bs : forall a,
  is_nan a = false ->
  (d3.max_from a bs = a \/ In (d3.max_from a bs) (numbers_of bs)) /\
  le a (d3.max_from a bs) = true /\
  forall x, In x (numbers_of bs) -> is_nan x = false ->
            le x (d3.max_from a bs) = true.
Proof.
  induction bs as [|[b|] bs IH]; intros a Ha; simpl.
  - split; [now left|]. split; [now apply le_refl|]. intros x [].
  - destruct (gt b a) eqn:Hgt.
    + assert (Hb : is_nan b = false) by by_rank.
      destruct (IH b Hb) as (Hin & Hle & Hall).
      split; [right; destruct Hin as [->|Hin]; [now left|now right]|].
      split; [by_rank|].
      intros x [<-|Hx] Hn; [exact Hle|now apply Hall].
    + destruct (IH a Ha) as (Hin & Hle & Hall).
      split; [destruct Hin as [->|Hin]; [now left|right; now right]|].
      split; [exact Hle|].
      intros x [<-|Hx] Hn; [by_rank|now apply Hall].
  - apply IH, Ha.
Qed.

Lemma max_values_spec bs : is_maximum (numbers_of bs) (d3.max_values bs).
Proof.
  induction bs as [|[b|] bs IH]; simpl.
  - intros x [].
  - destruct (ge b b) eqn:Hb.
    + assert (Hn : is_nan b = false) by by_rank.
      destruct (max_from_spec bs b Hn) as (Hin & Hle & Hall).
      split; [destruct Hin as [->|Hin]; [now left|now right]|].
      split; [by_rank|].
      intros x [<-|Hx] Hx'; [exact Hle|now apply Hall].
    + assert (Hn : is_nan b = true) by by_rank.
      destruct (d3.max_values bs) as [m|]; simpl in *.
      * destruct IH as (Hin & Hm & Hall).
        split; [now right|]. split; [exact Hm|].
        intros x [<-|Hx] Hx'; [congruence|now apply Hall].
      * intros x [<-|Hx]; [exact Hn|now apply IH].
  - exact IH.
Qed.

Lemma numbers_of_Some {A} (f : A -> number) (l : list A) :
  numbers_of (map (fun a => Some (f a)) l) = map f l.
Proof. induction l as [|a l IH]; simpl; [reflexivity|]. now f_equal. Qed.

(** The extremum of the extrema of the rows is the extremum of all the
    entries. *)
Lemma is_minimum_concat (xss : list (list number)) (rs : list (option number)) r :
  Forall2 is_minimum xss rs ->
  is_minimum (numbers_of rs) r ->
  is_minimum (concat xss) r.
Proof.
  intros HF Hr.
  assert (Hrow : forall x, In x (concat xss) -> is_nan x = false ->
            exists m, In m (numbers_of rs) /\ is_nan m = false /\ le m x = true).
  { clear Hr. induction HF as [|xs q xss rs Hq HF IH]; simpl; [intros x []|].
    intros x Hx Hn. apply in_app_or in Hx. destruct Hx as [Hx|Hx].
    - destruct q as [m|]; simpl in Hq.
      + exists m. destruct Hq as (_ & Hm & Hall). simpl. auto.
      + rewrite (Hq x Hx) in Hn. discriminate.
    - destruct (IH x Hx Hn) as (m & Hm & Hm' & Hle). exists m.
      split; [|auto]. destruct q; simpl; auto. }
  assert (Hmem : forall m, In m (numbers_of rs) -> is_nan m = false ->
            In m (concat xss)).
  { clear Hr Hrow. induction HF as [|xs q xss rs Hq HF IH]; simpl; [intros m []|].
    intros m Hm Hn. apply in_or_app. destruct q as [m'|]; simpl in Hm.
    - destruct Hm as [<-|Hm]; [left; apply Hq|right; now apply IH].
    - right. now apply IH. }
  destruct r as [m|]; simpl in *.
  - destruct Hr as (Hin & Hm & Hall). split; [now apply Hmem|]. split; [exact Hm|].
    intros x Hx Hn. destruct (Hrow x Hx Hn) as (m' & Hm' & Hn' & Hle).
    apply (le_trans _ m'); [now apply Hall|exact Hle].
  - intros x Hx. destruct (is_nan x) eqn:Hn; [reflexivity|].
    destruct (Hrow x Hx Hn) as (m' & Hm' & Hn' & _).
    rewrite (Hr m' Hm') in Hn'. discriminate.
Qed.

Lemma is_maximum_concat (xss : list (list number)) (rs : list (option number)) r :
  Forall2 is_maximum xss rs ->
  is_maximum (numbers_of rs) r ->
  is_maximum (concat xss) r.
Proof.
  intros HF Hr.
  assert (Hrow : forall x, In x (concat xss) -> is_nan x = false ->
            exists m, In m (numbers_of rs) /\ is_nan m = false /\ le x m = true).
  { clear Hr. induction HF as [|xs q xss rs Hq HF IH]; simpl; [intros x []|].
    intros x Hx Hn. apply in_app_or in Hx. destruct Hx as [Hx|Hx].
    - destruct q as [m|]; simpl in Hq.
      + exists m. destruct Hq as (_ & Hm & Hall). simpl. auto.
      + rewrite (Hq x Hx) in Hn. discriminate.
    - destruct (IH x Hx Hn) as (m & Hm & Hm' & Hle). exists m.
      split; [|auto]. destruct q; simpl; auto. }
  assert (Hmem : forall m, In m (numbers_of rs) -> is_nan m = false ->
            In m (concat xss)).
  { clear Hr Hrow. induction HF as [|xs q xss rs Hq HF IH]; simpl; [intros m []|].
    intros m Hm Hn. apply in_or_app. destruct q as [m'|]; simpl in Hm.
    - destruct Hm as [<-|Hm]; [left; apply Hq|right; now apply IH].
    - right. now apply IH. }
  destruct r as [m|]; simpl in *.
  - destruct Hr as (Hin & Hm & Hall). split; [now apply Hmem|]. split; [exact Hm|].
    intros x Hx Hn. destruct (Hrow x Hx Hn) as (m' & Hm' & Hn' & Hle).
    apply (le_trans _ m'); [exact Hle|now apply Hall].
  - intros x Hx. destruct (is_nan x) eqn:Hn; [reflexivity|].
    destruct (Hrow x Hx Hn) as (m' & Hm' & Hn' & _).
    rewrite (Hr m' Hm') in Hn'. discriminate.
Qed.

(** ** [calcValueDomain] *)

Section CalcValueDomainFacts.

Variable roundToPrecision : option number -> number -> option number.

Lemma calcValueDomain_min data :
  data <> [] ->
  is_minimum (differences data)
    (calcValueDomain roundToPrecision data false).(Range.min).
Proof.
  intros Hne. unfold calcValueDomain.
  destruct data as [|s data]; [congruence|]. cbn [length Nat.eqb Range.min].
  unfold differences. rewrite flat_map_concat_map.
  eapply is_minimum_concat; [|apply min_values_spec].
  apply Forall2_fmap, Forall_Forall2_diag, Forall_forall. intros series _.
  unfold d3.min. rewrite <- (numbers_of_Some _ (Chart.data series)) at 1.
  apply min_values_spec.
Qed.

Lemma calcValueDomain_max data :
  data <> [] ->
  is_maximum (positions data)
    (calcValueDomain roundToPrecision data false).(Range.max).
Proof.
  intros Hne. unfold calcValueDomain.
  destruct data as [|s data]; [congruence|]. cbn [length Nat.eqb Range.max].
  unfold positions. rewrite flat_map_concat_map.
  eapply is_maximum_concat; [|apply max_values_spec].
  apply Forall2_fmap, Forall_Forall2_diag, Forall_forall. intros series _.
  unfold d3.max. rewrite <- (numbers_of_Some _ (Chart.data series)) at 1.
  apply max_values_spec.
Qed.

(** C2. On an empty collection [calcValueDomain] returns the default range
    {min: 0, max: 10}; on a non-empty one, with [is100pct] false, its [min]
    is the minimum of [position - valueAbsolute] over all data points and
    its [max] the maximum of [position] over all data points. *)
Theorem calcValueDomain_domain :
  (forall is100pct,
     calcValueDomain roundToPrecision [] is100pct
     = {| Range.min := Some (of_Z 0); Range.max := Some (of_Z 10) |}) /\
  (forall data,
     data <> [] ->
     is_minimum (differences data)
       (calcValueDomain roundToPrecision data false).(Range.min) /\
     is_maximum (positions data)
       (calcValueDomain roundToPrecision data false).(Range.max)).
Proof.
  split; [reflexivity|].
  intros data Hne. split; [now apply calcValueDomain_min|now apply calcValueDomain_max].
Qed.

(** C4, as amended.  When the collection holds at least one data point and
    [position - valueAbsolute] of every data point is a number not above
    its [position], the range returned has [min <= max]; with [is100pct]
    set this needs the host's rounding to preserve [<=]. *)
Theorem calcValueDomain_ordered data is100pct :
  differences data <> [] ->
  (forall series dataPoint,
     In series data -> In dataPoint series.(Chart.data) ->
     le (sub dataPoint.(Chart.position) dataPoint.(Chart.valueAbsolute))
        dataPoint.(Chart.position) = true) ->
  (is100pct = true ->
   forall a b, le (to_number a) (to_number b) = true ->
     le (to_number (roundToPrecision a PctRoundingError))
        (to_number (roundToPrecision b PctRoundingError)) = true) ->
  range_ordered (calcValueDomain roundToPrecision data is100pct) = true.
Proof.
  intros Hpoint Hall Hround.
  assert (Hne : data <> []) by (intros ->; now apply Hpoint).
  assert (Hex : exists series dataPoint,
             In series data /\ In dataPoint series.(Chart.data)).
  { unfold differences in Hpoint.
    destruct (flat_map _ data) as [|x xs] eqn:Hfm; [congruence|].
    assert (Hx : In x (flat_map (fun series =>
                 map (fun dataPoint =>
                   sub dataPoint.(Chart.position) dataPoint.(Chart.valueAbsolute))
                   series.(Chart.data)) data)) by (rewrite Hfm; now left).
    apply in_flat_map in Hx. destruct Hx as (series & Hs & Hx).
    apply in_map_iff in Hx. destruct Hx as (dataPoint & _ & Hd). eauto. }
  destruct Hex as (series & dataPoint & Hs & Hd).
  pose proof (Hall series dataPoint Hs Hd) as Hle.
  assert (Hdiff : In (sub dataPoint.(Chart.position) dataPoint.(Chart.valueAbsolute))
                     (differences data)).
  { apply in_flat_map. exists series. split; [exact Hs|].
    apply in_map_iff. eauto. }
  assert (Hpos : In dataPoint.(Chart.position) (positions data)).
  { apply in_flat_map. exists series. split; [exact Hs|]. now apply in_map. }
  pose proof (calcValueDomain_min data Hne) as Hmin.
  pose proof (calcValueDomain_max data Hne) as Hmax.
  assert (Hcore : le (to_number (calcValueDomain roundToPrecision data false).(Range.min))
                     (to_number (calcValueDomain roundToPrecision data false).(Range.max))
                  = true).
  { destruct (Range.min _) as [m|]; simpl in Hmin.
    - destruct (Range.max _) as [M|]; simpl in Hmax.
      + destruct Hmin as (_ & _ & Hmin). destruct Hmax as (_ & _ & Hmax).
        simpl. apply (le_trans _ (Chart.position dataPoint)).
        * apply (le_trans _ (sub (Chart.position dataPoint)
                                 (Chart.valueAbsolute dataPoint))); [|exact Hle].
          apply Hmin; [exact Hdiff|]. now apply le_not_nan_l in Hle.
        * apply Hmax; [exact Hpos|]. now apply le_not_nan_r in Hle.
      + apply Hmax in Hpos. apply le_not_nan_r in Hle. congruence.
    - apply Hmin in Hdiff. apply le_not_nan_l in Hle. congruence. }
  unfold range_ordered. revert Hcore. unfold calcValueDomain.
  destruct data as [|s0 data]; [congruence|]. cbn [length Nat.eqb Range.min Range.max].
  destruct is100pct; [apply Hround; reflexivity|trivial].
Qed.

End CalcValueDomainFacts.

Lemma calcValueDomain_domain_witness :
  let data :=
    [ {| Chart.data :=
           [ {| Chart.position := of_Z 7; Chart.valueAbsolute := of_Z 3;
                Chart.categoryIndex := of_Z 0 |} ] |} ] in
  data <> [] /\
  is_minimum (differences data)
    (calcValueDomain (fun x _ => x) data false).(Range.min) /\
  is_maximum (positions data)
    (calcValueDomain (fun x _ => x) data false).(Range.max).
Proof.
  intros data. split; [discriminate|].
  apply (proj2 (calcValueDomain_domain (fun x _ => x)) data). discriminate.
Defined.

(** C4 as stated fails: a series without data points leaves both bounds
    [undefined], and a negative [valueAbsolute] puts [min] above [max]. *)
Lemma calcValueDomain_ordered_counterexample :
  range_ordered
    (calcValueDomain (fun x _ => x) [ {| Chart.data := [] |} ] false) = false /\
  range_ordered
    (calcValueDomain (fun x _ => x)
       [ {| Chart.data :=
              [ {| Chart.position := of_Z 0; Chart.valueAbsolute := of_Z (-1);
                   Chart.categoryIndex := of_Z 0 |} ] |} ] false) = false.
Proof. split; vm_compute; reflexivity. Qed.

Lemma calcValueDomain_ordered_witness :
  let data :=
    [ {| Chart.data :=
           [ {| Chart.position := of_Z 7; Chart.valueAbsolute := of_Z 3;
                Chart.categoryIndex := of_Z 0 |};
             {| Chart.position := of_Z 2; Chart.valueAbsolute := of_Z 2;
                Chart.categoryIndex := of_Z 1 |} ] |} ] in
  range_ordered (calcValueDomain (fun x _ => x) data true) = true.
Proof.
  intros data. apply (calcValueDomain_ordered (fun x _ => x) data true).
  - discriminate.
  - intros series dataPoint [<-|[]] [<-|[<-|[]]]; vm_compute; reflexivity.
  - intros _ a b Hab. exact Hab.
Defined.

(** ** [getClosestColumnIndex] *)

Lemma getClosestColumnIndex_loop_spec coordinate : forall centers i cur d,
  let r := getClosestColumnIndex_loop coordinate centers i cur d in
  (r = cur /\ forall c, In c centers -> lt (distance coordinate c) d = false) \/
  (exists c,
     (i <= r)%nat /\ centers !! (r - i)%nat = Some c /\
     lt (distance coordinate c) d = true /\
     (forall j c', centers !! j = Some c' ->
        lt (distance coordinate c') (distance coordinate c) = false) /\
     (forall j c', (j < r - i)%nat -> centers !! j = Some c' ->
        le (distance coordinate c') (distance coordinate c) = false)).
Proof.
  induction centers as [|c centers IH]; intros i cur d; simpl.
  - left. split; [reflexivity|]. intros c [].
  - fold (distance coordinate c).
    destruct (lt (distance coordinate c) d) eqn:Hc.
    + right. destruct (IH (S i) i (distance coordinate c)) as [(Hr & Hnone)|Hsome].
      * exists c. rewrite Hr, Nat.sub_diag. split; [lia|]. split; [reflexivity|].
        split; [exact Hc|]. split.
        -- intros [|j] c' Hj; simpl in Hj.
           ++ injection Hj as <-. apply lt_irrefl.
           ++ apply Hnone. apply list_elem_of_In. eapply list_elem_of_lookup_2, Hj.
        -- intros j c' Hlt. lia.
      * destruct Hsome as (c2 & Hi & Hlook & Hlt & Hmin & Hfirst).
        exists c2. split; [lia|].
        replace (getClosestColumnIndex_loop coordinate centers (S i) i
                   (distance coordinate c) - i)%nat
          with (S (getClosestColumnIndex_loop coordinate centers (S i) i
                     (distance coordinate c) - S i)) by lia.
        split; [exact Hlook|]. split; [eapply lt_trans; eassumption|]. split.
        -- intros [|j] c' Hj; simpl in Hj.
           ++ injection Hj as <-. now apply lt_asym.
           ++ eapply Hmin, Hj.
        -- intros [|j] c' Hjlt Hj; simpl in Hj.
           ++ injection Hj as <-. now apply lt_not_le.
           ++ eapply Hfirst; [|exact Hj]. lia.
    + destruct (IH (S i) cur d) as [(Hr & Hnone)|Hsome].
      * left. split; [exact Hr|]. intros c' [<-|Hc']; [exact Hc|now apply Hnone].
      * right. destruct Hsome as (c2 & Hi & Hlook & Hlt & Hmin & Hfirst).
        exists c2. split; [lia|].
        replace (getClosestColumnIndex_loop coordinate centers (S i) cur d - i)%nat
          with (S (getClosestColumnIndex_loop coordinate centers (S i) cur d - S i))
          by lia.
        split; [exact Hlook|]. split; [exact Hlt|]. split.
        -- intros [|j] c' Hj; simpl in Hj.
           ++ injection Hj as <-. clear - Hc Hlt. by_rank.
           ++ eapply Hmin, Hj.
        -- intros [|j] c' Hjlt Hj; simpl in Hj.
           ++ injection Hj as <-. clear - Hc Hlt. by_rank.
           ++ eapply Hfirst; [|exact Hj]. lia.
Qed.

(** C3, as amended.  [getClosestColumnIndex] returns the lowest index
    whose center has the least distance to the coordinate, among the
    centers closer than [Number.MAX_VALUE]: no center is strictly closer
    than the one returned and no earlier center is as close.  It returns 0
    when no center is that close, as for an empty sequence.  In particular
    [getClosestColumnIndex(5, [0,10,20])] is 0 and
    [getClosestColumnIndex(15, [0,10,20])] is 1. *)
Theorem getClosestColumnIndex_first_minimum :
  (forall coordinate columnsCenters,
     let r := getClosestColumnIndex coordinate columnsCenters in
     (r = 0%nat /\
      forall c, In c columnsCenters ->
        lt (distance coordinate c) MAX_VALUE = false) \/
     (exists c,
        columnsCenters !! r = Some c /\
        lt (distance coordinate c) MAX_VALUE = true /\
        (forall j c', columnsCenters !! j = Some c' ->
           lt (distance coordinate c') (distance coordinate c) = false) /\
        (forall j c', (j < r)%nat -> columnsCenters !! j = Some c' ->
           le (distance coordinate c') (distance coordinate c) = false))) /\
  getClosestColumnIndex (of_Z 5) [of_Z 0; of_Z 10; of_Z 20] = 0%nat /\
  getClosestColumnIndex (of_Z 15) [of_Z 0; of_Z 10; of_Z 20] = 1%nat.
Proof.
  split; [|split; vm_compute; reflexivity].
  intros coordinate columnsCenters r. subst r. unfold getClosestColumnIndex.
  destruct (getClosestColumnIndex_loop_spec coordinate columnsCenters 0 0 MAX_VALUE)
    as [H|(c & _ & Hlook & H)]; [now left|].
  right. exists c. rewrite Nat.sub_0_r in *. auto.
Qed.

(** C3 as stated fails: for the coordinate 15 the centers 10 and 20 are
    equally close and the strict comparison keeps the earlier one, index
    1, not 2; and a center at distance [Number.MAX_VALUE] or more is never
    chosen, even when it is the closest. *)
Lemma getClosestColumnIndex_counterexample :
  getClosestColumnIndex (of_Z 15) [of_Z 0; of_Z 10; of_Z 20] <> 2%nat /\
  (getClosestColumnIndex (of_Z 0) [Infinity; MAX_VALUE] = 0%nat /\
   lt (distance (of_Z 0) MAX_VALUE) (distance (of_Z 0) Infinity) = true).
Proof. split; [|split]; vm_compute; congruence. Qed.

(** ** [setChosenColumnOpacity] *)

(** C7, as amended.  [setChosenColumnOpacity] schedules the transition to
    the dimmed opacity on exactly the rectangles whose category index
    differs from the selected index and, when [lastColumnIndex] is
    defined, equals it; it writes the full opacity at once on exactly the
    rectangles whose category index is the selected one; nothing else
    changes. *)
Theorem setChosenColumnOpacity_effect series selectedColumnIndex lastColumnIndex :
  Forall2 (Forall2 (fun r r' =>
    r'.(datum) = r.(datum) /\
    r'.(transition_to)
    = (if dimmed selectedColumnIndex lastColumnIndex r.(datum)
       then Some DimmedOpacity else r.(transition_to)) /\
    r'.(fill_opacity)
    = (if chosen selectedColumnIndex r.(datum)
       then Some DefaultOpacity else r.(fill_opacity))))
    series
    (setChosenColumnOpacity series selectedColumnIndex lastColumnIndex).
Proof.
  unfold setChosenColumnOpacity, style, transition_style. cbv zeta.
  rewrite List.map_map.
  apply Forall2_fmap_r, Forall_Forall2_diag, Forall_forall. intros rects _.
  unfold compose. rewrite List.map_map.
  apply Forall2_fmap_r, Forall_Forall2_diag, Forall_forall. intros r _.
  unfold compose, dimmed, chosen.
  destruct lastColumnIndex as [last|]; simpl;
    destruct (strict_eq (Chart.categoryIndex (datum r)) selectedColumnIndex) eqn:Hsel;
    simpl; rewrite ?Hsel; simpl; auto;
    destruct (strict_eq (Chart.categoryIndex (datum r)) last) eqn:Hlast;
    simpl; rewrite ?Hsel; simpl; auto.
Qed.

(** C7 as stated fails: with the column 0 selected and the column 1 last
    interacted, a rectangle of the column 2 is neither, and it is not
    dimmed. *)
Lemma setChosenColumnOpacity_counterexample :
  let r := {| datum := {| Chart.position := of_Z 0; Chart.valueAbsolute := of_Z 0;
                          Chart.categoryIndex := of_Z 2 |};
              fill_opacity := None; transition_to := None |} in
  strict_eq (of_Z 2) (of_Z 0) = false /\
  strict_eq (of_Z 2) (of_Z 1) = false /\
  setChosenColumnOpacity [[r]] (of_Z 0) (Some (of_Z 1)) = [[r]].
Proof. vm_compute. auto. Qed.

(** ** Reading the heap *)

(** A heap [h'] extends [h] when every object of [h] is in [h'] as it is. *)
Lemma lookup_chain_mono fuel : forall fuel' (h h' : heap) l k v,
  (forall l o, h !! l = Some o -> h' !! l = Some o) ->
  (fuel <= fuel')%nat ->
  lookup_chain fuel h l k = Some v ->
  lookup_chain fuel' h' l k = Some v.
Proof.
  induction fuel as [|fuel IH]; intros fuel' h h' l k v Hext Hle; simpl;
    [discriminate|].
  destruct fuel' as [|fuel']; [lia|]. simpl.
  destruct (h !! l) as [o|] eqn:Ho; [|discriminate].
  rewrite (Hext _ _ Ho).
  destruct (own o k); [trivial|].
  destruct (proto o); [|trivial].
  apply IH; [exact Hext|lia].
Qed.

Lemma length_chain_mono fuel : forall fuel' (h h' : heap) l n,
  (forall l o, h !! l = Some o -> h' !! l = Some o) ->
  (fuel <= fuel')%nat ->
  length_chain fuel h l = Some n ->
  length_chain fuel' h' l = Some n.
Proof.
  induction fuel as [|fuel IH]; intros fuel' h h' l n Hext Hle; simpl;
    [discriminate|].
  destruct fuel' as [|fuel']; [lia|]. simpl.
  destruct (h !! l) as [o|] eqn:Ho; [|discriminate].
  rewrite (Hext _ _ Ho).
  destruct (elems o); [trivial|].
  destruct (proto o); [|trivial].
  apply IH; [exact Hext|lia].
Qed.

Lemma app_extends (h ext : heap) l o : h !! l = Some o -> (h ++ ext) !! l = Some o.
Proof. intros H. now apply lookup_app_l_Some. Qed.

Lemma get_in_app (h ext : heap) v k x :
  get_in h v k = Some x -> get_in (h ++ ext) v k = Some x.
Proof.
  destruct v; simpl; try discriminate.
  apply lookup_chain_mono; [apply app_extends|rewrite length_app; lia].
Qed.

Lemma length_in_app (h ext : heap) v n :
  length_in h v = Some n -> length_in (h ++ ext) v = Some n.
Proof.
  destruct v; simpl; try discriminate.
  apply length_chain_mono; [apply app_extends|rewrite length_app; lia].
Qed.

(** An own property is read at once; a property an object lacks is read
    from its prototype. *)
Lemma get_in_own (h : heap) l o k v :
  h !! l = Some o -> own o k = Some v -> get_in h (VRef l) k = Some v.
Proof.
  intros Ho Hk. simpl. destruct (length h) eqn:Hlen.
  - apply lookup_lt_Some in Ho. lia.
  - simpl. now rewrite Ho, Hk.
Qed.

Lemma get_in_proto (h ext : heap) l o k v x :
  (h ++ ext) !! l = Some o -> (length h <= l)%nat ->
  own o k = None -> proto o = match v with VRef p => Some p | _ => None end ->
  get_in h v k = Some x ->
  get_in (h ++ ext) (VRef l) k = Some x.
Proof.
  intros Ho Hl Hk Hp Hv. simpl.
  destruct (length (h ++ ext)) as [|fuel] eqn:Hlen.
  - apply lookup_lt_Some in Ho. lia.
  - simpl. rewrite Ho, Hk, Hp.
    destruct v; simpl in Hv; try discriminate.
    eapply lookup_chain_mono; [apply app_extends| |exact Hv].
    apply lookup_lt_Some in Ho. rewrite length_app in *. lia.
Qed.

Lemma length_in_array (h : heap) l xs ps :
  h !! l = Some {| proto := None; elems := Some xs; props := ps |} ->
  length_in h (VRef l) = Some (length xs).
Proof.
  intros Ho. simpl. destruct (length h) eqn:Hlen.
  - apply lookup_lt_Some in Ho. lia.
  - simpl. now rewrite Ho.
Qed.

Lemma length_in_proto (h ext : heap) l o v n :
  (h ++ ext) !! l = Some o -> (length h <= l)%nat ->
  elems o = None -> proto o = match v with VRef p => Some p | _ => None end ->
  length_in h v = Some n ->
  length_in (h ++ ext) (VRef l) = Some n.
Proof.
  intros Ho Hl He Hp Hv. simpl.
  destruct (length (h ++ ext)) as [|fuel] eqn:Hlen.
  - apply lookup_lt_Some in Ho. lia.
  - simpl. rewrite Ho, He, Hp.
    destruct v; simpl in Hv; try discriminate.
    eapply length_chain_mono; [apply app_extends| |exact Hv].
    apply lookup_lt_Some in Ho. rewrite length_app in *. lia.
Qed.

(** An array reads its elements, and [undefined] past its end. *)
Lemma get_in_array (h : heap) l xs i :
  h !! l = Some (array_of xs) ->
  get_in h (VRef l) (Index i) = Some (default VUndefined (xs !! i)).
Proof.
  intros Ho. simpl. destruct (length h) eqn:Hlen.
  - apply lookup_lt_Some in Ho. lia.
  - simpl. rewrite Ho. simpl. now destruct (xs !! i).
Qed.

Lemma read_upto_length (h : heap) v n xs :
  read_upto h v n = Some xs -> length xs = n.
Proof.
  intros H. apply length_mapM in H. now rewrite length_seq in H.
Qed.

Lemma read_upto_lookup (h : heap) v n xs i x :
  read_upto h v n = Some xs -> xs !! i = Some x ->
  get_in h v (Index i) = Some x.
Proof.
  intros H Hx. apply mapM_Some_1 in H.
  destruct (Forall2_lookup_r _ _ _ _ _ H Hx) as (j & Hj & Hget).
  apply lookup_seq in Hj. destruct Hj as [-> _]. exact Hget.
Qed.

Lemma read_upto_intro (h : heap) v xs :
  (forall i x, xs !! i = Some x -> get_in h v (Index i) = Some x) ->
  read_upto h v (length xs) = Some xs.
Proof.
  intros H. apply mapM_Some_2, Forall2_same_length_lookup_2.
  - now rewrite length_seq.
  - intros i j x Hj Hx. apply lookup_seq in Hj. destruct Hj as [-> _]. auto.
Qed.

Lemma read_array_inv (h : heap) v xs :
  read_array h v = Some xs ->
  length_in h v = Some (length xs) /\ read_upto h v (length xs) = Some xs.
Proof.
  unfold read_array. destruct (length_in h v) as [n|]; [|discriminate].
  intros H. pose proof (read_upto_length _ _ _ _ H) as ->. auto.
Qed.

Lemma read_array_intro (h : heap) v xs :
  length_in h v = Some (length xs) ->
  (forall i x, xs !! i = Some x -> get_in h v (Index i) = Some x) ->
  read_array h v = Some xs.
Proof.
  intros Hlen H. unfold read_array. rewrite Hlen. now apply read_upto_intro.
Qed.

Lemma read_array_of (h : heap) l xs :
  h !! l = Some (array_of xs) -> read_array h (VRef l) = Some xs.
Proof.
  intros Ho. apply read_array_intro.
  - eapply length_in_array, Ho.
  - intros i x Hx. rewrite (get_in_array _ _ _ _ Ho), Hx. reflexivity.
Qed.

(** ** Running computations *)

Lemma bind_ret {A B} (a : A) (f : A -> M B) h : bind (ret a) f h = f a h.
Proof. reflexivity. Qed.

Lemma bind_read {A B} (g : heap -> option A) (f : A -> M B) h :
  bind (read g) f h = match g h with Some a => f a h | None => (h, None) end.
Proof. reflexivity. Qed.

Lemma bind_get {B} v k (f : value -> M B) h :
  bind (get v k) f h
  = match get_in h v k with Some a => f a h | None => (h, None) end.
Proof. reflexivity. Qed.

Lemma bind_length_of {B} v (f : nat -> M B) h :
  bind (length_of v) f h
  = match length_in h v with Some a => f a h | None => (h, None) end.
Proof. reflexivity. Qed.

Lemma bind_lift {A B} (x : option A) (f : A -> M B) h :
  bind (lift x) f h = match x with Some a => f a h | None => (h, None) end.
Proof. reflexivity. Qed.

Lemma bind_alloc {B} o (f : value -> M B) h :
  bind (alloc o) f h = f (VRef (length h)) (h ++ [o]).
Proof. reflexivity. Qed.

Lemma bind_assoc {A B C} (m : M A) (f : A -> M B) (g : B -> M C) h :
  bind (bind m f) g h = bind m (fun a => bind (f a) g) h.
Proof. unfold bind. destruct (m h) as [h1 [a|]]; reflexivity. Qed.

Lemma bind_set {B} l o k x (f : () -> M B) (h : heap) :
  h !! l = Some o -> elems o = None ->
  bind (set (VRef l) k x) f h
  = f () (<[l := {| proto := proto o; elems := None;
                   props := <[k := x]> (props o) |}]> h).
Proof.
  intros Ho He. unfold bind, set. rewrite Ho, He. now destruct k.
Qed.

Lemma bind_push {B} l xs x (f : () -> M B) (h : heap) :
  h !! l = Some (array_of xs) ->
  bind (push (VRef l) x) f h = f () (<[l := array_of (xs ++ [x])]> h).
Proof. intros Ho. unfold bind, push. now rewrite Ho. Qed.

(** A loop whose bound stays [n] and whose turns take the heap through
    [shape 0], [shape 1], ... ends with the heap [shape n]. *)
Lemma for_loop_run (bound : M nat) (body : nat -> M ()) (shape : nat -> heap) n :
  (forall i, (i <= n)%nat -> bound (shape i) = (shape i, Some n)) ->
  (forall i, (i < n)%nat -> body i (shape i) = (shape (S i), Some ())) ->
  forall fuel i, (i <= n)%nat -> (n - i < fuel)%nat ->
  for_loop fuel bound body i (shape i) = (shape n, Some ()).
Proof.
  intros Hbound Hbody. induction fuel as [|fuel IH]; intros i Hi Hfuel; [lia|].
  simpl. unfold bind at 1. rewrite (Hbound i Hi).
  destruct (i <? n)%nat eqn:Hlt.
  - apply Nat.ltb_lt in Hlt. unfold bind at 1. rewrite (Hbody i Hlt).
    apply IH; lia.
  - apply Nat.ltb_ge in Hlt. replace i with n by lia. reflexivity.
Qed.

Lemma bind_for {B} (bound : M nat) (body : nat -> M ()) (shape : nat -> heap) n
    (f : () -> M B) h :
  h = shape 0%nat ->
  (forall i, (i <= n)%nat -> bound (shape i) = (shape i, Some n)) ->
  (forall i, (i < n)%nat -> body i (shape i) = (shape (S i), Some ())) ->
  bind (for_ bound body) f h = f () (shape n).
Proof.
  intros -> Hbound Hbody. unfold for_. rewrite bind_assoc.
  unfold bind at 1. rewrite (Hbound 0%nat) by lia.
  unfold bind at 1. rewrite (for_loop_run bound body shape n Hbound Hbody) by lia.
  reflexivity.
Qed.

(** ** The heap while [transformDomain] runs *)

Section StageFacts.

Variable h : heap.

Lemma stage_length A nv O cs :
  length (stage h A nv O cs) = (length h + 3 + length cs)%nat.
Proof. unfold stage. rewrite length_app. simpl. rewrite length_fmap. lia. Qed.

Lemma stage_start :
  ((h ++ [array_of []]) ++ [array_of []]) ++ [array_of []] = stage h [] [] [] [].
Proof. unfold stage. now rewrite <- !app_assoc. Qed.

Lemma stage_snoc A nv O cs c :
  stage h A nv O cs ++ [array_of c] = stage h A nv O (cs ++ [c]).
Proof. unfold stage. rewrite fmap_app, <- app_assoc. reflexivity. Qed.

Lemma stage_lookup_A A nv O cs :
  stage h A nv O cs !! length h = Some (array_of A).
Proof. unfold stage. now rewrite list_lookup_middle. Qed.

Lemma stage_lookup_nv A nv O cs :
  stage h A nv O cs !! (length h + 1)%nat = Some (array_of nv).
Proof.
  unfold stage. rewrite lookup_app_r by lia.
  now replace (length h + 1 - length h)%nat with 1%nat by lia.
Qed.

Lemma stage_lookup_O A nv O cs :
  stage h A nv O cs !! (length h + 2)%nat = Some (array_of O).
Proof.
  unfold stage. rewrite lookup_app_r by lia.
  now replace (length h + 2 - length h)%nat with 2%nat by lia.
Qed.

Lemma stage_lookup_col A nv O cs k c :
  cs !! k = Some c ->
  stage h A nv O cs !! (length h + 3 + k)%nat = Some (array_of c).
Proof.
  intros Hc. unfold stage. rewrite lookup_app_r by lia.
  replace (length h + 3 + k - length h)%nat with (S (S (S k))) by lia.
  simpl. now rewrite list_lookup_fmap, Hc.
Qed.

Lemma stage_insert_A A A' nv O cs :
  <[length h := array_of A']> (stage h A nv O cs) = stage h A' nv O cs.
Proof.
  unfold stage. rewrite insert_app_r_alt by lia.
  now rewrite Nat.sub_diag.
Qed.

Lemma stage_insert_nv A nv nv' O cs :
  <[(length h + 1)%nat := array_of nv']> (stage h A nv O cs) = stage h A nv' O cs.
Proof.
  unfold stage. rewrite insert_app_r_alt by lia.
  now replace (length h + 1 - length h)%nat with 1%nat by lia.
Qed.

Lemma stage_insert_O A nv O O' cs :
  <[(length h + 2)%nat := array_of O']> (stage h A nv O cs) = stage h A nv O' cs.
Proof.
  unfold stage. rewrite insert_app_r_alt by lia.
  now replace (length h + 2 - length h)%nat with 2%nat by lia.
Qed.

Lemma stage_insert_col A nv O cs k c :
  <[(length h + 3 + k)%nat := array_of c]> (stage h A nv O cs)
  = stage h A nv O (<[k := c]> cs).
Proof.
  unfold stage. rewrite insert_app_r_alt by lia.
  replace (length h + 3 + k - length h)%nat with (S (S (S k))) by lia.
  simpl. now rewrite list_fmap_insert.
Qed.

Lemma get_in_stage A nv O cs v k x :
  get_in h v k = Some x -> get_in (stage h A nv O cs) v k = Some x.
Proof. apply get_in_app. Qed.

Lemma length_in_stage A nv O cs v n :
  length_in h v = Some n -> length_in (stage h A nv O cs) v = Some n.
Proof. apply length_in_app. Qed.

Lemma column_arrays_S (j : nat) :
  column_arrays h (S j) = column_arrays h j ++ [VRef (length h + 3 + j)].
Proof. unfold column_arrays. now rewrite seq_S, fmap_app. Qed.

Lemma column_arrays_lookup (m k : nat) :
  (k < m)%nat -> column_arrays h m !! k = Some (VRef (length h + 3 + k)).
Proof.
  intros Hk. unfold column_arrays.
  now rewrite list_lookup_fmap, lookup_seq_lt.
Qed.

End StageFacts.

(** ** Restricting a sequence to a mask *)

Lemma restrict_app {A} (mask1 mask2 : list bool) (xs1 xs2 : list A) :
  length mask1 = length xs1 ->
  restrict (mask1 ++ mask2) (xs1 ++ xs2)
  = restrict mask1 xs1 ++ restrict mask2 xs2.
Proof.
  revert xs1. induction mask1 as [|b mask1 IH]; intros [|x xs1] Hlen;
    simpl in *; try discriminate; [reflexivity|].
  rewrite IH by congruence. now destruct b.
Qed.

Lemma restrict_nil_r {A} (mask : list bool) : restrict mask (@nil A) = [].
Proof. now destruct mask. Qed.

Lemma restrict_take {A} (mask : list bool) (xs : list A) (t : nat) :
  restrict (take t mask) xs = restrict (take t mask) (take t xs).
Proof.
  revert mask xs. induction t as [|t IH]; intros [|b mask] [|x xs]; simpl;
    try reflexivity.
  rewrite IH. reflexivity.
Qed.

Lemma restrict_take_S {A} (mask : list bool) (xs : list A) (t : nat) (b : bool) x :
  mask !! t = Some b -> xs !! t = Some x ->
  restrict (take (S t) mask) xs
  = restrict (take t mask) xs ++ (if b then [x] else []).
Proof.
  revert mask xs. induction t as [|t IH]; intros [|b' mask] [|x' xs] Hb Hx;
    simpl in *; try discriminate.
  - injection Hb as ->. injection Hx as ->. now destruct b.
  - rewrite (IH mask xs Hb Hx). now destruct b'.
Qed.

Lemma restrict_take_all {A} (mask : list bool) (xs : list A) :
  restrict (take (length mask) mask) xs = restrict mask xs.
Proof. now rewrite firstn_all. Qed.

Lemma restrict_length {A B} (mask : list bool) (xs : list A) (ys : list B) :
  length xs = length ys -> length (restrict mask xs) = length (restrict mask ys).
Proof.
  revert xs ys. induction mask as [|b mask IH]; intros [|x xs] [|y ys] Hlen;
    simpl in *; try discriminate; try reflexivity.
  destruct b; simpl; rewrite (IH xs ys) by congruence; reflexivity.
Qed.

Lemma restrict_filter {A} (f : A -> bool) (xs : list A) :
  restrict (f <$> xs) xs = List.filter f xs.
Proof.
  induction xs as [|x xs IH]; simpl; [reflexivity|].
  destruct (f x); [f_equal|]; exact IH.
Qed.

Lemma restrict_sublist {A} (mask : list bool) (xs : list A) :
  restrict mask xs `sublist_of` xs.
Proof.
  revert xs. induction mask as [|b mask IH]; intros [|x xs]; simpl;
    try apply sublist_nil_l.
  destruct b; [apply sublist_skip|apply sublist_cons]; apply IH.
Qed.

Lemma restrict_lookup {A} (mask : list bool) (xs : list A) (i : nat) x :
  restrict mask xs !! i = Some x ->
  exists j, xs !! j = Some x /\ mask !! j = Some true.
Proof.
  revert xs i. induction mask as [|b mask IH]; intros [|y xs] i; simpl;
    try discriminate.
  destruct b.
  - destruct i as [|i]; simpl.
    + intros [= ->]. now exists 0%nat.
    + intros Hi. destruct (IH _ _ Hi) as (j & ? & ?). now exists (S j).
  - intros Hi. destruct (IH _ _ Hi) as (j & ? & ?). now exists (S j).
Qed.

(** ** Heaps that extend the input heap *)

Lemma extends_refl (h : heap) : extends h h.
Proof. intros l o H. exact H. Qed.

Lemma extends_app (h h' ext : heap) : extends h h' -> extends h (h' ++ ext).
Proof. intros H l o Ho. apply lookup_app_l_Some, H, Ho. Qed.

Lemma extends_insert (h h' : heap) l o :
  extends h h' -> (length h <= l)%nat -> extends h (<[l := o]> h').
Proof.
  intros H Hl l' o' Ho. rewrite list_lookup_insert_ne; [now apply H|].
  apply lookup_lt_Some in Ho. lia.
Qed.

Lemma extends_length (h h' : heap) : extends h h' -> (length h <= length h')%nat.
Proof.
  intros H. destruct (decide (length h = 0)%nat) as [->|Hne]; [lia|].
  destruct (lookup_lt_is_Some_2 h (length h - 1)) as [o Ho]; [lia|].
  apply H, lookup_lt_Some in Ho. lia.
Qed.

Lemma extends_prefix (h h' : heap) : extends h h' <-> h `prefix_of` h'.
Proof.
  split.
  - intros H. exists (drop (length h) h').
    rewrite <- (take_drop (length h) h') at 1. f_equal.
    apply list_eq. intros i. destruct (decide (i < length h)%nat) as [Hi|Hi].
    + rewrite lookup_take_lt by exact Hi.
      destruct (lookup_lt_is_Some_2 h i Hi) as [o Ho]. now rewrite Ho, (H _ _ Ho).
    + rewrite lookup_take_ge by lia. symmetry. apply lookup_ge_None. lia.
  - intros [ext ->]. apply extends_app, extends_refl.
Qed.

Lemma extends_stage (h : heap) A nv O cs : extends h (stage h A nv O cs).
Proof. apply extends_app, extends_refl. Qed.

Lemma get_in_extends (h h' : heap) v k x :
  extends h h' -> get_in h v k = Some x -> get_in h' v k = Some x.
Proof.
  intros H. destruct v; simpl; try discriminate.
  apply lookup_chain_mono; [exact H|now apply extends_length].
Qed.

Lemma length_in_extends (h h' : heap) v n :
  extends h h' -> length_in h v = Some n -> length_in h' v = Some n.
Proof.
  intros H. destruct v; simpl; try discriminate.
  apply length_chain_mono; [exact H|now apply extends_length].
Qed.

(** What a derived object does not own it reads from the object it was
    derived from. *)
Lemma get_in_derived (h h' : heap) l v ps k x :
  extends h h' -> h' !! l = Some (derived v ps) -> (length h <= l)%nat ->
  ps !! k = None ->
  get_in h v k = Some x ->
  get_in h' (VRef l) k = Some x.
Proof.
  intros H Ho Hl Hk Hv. simpl.
  destruct (length h') as [|fuel] eqn:Hlen.
  - apply lookup_lt_Some in Ho. lia.
  - simpl. rewrite Ho. unfold own. simpl. rewrite Hk.
    replace (match k with Name _ | _ => None end) with (@None value)
      by (now destruct k).
    destruct v; simpl in Hv; try discriminate. simpl.
    eapply lookup_chain_mono; [exact H| |exact Hv].
    apply lookup_lt_Some in Ho. lia.
Qed.

Lemma get_in_derived_own (h' : heap) l v ps k x :
  h' !! l = Some (derived v ps) -> ps !! k = Some x ->
  get_in h' (VRef l) k = Some x.
Proof.
  intros Ho Hk. eapply get_in_own; [exact Ho|].
  unfold own. simpl. now destruct k.
Qed.

Lemma length_in_derived (h h' : heap) l v ps n :
  extends h h' -> h' !! l = Some (derived v ps) -> (length h <= l)%nat ->
  length_in h v = Some n ->
  length_in h' (VRef l) = Some n.
Proof.
  intros H Ho Hl Hv. simpl.
  destruct (length h') as [|fuel] eqn:Hlen.
  - apply lookup_lt_Some in Ho. lia.
  - simpl. rewrite Ho. simpl.
    destruct v; simpl in Hv; try discriminate. simpl.
    eapply length_chain_mono; [exact H| |exact Hv].
    apply lookup_lt_Some in Ho. lia.
Qed.

Lemma push_run l xs x (h : heap) :
  h !! l = Some (array_of xs) ->
  push (VRef l) x h = (<[l := array_of (xs ++ [x])]> h, Some ()).
Proof. intros Ho. unfold push. now rewrite Ho. Qed.

Lemma set_run l v ps k x (h : heap) :
  h !! l = Some (derived v ps) ->
  set (VRef l) k x h = (<[l := derived v (<[k := x]> ps)]> h, Some ()).
Proof. intros Ho. unfold set. rewrite Ho. simpl. now destruct k. Qed.

Lemma lookup_at (S tail : heap) n i :
  length S = n -> (S ++ tail) !! (n + i)%nat = tail !! i.
Proof. intros <-. rewrite lookup_app_r by lia. f_equal. lia. Qed.

Lemma insert_at (S tail : heap) n i o :
  length S = n -> <[(n + i)%nat := o]> (S ++ tail) = S ++ <[i := o]> tail.
Proof. intros <-. rewrite insert_app_r_alt by lia. do 2 f_equal. lia. Qed.

Lemma get_in_array_lookup (h : heap) l xs (i : nat) x :
  h !! l = Some (array_of xs) -> xs !! i = Some x ->
  get_in h (VRef l) (Index i) = Some x.
Proof. intros Ho Hx. now rewrite (get_in_array _ _ _ _ Ho), Hx. Qed.

Lemma for_run (bound : M nat) (body : nat -> M ()) (shape : nat -> heap) n h :
  h = shape 0%nat ->
  (forall i, (i <= n)%nat -> bound (shape i) = (shape i, Some n)) ->
  (forall i, (i < n)%nat -> body i (shape i) = (shape (S i), Some ())) ->
  for_ bound body h = (shape n, Some ()).
Proof.
  intros -> Hbound Hbody. unfold for_.
  unfold bind at 1. rewrite (Hbound 0%nat) by lia.
  apply for_loop_run; [exact Hbound|exact Hbody|lia|lia].
Qed.

(** ** The heap after filtering *)

Section MeasureFacts.

Variable h : heap.
Variable d : DataView.

Lemma measures_length (t : nat) :
  (t <= length d.(columns))%nat -> length (measures h d t) = t.
Proof.
  intros Ht. unfold measures. rewrite length_imap, length_take. lia.
Qed.

Lemma measures_S (t : nat) column :
  d.(columns) !! t = Some column ->
  measures h d (S t)
  = measures h d t
    ++ [derived column (<[Name "values" := VRef (length h + 3 + t)]> ∅)].
Proof.
  intros Hc. pose proof (lookup_lt_Some _ _ _ Hc) as Ht.
  unfold measures. rewrite (take_S_r _ _ _ Hc), imap_app. simpl.
  rewrite length_take, Nat.min_l, Nat.add_0_r by lia. reflexivity.
Qed.

Lemma measure_props_lookup (t i : nat) :
  measure_props h d t !! Index i
  = if decide (i < t)%nat then Some (VRef (result_loc h d + 4 + i)) else None.
Proof.
  induction t as [|t IH]; simpl.
  - rewrite lookup_empty. now destruct (decide (i < 0)%nat); [lia|].
  - destruct (decide (i = t)) as [->|Hne].
    + rewrite lookup_insert_eq. destruct (decide (t < S t)%nat); [reflexivity|lia].
    + rewrite lookup_insert_ne by congruence. rewrite IH.
      destruct (decide (i < t)%nat), (decide (i < S t)%nat); try reflexivity; lia.
Qed.

Lemma measure_props_name (t : nat) s : measure_props h d t !! Name s = None.
Proof.
  induction t as [|t IH]; simpl; [apply lookup_empty|].
  now rewrite lookup_insert_ne.
Qed.

End MeasureFacts.

Section ResultFacts.

Variable h : heap.
Variable dataView : value.
Variable d : DataView.
Variables A O : list value.
Variable cs : list (list value).
Hypothesis Hcs : length cs = length d.(columns).

Lemma stage_result_loc nv :
  length (stage h A nv O cs) = result_loc h d.
Proof. rewrite stage_length, Hcs. reflexivity. Qed.

Lemma result_heap_length (t : nat) :
  (t <= length d.(columns))%nat ->
  length (result_heap h dataView d A O cs t) = (result_loc h d + 4 + t)%nat.
Proof.
  intros Ht. unfold result_heap.
  rewrite !length_app, stage_result_loc, measures_length by exact Ht.
  simpl. lia.
Qed.

Lemma result_heap_extends (t : nat) :
  extends h (result_heap h dataView d A O cs t).
Proof. unfold result_heap. apply extends_app, extends_stage. Qed.

Lemma result_heap_stage (t : nat) l o :
  stage h A (column_arrays h (length d.(columns))) O cs !! l = Some o ->
  result_heap h dataView d A O cs t !! l = Some o.
Proof.
  intros H. unfold result_heap. now apply lookup_app_l_Some.
Qed.

Lemma result_heap_fixed (t i : nat) o :
  [ derived dataView
      (<[Name "categories" := VRef (result_loc h d + 2)]>
         (<[Name "values" := VRef (result_loc h d + 1)]> ∅));
    derived d.(values) (measure_props h d t);
    derived d.(categories) (<[Index 0 := VRef (result_loc h d + 3)]> ∅);
    derived d.(category)
      (<[Name "objects" := VRef (length h + 2)]>
         (<[Name "values" := VRef (length h)]> ∅)) ] !! i = Some o ->
  result_heap h dataView d A O cs t !! (result_loc h d + i)%nat = Some o.
Proof.
  intros H. unfold result_heap.
  rewrite lookup_at by apply stage_result_loc. now apply lookup_app_l_Some.
Qed.

Lemma result_heap_measure (t i : nat) column :
  (i < t)%nat -> d.(columns) !! i = Some column ->
  result_heap h dataView d A O cs t !! (result_loc h d + 4 + i)%nat
  = Some (derived column (<[Name "values" := VRef (length h + 3 + i)]> ∅)).
Proof.
  intros Hi Hc. unfold result_heap.
  rewrite <- Nat.add_assoc, lookup_at by apply stage_result_loc. simpl.
  unfold measures. rewrite list_lookup_imap, lookup_take_lt by exact Hi.
  now rewrite Hc.
Qed.

(** One turn of the last loop. *)
Lemma result_heap_step (t : nat) column :
  d.(columns) !! t = Some column ->
  <[(result_loc h d + 4 + t)%nat :=
      derived column (<[Name "values" := VRef (length h + 3 + t)]> ∅)]>
    (<[(result_loc h d + 1)%nat := derived d.(values) (measure_props h d (S t))]>
       (result_heap h dataView d A O cs t ++ [derived column ∅]))
  = result_heap h dataView d A O cs (S t).
Proof.
  intros Hc. pose proof (lookup_lt_Some _ _ _ Hc) as Ht.
  unfold result_heap. rewrite (measures_S _ _ _ _ Hc).
  rewrite <- !app_assoc.
  rewrite insert_at by apply stage_result_loc.
  rewrite <- !Nat.add_assoc, insert_at by apply stage_result_loc.
  f_equal. simpl. do 4 f_equal.
  rewrite insert_app_r_alt by (rewrite measures_length; lia).
  rewrite measures_length, Nat.sub_diag by lia. reflexivity.
Qed.

End ResultFacts.

(** ** The filtering path of [transformDomain] *)

Lemma update_column {A B} (f g : A -> B) (l : list A) (k : nat) c :
  l !! k = Some c ->
  <[k := g c]> ((g <$> take k l) ++ (f <$> drop k l))
  = (g <$> take (S k) l) ++ (f <$> drop (S k) l).
Proof.
  intros Hc. pose proof (lookup_lt_Some _ _ _ Hc) as Hk.
  rewrite insert_app_r_alt by (rewrite length_fmap, length_take; lia).
  rewrite length_fmap, length_take, Nat.min_l by lia.
  rewrite Nat.sub_diag, (drop_S _ _ _ Hc). simpl.
  rewrite (take_S_r _ _ _ Hc), fmap_app, <- app_assoc. reflexivity.
Qed.

Lemma restrict_nil_fmap {A} (l : list (list A)) :
  restrict [] <$> l = replicate (length l) [].
Proof. induction l as [|x l IH]; simpl; [reflexivity|]. now rewrite <- IH. Qed.

Lemma resolve_min_run {B} (h h' : heap) categoryValues min lo (f : value -> M B) :
  resolve_min h categoryValues min = Some lo ->
  extends h h' ->
  bind (if negb (is_number min) then get categoryValues (Index 0) else ret min)
       f h' = f lo h'.
Proof.
  intros H He. unfold resolve_min in H.
  destruct (negb (is_number min)).
  - now rewrite bind_get, (get_in_extends _ _ _ _ _ He H).
  - injection H as ->. reflexivity.
Qed.

Lemma resolve_max_run {B} (h h' : heap) categoryValues max hi (f : value -> M B) :
  resolve_max h categoryValues max = Some hi ->
  extends h h' ->
  bind (if negb (is_number max)
        then (n <- length_of categoryValues ;;
              if (n =? 0)%nat then ret VUndefined
              else get categoryValues (Index (n - 1)))
        else ret max)
       f h' = f hi h'.
Proof.
  intros H He. unfold resolve_max in H.
  destruct (negb (is_number max)).
  - destruct (length_in h categoryValues) as [n|] eqn:Hn; [|discriminate].
    rewrite bind_assoc, bind_length_of, (length_in_extends _ _ _ _ He Hn).
    destruct (n =? 0)%nat.
    + injection H as ->. reflexivity.
    + now rewrite bind_get, (get_in_extends _ _ _ _ _ He H).
  - injection H as ->. reflexivity.
Qed.

Section FilterPath.

Variable isOrdinal : heap -> value -> bool.
Variable StringToNumber : string -> number.
Variables (h : heap) (dataView min max : value) (d : DataView) (lo hi : value).
Hypothesis Hf : filtering isOrdinal StringToNumber h dataView min max d lo hi.

Lemma run_resolve_min {B} (f : value -> M B) (h' : heap) :
  extends h h' ->
  bind (if negb (is_number min) then get (categoryValues d) (Index 0) else ret min)
       f h' = f lo h'.
Proof.
  intros He. apply (resolve_min_run h); [apply (ft_min _ _ _ _ _ _ _ _ _ Hf)|exact He].
Qed.

Lemma run_resolve_max {B} (f : value -> M B) (h' : heap) :
  extends h h' ->
  bind (if negb (is_number max)
        then (n <- length_of (categoryValues d) ;;
              if (n =? 0)%nat then ret VUndefined
              else get (categoryValues d) (Index (n - 1)))
        else ret max)
       f h' = f hi h'.
Proof.
  intros He. apply (resolve_max_run h); [apply (ft_max _ _ _ _ _ _ _ _ _ Hf)|exact He].
Qed.

Lemma cols_length : length (cols d) = length (columns d).
Proof.
  pose proof (ld_cols _ _ _ (ft_loaded _ _ _ _ _ _ _ _ _ Hf)) as H.
  apply length_mapM in H. congruence.
Qed.

Lemma column_at (k : nat) column :
  columns d !! k = Some column ->
  exists a col,
    cols d !! k = Some col /\
    get_in h column (Name "values") = Some a /\
    read_upto h a (length (cvs d)) = Some col.
Proof.
  intros Hk. pose proof (ld_cols _ _ _ (ft_loaded _ _ _ _ _ _ _ _ _ Hf)) as H.
  apply mapM_Some_1 in H.
  destruct (Forall2_lookup_l _ _ _ _ _ H Hk) as (col & Hcol & Hread).
  unfold read_column in Hread.
  destruct (get_in h column (Name "values")) as [a|] eqn:Ha; [|discriminate].
  eauto.
Qed.

Lemma col_length (col : list value) :
  col ∈ cols d -> length col = length (cvs d).
Proof.
  intros Hin. apply list_elem_of_lookup in Hin. destruct Hin as [k Hk].
  pose proof (ld_cols _ _ _ (ft_loaded _ _ _ _ _ _ _ _ _ Hf)) as H.
  apply mapM_Some_1 in H.
  destruct (Forall2_lookup_r _ _ _ _ _ H Hk) as (column & _ & Hread).
  unfold read_column in Hread.
  destruct (get_in h column (Name "values")); [|discriminate].
  eapply read_upto_length, Hread.
Qed.

(** The heap after [t] turns of the filtering loop, and after [k] turns
    of the loop over the value columns inside its turn [t]. *)
Lemma loop_heap_skip (t : nat) :
  kept StringToNumber d lo hi !! t = Some false ->
  loop_heap StringToNumber h d lo hi (S t) = loop_heap StringToNumber h d lo hi t.
Proof.
  intros Hmask.
  pose proof (ft_loaded _ _ _ _ _ _ _ _ _ Hf) as Hl.
  assert (Ht : (t < length (cvs d))%nat).
  { apply lookup_lt_Some in Hmask. unfold kept in Hmask.
    now rewrite length_fmap in Hmask. }
  destruct (lookup_lt_is_Some_2 (cvs d) t Ht) as [x Hx].
  destruct (lookup_lt_is_Some_2 (objs d) t) as [o Ho];
    [now rewrite (read_upto_length _ _ _ _ (ld_objs _ _ _ Hl))|].
  unfold loop_heap.
  rewrite (restrict_take_S _ _ _ _ _ Hmask Hx), (restrict_take_S _ _ _ _ _ Hmask Ho).
  rewrite !app_nil_r. f_equal.
  apply Forall_fmap_ext, Forall_forall. intros col Hcol.
  destruct (lookup_lt_is_Some_2 col t) as [y Hy];
    [now rewrite (col_length _ Hcol)|].
  now rewrite (restrict_take_S _ _ _ _ _ Hmask Hy), app_nil_r.
Qed.

Lemma inner_body (t k : nat) x :
  cvs d !! t = Some x -> keeps StringToNumber lo hi x = true ->
  (k < length (columns d))%nat ->
  (target <- get (VRef (length h + 1)) (Index k) ;;
   x <- (v <- get dataView (Name "values") ;;
         column <- get v (Index k) ;;
         column_values <- get column (Name "values") ;;
         get column_values (Index t)) ;;
   push target x) (column_loop_heap StringToNumber h d lo hi t k)
  = (column_loop_heap StringToNumber h d lo hi t (S k), Some ()).
Proof.
  intros Hx Hkeep Hk.
  pose proof (ft_loaded _ _ _ _ _ _ _ _ _ Hf) as [_ Hvals _ Hcolumns _ _ _ _ _ _ _ _ _].
  destruct (read_array_inv _ _ _ Hcolumns) as [_ Hcolumns'].
  destruct (lookup_lt_is_Some_2 (columns d) k Hk) as [column Hcolumn].
  destruct (column_at k column Hcolumn) as (a & col & Hcol & Ha & Hread).
  assert (Hy : exists y, col !! t = Some y).
  { apply lookup_lt_is_Some_2. rewrite (read_upto_length _ _ _ _ Hread).
    eapply lookup_lt_Some, Hx. }
  destruct Hy as [y Hy].
  assert (Hmask : kept StringToNumber d lo hi !! t = Some true).
  { unfold kept. now rewrite list_lookup_fmap, Hx, <- Hkeep. }
  unfold column_loop_heap.
  rewrite bind_get, (get_in_array_lookup _ _ _ _ _ (stage_lookup_nv _ _ _ _ _)
                                           (column_arrays_lookup _ _ _ Hk)).
  rewrite !bind_assoc, bind_get, (get_in_stage _ _ _ _ _ _ _ _ Hvals).
  rewrite bind_assoc, bind_get,
    (get_in_stage _ _ _ _ _ _ _ _ (read_upto_lookup _ _ _ _ _ _ Hcolumns' Hcolumn)).
  rewrite bind_assoc, bind_get, (get_in_stage _ _ _ _ _ _ _ _ Ha).
  rewrite bind_get, (get_in_stage _ _ _ _ _ _ _ _ (read_upto_lookup _ _ _ _ _ _ Hread Hy)).
  rewrite (push_run _ (restrict (take t (kept StringToNumber d lo hi)) col)).
  2:{ apply stage_lookup_col.
      rewrite lookup_app_r by (rewrite length_fmap, length_take; lia).
      rewrite length_fmap, length_take, Nat.min_l
        by (apply lookup_lt_Some in Hcol; lia).
      rewrite Nat.sub_diag, (drop_S _ _ _ Hcol). reflexivity. }
  rewrite stage_insert_col.
  rewrite <- (restrict_take_S _ _ _ true y Hmask Hy).
  now rewrite (update_column _ _ _ _ _ Hcol).
Qed.

Lemma filter_body (t : nat) :
  (t < length (cvs d))%nat ->
  (above <- (x <- get (categoryValues d) (Index t) ;;
             lift (js_ge StringToNumber x lo)) ;;
   inside <- (if above
              then (x <- get (categoryValues d) (Index t) ;;
                    lift (js_le StringToNumber x hi))
              else ret false) ;;
   if inside then
     (x <- get (categoryValues d) (Index t) ;;
      push (VRef (length h)) x) ;;
     (o <- get (categoryObjects d) (Index t) ;;
      push (VRef (length h + 2)) o) ;;
     values <- get dataView (Name "values") ;;
     if ToBoolean values then
       for_ (v <- get dataView (Name "values") ;; length_of v) (fun k =>
         target <- get (VRef (length h + 1)) (Index k) ;;
         x <- (v <- get dataView (Name "values") ;;
               column <- get v (Index k) ;;
               column_values <- get column (Name "values") ;;
               get column_values (Index t)) ;;
         push target x)
     else ret ()
   else ret ()) (loop_heap StringToNumber h d lo hi t)
  = (loop_heap StringToNumber h d lo hi (S t), Some ()).
Proof.
  intros Ht.
  pose proof Hf as [[Hcats Hvals [nc Hnc] Hcolumns Hcolumn Hcat Htype Hcv Hco
                      Hobjects Hcvs Hobjs Hcols]
                   Hbound Hscalar Hmin Hmax Hvalid Hcmp].
  destruct (read_array_inv _ _ _ Hcolumns) as [Hm Hcolumns'].
  destruct (read_array_inv _ _ _ Hcvs) as [Hn Hcvs'].
  assert (Tvals : ToBoolean (values d) = true)
    by (destruct (values d); simpl in Hm; try discriminate; reflexivity).
  destruct (lookup_lt_is_Some_2 (cvs d) t Ht) as [x Hx].
  destruct (lookup_lt_is_Some_2 (objs d) t) as [o Ho];
    [now rewrite (read_upto_length _ _ _ _ Hobjs)|].
  pose proof (proj1 (Forall_lookup _ _) Hcmp t x Hx) as [[b1 Hb1] [b2 Hb2]].
  assert (Hmask : kept StringToNumber d lo hi !! t
                  = Some (keeps StringToNumber lo hi x)).
  { unfold kept. now rewrite list_lookup_fmap, Hx. }
  pose proof (get_in_stage h) as Hstage.
  unfold loop_heap at 1.
  rewrite bind_assoc, bind_get,
    (Hstage _ _ _ _ _ _ _ (read_upto_lookup _ _ _ _ _ _ Hcvs' Hx)).
  rewrite bind_lift, Hb1.
  assert (Hkeep : keeps StringToNumber lo hi x = b1 && b2)
    by (unfold keeps; rewrite Hb1, Hb2; now destruct b1, b2).
  rewrite Hkeep in Hmask.
  destruct b1; [|rewrite loop_heap_skip by exact Hmask; reflexivity].
  rewrite bind_assoc, bind_get,
    (Hstage _ _ _ _ _ _ _ (read_upto_lookup _ _ _ _ _ _ Hcvs' Hx)).
  rewrite bind_lift, Hb2.
  destruct b2; [|rewrite loop_heap_skip by exact Hmask; reflexivity].
  cbn [andb] in *.
  rewrite bind_assoc, bind_get,
    (Hstage _ _ _ _ _ _ _ (read_upto_lookup _ _ _ _ _ _ Hcvs' Hx)).
  rewrite (bind_push _ _ _ _ _ (stage_lookup_A _ _ _ _ _)), stage_insert_A.
  rewrite bind_assoc, bind_get,
    (Hstage _ _ _ _ _ _ _ (read_upto_lookup _ _ _ _ _ _ Hobjs Ho)).
  rewrite (bind_push _ _ _ _ _ (stage_lookup_O _ _ _ _ _)), stage_insert_O.
  rewrite bind_get, (Hstage _ _ _ _ _ _ _ Hvals), Tvals.
  rewrite <- (restrict_take_S _ _ _ true x Hmask Hx).
  rewrite <- (restrict_take_S _ _ _ true o Hmask Ho).
  rewrite (for_run _ _ (column_loop_heap StringToNumber h d lo hi t) (length (columns d))).
  - unfold column_loop_heap, loop_heap.
    rewrite (take_ge (cols d)), (drop_ge (cols d)) by (rewrite cols_length; lia).
    now rewrite app_nil_r.
  - reflexivity.
  - intros i _. unfold column_loop_heap.
    rewrite bind_get, (Hstage _ _ _ _ _ _ _ Hvals).
    unfold length_of, read. now rewrite (length_in_stage _ _ _ _ _ _ _ Hm).
  - intros k Hk. apply (inner_body t k x Hx Hkeep Hk).
Qed.

End FilterPath.

Lemma bind_inherit {B} v (f : value -> M B) (h : heap) :
  bind (inherit v) f h = f (VRef (length h)) (h ++ [derived v ∅]).
Proof. reflexivity. Qed.

Lemma bind_set_derived {B} l v ps k x (f : () -> M B) (h : heap) :
  h !! l = Some (derived v ps) ->
  bind (set (VRef l) k x) f h = f () (<[l := derived v (<[k := x]> ps)]> h).
Proof. intros Ho. unfold bind. now rewrite (set_run _ _ _ _ _ _ Ho). Qed.

Lemma lookup_at0 (S tail : heap) n :
  length S = n -> (S ++ tail) !! n = tail !! 0%nat.
Proof. intros <-. rewrite lookup_app_r by lia. now rewrite Nat.sub_diag. Qed.

Lemma insert_at0 (S tail : heap) n o :
  length S = n -> <[n := o]> (S ++ tail) = S ++ <[0%nat := o]> tail.
Proof. intros <-. rewrite insert_app_r_alt by lia. now rewrite Nat.sub_diag. Qed.

Section FilterRun.

Variable isOrdinal : heap -> value -> bool.
Variable StringToNumber : string -> number.
Variables (h : heap) (dataView min max : value) (d : DataView) (lo hi : value).
Hypothesis Hf : filtering isOrdinal StringToNumber h dataView min max d lo hi.

(** On the filtering path [transformDomain] returns the derived data view
    and leaves the heap [result_heap] describes. *)
Lemma transformDomain_filters :
  transformDomain isOrdinal StringToNumber dataView min max h
  = (result_heap h dataView d
       (restrict (kept StringToNumber d lo hi) (cvs d))
       (restrict (kept StringToNumber d lo hi) (objs d))
       (restrict (kept StringToNumber d lo hi) <$> cols d)
       (length (columns d)),
     Some (VRef (result_loc h d))).
Proof.
  pose proof Hf as [[Hcats Hvals [nc Hnc] Hcolumns Hcolumn Hcat Htype Hcv Hco
                      Hobjects Hcvs Hobjs Hcols]
                   Hbound Hscalar Hmin Hmax Hvalid Hcmp].
  destruct (read_array_inv _ _ _ Hcolumns) as [Hm Hcolumns'].
  destruct (read_array_inv _ _ _ Hcvs) as [Hn Hcvs'].
  assert (Tcats : ToBoolean (categories d) = true)
    by (destruct (categories d); simpl in Hnc; try discriminate; reflexivity).
  assert (Tvals : ToBoolean (values d) = true)
    by (destruct (values d); simpl in Hm; try discriminate; reflexivity).
  assert (Tcv : ToBoolean (categoryValues d) = true)
    by (destruct (categoryValues d); simpl in Hn; try discriminate; reflexivity).
  destruct (get_in h (category d) (Name "source")) as [source|] eqn:Hsource;
    [|discriminate].
  assert (Tcat : ToBoolean (category d) = true)
    by (destruct (category d); simpl in Hsource; try discriminate; reflexivity).
  assert (Hm0 : (length (columns d) =? 0)%nat = false)
    by (destruct (columns d); [congruence|reflexivity]).
  assert (Hb : negb (is_number min) && negb (is_number max) = false)
    by (destruct (is_number min), (is_number max); simpl in *; congruence).
  unfold transformDomain.
  rewrite bind_get, Hcats, Tcats. cbn [negb].
  rewrite bind_get, Hvals, Tvals. cbn [negb].
  rewrite bind_assoc, bind_get, Hcats, bind_length_of, Hnc. cbn [Nat.eqb].
  rewrite bind_assoc, bind_get, Hvals, bind_length_of, Hm, Hm0, Hb.
  rewrite bind_assoc, bind_get, Hcats, bind_get, Hcat, Tcat.
  rewrite bind_assoc, bind_get, Hsource, bind_get, Htype.
  rewrite bind_read, Hscalar.
  rewrite bind_get, Hcv, bind_get, Hco, Tcv, Hobjects. cbn [negb orb].
  unfold new_array. rewrite !bind_alloc.
  change {| proto := None; elems := Some []; props := ∅ |} with (array_of []).
  rewrite stage_start, !length_app. cbn [length].
  replace (length h + 1 + 1)%nat with (length h + 2)%nat by lia.
  rewrite (run_resolve_min _ _ _ _ _ _ _ _ _ Hf) by apply extends_stage.
  rewrite (run_resolve_max _ _ _ _ _ _ _ _ _ Hf) by apply extends_stage.
  rewrite bind_lift, Hvalid.
  rewrite (bind_for _ _
             (fun j => stage h [] (column_arrays h j) [] (replicate j []))
             (length (columns d))); [|reflexivity| |].
  2:{ intros i _. rewrite bind_get, (get_in_stage _ _ _ _ _ _ _ _ Hvals).
      unfold length_of, read. now rewrite (length_in_stage _ _ _ _ _ _ _ Hm). }
  2:{ intros i _. rewrite bind_alloc.
      change {| proto := None; elems := Some []; props := ∅ |} with (array_of []).
      rewrite stage_snoc, stage_length, length_replicate.
      rewrite (push_run _ (column_arrays h i)) by apply stage_lookup_nv.
      rewrite stage_insert_nv, <- column_arrays_S.
      now rewrite <- replicate_cons_app. }
  rewrite (bind_for _ _ (loop_heap StringToNumber h d lo hi) (length (cvs d))).
  2:{ unfold loop_heap. cbn [take restrict].
      now rewrite restrict_nil_fmap, (cols_length _ _ _ _ _ _ _ _ _ Hf). }
  2:{ intros i _. unfold length_of, read, loop_heap.
      now rewrite (length_in_stage _ _ _ _ _ _ _ Hn). }
  2:{ intros t Ht. apply (filter_body _ _ _ _ _ _ _ _ _ Hf t Ht). }
  assert (Hmask : length (kept StringToNumber d lo hi) = length (cvs d))
    by (unfold kept; apply length_fmap).
  unfold loop_heap. rewrite <- Hmask, firstn_all.
  set (A := restrict (kept StringToNumber d lo hi) (cvs d)).
  set (O := restrict (kept StringToNumber d lo hi) (objs d)).
  set (cs := restrict (kept StringToNumber d lo hi) <$> cols d).
  assert (Hcs : length cs = length (columns d))
    by (unfold cs; rewrite length_fmap; apply (cols_length _ _ _ _ _ _ _ _ _ Hf)).
  set (St := stage h A (column_arrays h (length (columns d))) O cs).
  assert (HS : length St = result_loc h d) by apply (stage_result_loc _ _ _ _ _ Hcs).
  assert (HSe : forall tail, extends h (St ++ tail))
    by (intros tail; apply extends_app, extends_stage).
  (* the derived data view *)
  rewrite bind_inherit, HS.
  rewrite bind_assoc, bind_get.
  erewrite (get_in_derived h);
    [|apply HSe|now rewrite lookup_at0 by exact HS|unfold result_loc; lia
     |apply lookup_empty|exact Hvals].
  rewrite bind_assoc, bind_inherit, length_app, HS. cbn [length].
  rewrite <- app_assoc. cbn [app].
  rewrite bind_assoc.
  erewrite bind_set_derived by (rewrite lookup_at0 by exact HS; reflexivity).
  rewrite insert_at0 by exact HS. cbn [insert list_insert].
  rewrite bind_ret.
  (* its categories *)
  rewrite bind_assoc, bind_get, (get_in_extends _ _ _ _ _ (HSe _) Hcats).
  rewrite bind_assoc, bind_inherit, length_app, HS. cbn [length].
  rewrite <- app_assoc. cbn [app].
  rewrite bind_assoc.
  erewrite bind_set_derived by (rewrite lookup_at0 by exact HS; reflexivity).
  rewrite insert_at0 by exact HS. cbn [insert list_insert].
  rewrite bind_ret.
  (* its first category *)
  rewrite bind_assoc, bind_get.
  erewrite get_in_derived_own;
    [|rewrite lookup_at0 by exact HS; reflexivity|apply lookup_insert_eq].
  rewrite bind_assoc, bind_get.
  erewrite (get_in_derived h);
    [|apply HSe|rewrite lookup_at by exact HS; reflexivity|unfold result_loc; lia
     |apply lookup_empty|exact Hcat].
  rewrite bind_assoc, bind_inherit, length_app, HS. cbn [length].
  rewrite <- app_assoc. cbn [app].
  rewrite bind_assoc.
  erewrite bind_set_derived by (rewrite lookup_at by exact HS; reflexivity).
  rewrite insert_at by exact HS. cbn [insert list_insert].
  rewrite bind_ret.
  erewrite bind_set_derived by (rewrite lookup_at by exact HS; reflexivity).
  rewrite insert_at by exact HS. cbn [insert list_insert].
  rewrite bind_get.
  erewrite (get_in_derived h);
    [|apply HSe|rewrite lookup_at by exact HS; reflexivity|unfold result_loc; lia
     |rewrite lookup_insert_ne by discriminate; apply lookup_empty|exact Hco].
  rewrite Hobjects.
  erewrite bind_set_derived by (rewrite lookup_at by exact HS; reflexivity).
  rewrite insert_at by exact HS. cbn [insert list_insert].
  (* the value columns *)
  rewrite (bind_for _ _ (result_heap h dataView d A O cs) (length (columns d))).
  - reflexivity.
  - unfold result_heap. fold St. cbn [measure_props measures take imap].
    now rewrite app_nil_r.
  - intros i Hi.
    rewrite bind_get, (get_in_extends _ _ _ _ _ (result_heap_extends _ _ _ _ _ _ _) Hvals).
    unfold length_of, read.
    now rewrite (length_in_extends _ _ _ _ (result_heap_extends _ _ _ _ _ _ _) Hm).
  - intros t Ht.
    destruct (lookup_lt_is_Some_2 (columns d) t Ht) as [column Hc].
    rewrite bind_assoc, bind_get.
    erewrite (get_in_derived h);
      [|apply result_heap_extends
       |apply (result_heap_fixed _ _ _ _ _ _ Hcs _ 1); reflexivity
       |unfold result_loc; lia
       |rewrite measure_props_lookup; destruct (decide (t < t)%nat); [lia|reflexivity]
       |exact (read_upto_lookup _ _ _ _ _ _ Hcolumns' Hc)].
    rewrite bind_assoc, bind_inherit, (result_heap_length _ _ _ _ _ _ Hcs) by lia.
    rewrite bind_assoc.
    erewrite bind_set_derived
      by (apply lookup_app_l_Some, (result_heap_fixed _ _ _ _ _ _ Hcs _ 1); reflexivity).
    rewrite bind_ret, bind_get.
    erewrite get_in_array_lookup;
      [|rewrite list_lookup_insert_ne by (unfold result_loc; lia);
        apply lookup_app_l_Some, result_heap_stage, stage_lookup_nv
       |apply column_arrays_lookup, Ht].
    erewrite set_run.
    2:{ rewrite list_lookup_insert_ne by lia.
        rewrite <- (result_heap_length h dataView d A O cs Hcs t) by lia.
        apply list_lookup_middle. reflexivity. }
    f_equal. apply (result_heap_step _ _ _ _ _ _ Hcs _ _ Hc).
Qed.
End FilterRun.

(** ** Reading the derived data view *)

Section ResultReads.

Variable h : heap.
Variable dataView : value.
Variable d : DataView.
Variables A O : list value.
Variable cs : list (list value).
Hypothesis Hcs : length cs = length d.(columns).
Hypothesis Hm : length_in h d.(values) = Some (length d.(columns)).

Lemma result_view o :
  [ derived dataView
      (<[Name "categories" := VRef (result_loc h d + 2)]>
         (<[Name "values" := VRef (result_loc h d + 1)]> ∅)) ] !! 0%nat = Some o ->
  result_heap h dataView d A O cs (length d.(columns)) !! result_loc h d = Some o.
Proof.
  intros H. rewrite <- (Nat.add_0_r (result_loc h d)).
  apply (result_heap_fixed _ _ _ _ _ _ Hcs). exact H.
Qed.

Lemma result_heap_shows :
  shows (result_heap h dataView d A O cs (length d.(columns)))
    (VRef (result_loc h d)) A O cs.
Proof.
  exists (VRef (result_loc h d + 2)), (VRef (result_loc h d + 3)),
    (VRef (length h)), (VRef (length h + 2)), (VRef (result_loc h d + 1)),
    (VRef <$> seq (result_loc h d + 4) (length d.(columns))).
  repeat split.
  - eapply get_in_derived_own; [apply result_view; reflexivity|].
    apply lookup_insert_eq.
  - eapply get_in_derived_own;
      [apply (result_heap_fixed _ _ _ _ _ _ Hcs _ 2); reflexivity|].
    apply lookup_insert_eq.
  - eapply get_in_derived_own;
      [apply (result_heap_fixed _ _ _ _ _ _ Hcs _ 3); reflexivity|].
    rewrite lookup_insert_ne by discriminate. apply lookup_insert_eq.
  - apply read_array_of, result_heap_stage, stage_lookup_A.
  - eapply get_in_derived_own;
      [apply (result_heap_fixed _ _ _ _ _ _ Hcs _ 3); reflexivity|].
    apply lookup_insert_eq.
  - apply read_array_of, result_heap_stage, stage_lookup_O.
  - eapply get_in_derived_own; [apply result_view; reflexivity|].
    rewrite lookup_insert_ne by discriminate. apply lookup_insert_eq.
  - apply read_array_intro.
    + rewrite length_fmap, length_seq.
      eapply length_in_derived;
        [apply result_heap_extends
        |apply (result_heap_fixed _ _ _ _ _ _ Hcs _ 1); reflexivity
        |unfold result_loc; lia|exact Hm].
    + intros i x Hx. rewrite list_lookup_fmap in Hx.
      destruct (seq _ _ !! i) as [j|] eqn:Hj; [|discriminate].
      apply lookup_seq in Hj. destruct Hj as [-> Hi]. injection Hx as <-.
      eapply get_in_derived_own;
        [apply (result_heap_fixed _ _ _ _ _ _ Hcs _ 1); reflexivity|].
      rewrite measure_props_lookup. now destruct (decide (i < _)%nat).
  - apply Forall2_same_length_lookup_2;
      [now rewrite length_fmap, length_seq, Hcs|].
    intros i column col Hcolumn Hcol. rewrite list_lookup_fmap in Hcolumn.
    destruct (seq _ _ !! i) as [j|] eqn:Hj; [|discriminate].
    apply lookup_seq in Hj. destruct Hj as [-> Hi]. injection Hcolumn as <-.
    destruct (lookup_lt_is_Some_2 (columns d) i Hi) as [c Hc].
    exists (VRef (length h + 3 + i)). split.
    + eapply get_in_derived_own;
        [apply (result_heap_measure _ _ _ _ _ _ Hcs _ _ _ Hi Hc)|].
      apply lookup_insert_eq.
    + apply read_array_of, result_heap_stage, stage_lookup_col, Hcol.
Qed.

End ResultReads.
(** ** No call changes an object of the input heap *)

Lemma set_extends (h0 h : heap) l k x :
  extends h0 h -> (length h0 <= l)%nat -> extends h0 (set (VRef l) k x h).1.
Proof.
  intros He Hl. unfold set. destruct (h !! l) as [o|]; [|exact He].
  destruct k, (elems o); simpl; try exact He; now apply extends_insert.
Qed.

Lemma push_extends (h0 h : heap) l x :
  extends h0 h -> (length h0 <= l)%nat -> extends h0 (push (VRef l) x h).1.
Proof.
  intros He Hl. unfold push. destruct (h !! l) as [o|]; [|exact He].
  destruct (elems o); simpl; try exact He; now apply extends_insert.
Qed.

Lemma set_get (h h1 : heap) l k x :
  set (VRef l) k x h = (h1, Some ()) -> get_in h1 (VRef l) k = Some x.
Proof.
  unfold set. destruct (h !! l) as [o|] eqn:Ho; [|discriminate].
  pose proof (lookup_lt_Some _ _ _ Ho) as Hlt.
  assert (Hgoal : forall ps,
    get_in (<[l := {| proto := proto o; elems := None; props := <[k := x]> ps |}]> h)
      (VRef l) k = Some x).
  { intros ps. eapply get_in_own; [now apply list_lookup_insert_eq|].
    unfold own. simpl. rewrite lookup_insert_eq. now destruct k. }
  destruct k as [s|i], (elems o) as [xs|] eqn:He; intros [= <-];
    rewrite ?He; auto.
  (* a name set on an array *)
  eapply get_in_own; [now apply list_lookup_insert_eq|].
  unfold own. simpl. apply lookup_insert_eq.
Qed.

Lemma collecting_extends (h0 h : heap) : collecting h0 h -> extends h0 h.
Proof. now intros [H _]. Qed.

Lemma collecting_length (h0 h : heap) :
  collecting h0 h -> (length h0 + 1 < length h)%nat.
Proof. intros (_ & nv & Hnv & _). now apply lookup_lt_Some in Hnv. Qed.

Lemma collecting_app (h0 h : heap) o : collecting h0 h -> collecting h0 (h ++ [o]).
Proof.
  intros (He & nv & Hnv & Hall). split; [now apply extends_app|].
  exists nv. split; [now apply lookup_app_l_Some|exact Hall].
Qed.

Lemma push_collecting (h0 h : heap) l x :
  collecting h0 h -> (length h0 <= l)%nat -> l <> (length h0 + 1)%nat ->
  collecting h0 (push (VRef l) x h).1.
Proof.
  intros Hc Hl Hne. split; [apply push_extends; [apply Hc|exact Hl]|].
  destruct Hc as (_ & nv & Hnv & Hall). exists nv. split; [|exact Hall].
  unfold push. destruct (h !! l) as [o|]; [|exact Hnv].
  destruct (elems o); simpl; [|exact Hnv].
  now rewrite list_lookup_insert_ne.
Qed.

Lemma push_collecting_nv (h0 h : heap) l :
  collecting h0 h -> (length h0 + 1 < l)%nat ->
  collecting h0 (push (VRef (length h0 + 1)) (VRef l) h).1.
Proof.
  intros Hc Hl. split; [apply push_extends; [apply Hc|lia]|].
  destruct Hc as (_ & nv & Hnv & Hall). unfold push. rewrite Hnv. simpl.
  exists (nv ++ [VRef l]). split.
  - apply list_lookup_insert_eq. now apply lookup_lt_Some in Hnv.
  - apply Forall_app. split; [exact Hall|]. repeat constructor. eauto.
Qed.

Lemma push_collecting_target (h0 h : heap) (k : nat) target x :
  collecting h0 h ->
  get_in h (VRef (length h0 + 1)) (Index k) = Some target ->
  collecting h0 (push target x h).1.
Proof.
  intros Hc Hget. pose proof Hc as (_ & nv & Hnv & Hall).
  rewrite (get_in_array _ _ _ _ Hnv) in Hget. injection Hget as <-.
  destruct (nv !! k) as [y|] eqn:Hy; simpl; [|exact Hc].
  destruct (proj1 (Forall_lookup _ _) Hall _ _ Hy) as (l & -> & Hl).
  apply push_collecting; [exact Hc|lia|lia].
Qed.

(** A loop keeps what its bound and its turns keep, however it ends. *)
Lemma for_loop_inv (I : heap -> Prop) (bound : M nat) (body : nat -> M ()) :
  (forall h, I h -> I (bound h).1) ->
  (forall i h, I h -> I (body i h).1) ->
  forall fuel i h, I h -> I (for_loop fuel bound body i h).1.
Proof.
  intros Hbound Hbody. induction fuel as [|fuel IH]; intros i h Hh; [exact Hh|].
  simpl. unfold bind at 1. pose proof (Hbound h Hh) as Hb.
  destruct (bound h) as [h1 [n|]]; [|exact Hb]. simpl in Hb.
  destruct (i <? n)%nat; [|exact Hb].
  unfold bind. pose proof (Hbody i h1 Hb) as Hi.
  destruct (body i h1) as [h2 [[]|]]; [|exact Hi]. now apply IH.
Qed.

Lemma for_inv (I : heap -> Prop) (bound : M nat) (body : nat -> M ()) h :
  (forall h, I h -> I (bound h).1) ->
  (forall i h, I h -> I (body i h).1) ->
  I h -> I (for_ bound body h).1.
Proof.
  intros Hbound Hbody Hh. unfold for_, bind. pose proof (Hbound h Hh) as Hb.
  destruct (bound h) as [h1 [n|]]; [|exact Hb]. now apply for_loop_inv.
Qed.

(** Binding: what holds of the heap after [m], however it ends, and is
    kept by what follows, holds at the end. *)
Lemma bind_inv {A B} (I : heap -> Prop) (m : M A) (f : A -> M B) h :
  I (m h).1 ->
  (forall a, (m h).2 = Some a -> I (f a (m h).1).1) ->
  I (bind m f h).1.
Proof.
  intros Hm Hf. unfold bind. destruct (m h) as [h1 [a|]]; [|exact Hm].
  now apply Hf.
Qed.

Lemma values_length_reads (I : heap -> Prop) dataView h :
  I h -> I ((v <- get dataView (Name "values") ;; length_of v) h).1.
Proof.
  intros Hh. rewrite bind_get. now destruct (get_in h dataView (Name "values")).
Qed.

Lemma bind_unfold {A B} (m : M A) (f : A -> M B) h :
  bind m f h
  = match m h with (h', Some a) => f a h' | (h', None) => (h', None) end.
Proof. reflexivity. Qed.

Lemma reads_ret {A} (a : A) : reads (ret a).
Proof. intros h. reflexivity. Qed.

Lemma reads_read {A} (g : heap -> option A) : reads (read g).
Proof. intros h. reflexivity. Qed.

Lemma reads_get v k : reads (get v k).
Proof. intros h. reflexivity. Qed.

Lemma reads_length_of v : reads (length_of v).
Proof. intros h. reflexivity. Qed.

Lemma reads_lift {A} (x : option A) : reads (lift x).
Proof. intros h. reflexivity. Qed.

Lemma reads_bind {A B} (m : M A) (f : A -> M B) :
  reads m -> (forall a, reads (f a)) -> reads (bind m f).
Proof.
  intros Hm Hf h. unfold bind. specialize (Hm h).
  destruct (m h) as [h1 [a|]]; simpl in *; subst; [apply Hf|reflexivity].
Qed.

Lemma reads_if {A} (c : bool) (m1 m2 : M A) :
  reads m1 -> reads m2 -> reads (if c then m1 else m2).
Proof. now destruct c. Qed.

Ltac solve_reads :=
  repeat first
    [ apply reads_ret | apply reads_get | apply reads_length_of
    | apply reads_lift | apply reads_read
    | apply reads_if
    | apply reads_bind; [|intros ?] ].

(** Binding a computation that only reads. *)
Lemma bind_reads_inv {A B} (I : heap -> Prop) (m : M A) (f : A -> M B) h :
  reads m -> I h -> (forall a, I (f a h).1) -> I (bind m f h).1.
Proof.
  intros Hm Hh Hf. unfold bind. specialize (Hm h).
  destruct (m h) as [h1 [a|]]; simpl in *; subst; [apply Hf|exact Hh].
Qed.

(** Binding a computation that establishes [J], whatever its result. *)
Lemma bind_inv2 {A B} (I J : heap -> Prop) (m : M A) (f : A -> M B) h :
  J (m h).1 -> (forall h1, J h1 -> I h1) ->
  (forall a h1, J h1 -> I (f a h1).1) ->
  I (bind m f h).1.
Proof.
  intros Hm HJ Hf. unfold bind. destruct (m h) as [h1 [a|]]; simpl in *; auto.
Qed.
Section Frame.

Variable isOrdinal : heap -> value -> bool.
Variable StringToNumber : string -> number.

Ltac len :=
  repeat match goal with
    | H : extends ?a ?b |- _ =>
        lazymatch goal with
        | _ : (length a <= length b)%nat |- _ => fail
        | _ => pose proof (extends_length a b H)
        end
    end;
  rewrite ?length_app; cbn [length]; lia.

Ltac ext :=
  cbn [fst];
  repeat first
    [ assumption | apply extends_refl | apply extends_app
    | apply set_extends; [|len] | apply push_extends; [|len] ].

Lemma filter_turn_collecting (h0 : heap) dataView categoryValues categoryObjects
    lo hi (t : nat) h :
  collecting h0 h ->
  collecting h0
    ((above <- (x <- get categoryValues (Index t) ;;
                lift (js_ge StringToNumber x lo)) ;;
      inside <- (if above
                 then (x <- get categoryValues (Index t) ;;
                       lift (js_le StringToNumber x hi))
                 else ret false) ;;
      if inside then
        (x <- get categoryValues (Index t) ;;
         push (VRef (length h0)) x) ;;
        (if ToBoolean categoryObjects
         then (o <- get categoryObjects (Index t) ;;
               push (VRef (length h0 + 2)) o)
         else ret ()) ;;
        values <- get dataView (Name "values") ;;
        if ToBoolean values then
          for_ (v <- get dataView (Name "values") ;; length_of v) (fun k =>
            target <- get (VRef (length h0 + 1)) (Index k) ;;
            x <- (v <- get dataView (Name "values") ;;
                  column <- get v (Index k) ;;
                  column_values <- get column (Name "values") ;;
                  get column_values (Index t)) ;;
            push target x)
        else ret ()
      else ret ()) h).1.
Proof.
  intros Hc.
  apply bind_reads_inv; [solve_reads|exact Hc|intros above].
  apply bind_reads_inv; [solve_reads|exact Hc|intros inside].
  destruct inside; [|exact Hc].
  rewrite bind_assoc.
  apply bind_reads_inv; [solve_reads|exact Hc|intros x].
  apply (bind_inv2 _ (collecting h0));
    [apply push_collecting; [exact Hc|lia|lia]|trivial|].
  clear h Hc. intros _ h Hc.
  apply (bind_inv2 _ (collecting h0)); [|trivial|].
  { destruct (ToBoolean categoryObjects); [|exact Hc].
    apply bind_reads_inv; [solve_reads|exact Hc|intros o].
    apply push_collecting; [exact Hc|lia|lia]. }
  clear h Hc. intros _ h Hc.
  apply bind_reads_inv; [solve_reads|exact Hc|intros values].
  destruct (ToBoolean values); [|exact Hc].
  apply for_inv; [intros hx; apply values_length_reads| |exact Hc].
  clear h Hc. intros k h Hc.
  rewrite bind_get.
  destruct (get_in h (VRef (length h0 + 1)) (Index k)) as [target|] eqn:Ht;
    [|exact Hc].
  apply bind_reads_inv; [solve_reads|exact Hc|intros y].
  now apply (push_collecting_target _ _ k).
Qed.

Ltac read_step :=
  lazymatch goal with
  | |- context [bind (bind _ _) _ _] => rewrite bind_assoc
  | |- context [bind (ret _) _ _] => rewrite bind_ret
  | |- context [bind (get ?v ?k) _ ?h] =>
      rewrite (bind_get v k); destruct (get_in h v k) eqn:?; [|ext]
  | |- context [bind (length_of ?v) _ ?h] =>
      rewrite (bind_length_of v); destruct (length_in h v) eqn:?; [|ext]
  | |- context [bind (lift ?x) _ ?h] =>
      rewrite (bind_lift x); destruct x eqn:?; [|ext]
  end.

Lemma transformDomain_extends dataView min max (h : heap) :
  extends h (transformDomain isOrdinal StringToNumber dataView min max h).1.
Proof.
  unfold transformDomain.
  read_step. destruct (negb (ToBoolean v)); [ext|].
  read_step. destruct (negb (ToBoolean v0)); [ext|].
  do 3 read_step. destruct (n =? 0)%nat; [ext|].
  do 3 read_step. destruct (n0 =? 0)%nat; [ext|].
  destruct (negb (is_number min) && negb (is_number max)); [ext|].
  do 3 read_step.
  apply bind_reads_inv; [solve_reads|ext|intros categoryType].
  rewrite bind_read. destruct (isOrdinal h categoryType); [ext|].
  do 2 read_step.
  destruct (negb (ToBoolean v5) || negb (ToBoolean v6)); [ext|].
  unfold new_array. rewrite !bind_alloc.
  change {| proto := None; elems := Some []; props := ∅ |} with (array_of []).
  rewrite stage_start, !length_app. cbn [length].
  replace (length h + 1 + 1)%nat with (length h + 2)%nat by lia.
  assert (Hc : collecting h (stage h [] [] [] [])).
  { split; [apply extends_stage|]. exists []. split; [apply stage_lookup_nv|constructor]. }
  generalize dependent (stage h [] [] [] []). intros h1 Hc.
  pose proof (collecting_extends _ _ Hc) as He.
  apply bind_reads_inv; [solve_reads|ext|intros lo].
  apply bind_reads_inv; [solve_reads|ext|intros hi].
  read_step. destruct b; [ext|].
  (* the arrays of the value columns *)
  apply (bind_inv2 _ (collecting h)); [|apply collecting_extends|].
  { apply for_inv; [intros hx; apply values_length_reads| |exact Hc].
    intros _ hx Hx. rewrite bind_alloc.
    apply push_collecting_nv; [now apply collecting_app|].
    apply collecting_length in Hx. lia. }
  clear h1 Hc He. intros _ h1 Hc.
  (* the filtering loop *)
  apply (bind_inv2 _ (collecting h)); [|apply collecting_extends|].
  { apply for_inv; [trivial| |exact Hc].
    intros t hx Hx. now apply filter_turn_collecting. }
  clear h1 Hc. intros _ h1 Hc. apply collecting_extends in Hc.
  (* the derived data view *)
  rename Hc into He1.
  rewrite bind_inherit, bind_assoc. read_step.
  rewrite bind_assoc, bind_inherit, bind_assoc.
  apply (bind_inv2 _ (extends h)); [ext|trivial|]. intros _ h2 He2.
  rewrite bind_ret, bind_assoc. read_step.
  rewrite bind_assoc, bind_inherit, bind_assoc, bind_unfold.
  destruct (set (VRef (length h1)) (Name "categories") (VRef (length h2))
              (h2 ++ [derived v8 ∅])) as [h3 [[]|]] eqn:Hset.
  2:{ change h3 with (h3, @None ()).1. rewrite <- Hset. ext. }
  assert (He3 : extends h h3)
    by (change h3 with (h3, Some ()).1; rewrite <- Hset; ext).
  rewrite bind_ret, bind_assoc, bind_get, (set_get _ _ _ _ _ Hset).
  rewrite bind_assoc. read_step.
  rewrite bind_assoc, bind_inherit, bind_assoc.
  apply (bind_inv2 _ (extends h)); [ext|trivial|]. intros _ h4 He4.
  rewrite bind_ret.
  apply (bind_inv2 _ (extends h)); [ext|trivial|]. intros _ h5 He5.
  read_step.
  apply (bind_inv2 _ (extends h)); [destruct (ToBoolean v10); ext|trivial|].
  intros _ h6 He6.
  apply (bind_inv2 _ (extends h)); [|trivial|intros; ext].
  apply for_inv; [intros hx; apply values_length_reads| |exact He6].
  intros t hx Hx.
  rewrite bind_assoc. read_step.
  rewrite bind_assoc, bind_inherit, bind_assoc.
  apply (bind_inv2 _ (extends h)); [ext|trivial|]. intros _ hy Hy.
  rewrite bind_ret. read_step. ext.
Qed.
End Frame.
(** ** The guards of [transformDomain] *)

Section Guards.

Variable isOrdinal : heap -> value -> bool.
Variable StringToNumber : string -> number.
Variables (h : heap) (dataView min max : value).

Lemma length_in_truthy v n : length_in h v = Some n -> ToBoolean v = true.
Proof. destruct v; simpl; try discriminate; reflexivity. Qed.

Lemma transformDomain_no_categories categories :
  get_in h dataView (Name "categories") = Some categories ->
  ToBoolean categories = false ->
  transformDomain isOrdinal StringToNumber dataView min max h
  = (h, Some dataView).
Proof.
  intros Hc Tc. unfold transformDomain. now rewrite bind_get, Hc, Tc.
Qed.

Lemma transformDomain_no_values categories values :
  get_in h dataView (Name "categories") = Some categories ->
  get_in h dataView (Name "values") = Some values ->
  ToBoolean values = false ->
  transformDomain isOrdinal StringToNumber dataView min max h
  = (h, Some dataView).
Proof.
  intros Hc Hv Tv. unfold transformDomain. rewrite bind_get, Hc.
  destruct (ToBoolean categories); [|reflexivity]. cbn [negb].
  now rewrite bind_get, Hv, Tv.
Qed.

Lemma transformDomain_empty categories values nc nv :
  get_in h dataView (Name "categories") = Some categories ->
  get_in h dataView (Name "values") = Some values ->
  length_in h categories = Some nc ->
  length_in h values = Some nv ->
  nc = 0%nat \/ nv = 0%nat ->
  transformDomain isOrdinal StringToNumber dataView min max h
  = (h, Some dataView).
Proof.
  intros Hc Hv Hnc Hnv Hz. unfold transformDomain.
  rewrite bind_get, Hc, (length_in_truthy _ _ Hnc). cbn [negb].
  rewrite bind_get, Hv, (length_in_truthy _ _ Hnv). cbn [negb].
  rewrite bind_assoc, bind_get, Hc, bind_length_of, Hnc.
  destruct nc as [|nc]; [reflexivity|]. cbn [Nat.eqb].
  rewrite bind_assoc, bind_get, Hv, bind_length_of, Hnv.
  destruct Hz as [Hz| ->]; [discriminate|reflexivity].
Qed.

Lemma transformDomain_no_bound categories values nc nv :
  get_in h dataView (Name "categories") = Some categories ->
  get_in h dataView (Name "values") = Some values ->
  length_in h categories = Some nc ->
  length_in h values = Some nv ->
  is_number min = false -> is_number max = false ->
  transformDomain isOrdinal StringToNumber dataView min max h
  = (h, Some dataView).
Proof.
  intros Hc Hv Hnc Hnv Hmin Hmax. unfold transformDomain.
  rewrite bind_get, Hc, (length_in_truthy _ _ Hnc). cbn [negb].
  rewrite bind_get, Hv, (length_in_truthy _ _ Hnv). cbn [negb].
  rewrite bind_assoc, bind_get, Hc, bind_length_of, Hnc.
  destruct nc as [|nc]; [reflexivity|]. cbn [Nat.eqb].
  rewrite bind_assoc, bind_get, Hv, bind_length_of, Hnv.
  destruct nv as [|nv]; [reflexivity|]. cbn [Nat.eqb].
  now rewrite Hmin, Hmax.
Qed.

Ltac to_axis H :=
  destruct H as [(categories & nc & Hc & Hnc & Hcat) (values & nv & Hv & Hnv) Hb Hty];
  unfold transformDomain;
  rewrite bind_get, Hc, (length_in_truthy _ _ Hnc); cbn [negb];
  rewrite bind_get, Hv, (length_in_truthy _ _ Hnv); cbn [negb];
  rewrite bind_assoc, bind_get, Hc, bind_length_of, Hnc; cbn [Nat.eqb];
  rewrite bind_assoc, bind_get, Hv, bind_length_of, Hnv; cbn [Nat.eqb];
  replace (negb (is_number min) && negb (is_number max)) with false
    by (destruct (is_number min), (is_number max); simpl in *; congruence);
  rewrite bind_assoc, bind_get, Hc, bind_get, Hcat;
  unfold category_type in Hty;
  destruct (ToBoolean _);
    [ destruct (get_in h _ (Name "source")) as [source|] eqn:Hsource;
        [|discriminate];
      rewrite bind_assoc, bind_get, Hsource, bind_get, Hty
    | injection Hty as <-; rewrite bind_ret ];
  rewrite bind_read.

Lemma transformDomain_ordinal category categoryType :
  reaches_axis h dataView min max category categoryType ->
  isOrdinal h categoryType = true ->
  transformDomain isOrdinal StringToNumber dataView min max h
  = (h, Some VUndefined).
Proof. intros H Hord. to_axis H; now rewrite Hord. Qed.

Lemma transformDomain_absent category categoryType categoryValues categoryObjects :
  reaches_axis h dataView min max category categoryType ->
  isOrdinal h categoryType = false ->
  get_in h category (Name "values") = Some categoryValues ->
  get_in h category (Name "objects") = Some categoryObjects ->
  ToBoolean categoryValues = false \/ ToBoolean categoryObjects = false ->
  transformDomain isOrdinal StringToNumber dataView min max h
  = (h, Some dataView).
Proof.
  intros H Hord Hcv Hco Habsent.
  to_axis H; rewrite Hord, bind_get, Hcv, bind_get, Hco;
    destruct Habsent as [-> | ->]; try reflexivity;
    now destruct (ToBoolean categoryValues).
Qed.

Lemma transformDomain_invalid category categoryType categoryValues categoryObjects
    lo hi :
  reaches_axis h dataView min max category categoryType ->
  isOrdinal h categoryType = false ->
  get_in h category (Name "values") = Some categoryValues ->
  get_in h category (Name "objects") = Some categoryObjects ->
  ToBoolean categoryValues = true -> ToBoolean categoryObjects = true ->
  resolve_min h categoryValues min = Some lo ->
  resolve_max h categoryValues max = Some hi ->
  js_gt StringToNumber lo hi = Some true ->
  transformDomain isOrdinal StringToNumber dataView min max h
  = (h ++ [array_of []; array_of []; array_of []], Some dataView).
Proof.
  intros H Hord Hcv Hco Tcv Tco Hlo Hhi Hgt.
  to_axis H; rewrite Hord, bind_get, Hcv, bind_get, Hco, Tcv, Tco; cbn [negb orb];
    unfold new_array; rewrite !bind_alloc;
    change {| proto := None; elems := Some []; props := ∅ |} with (array_of []);
    rewrite stage_start;
    rewrite (resolve_min_run _ _ _ _ _ _ Hlo) by apply extends_stage;
    rewrite (resolve_max_run _ _ _ _ _ _ Hhi) by apply extends_stage;
    now rewrite bind_lift, Hgt.
Qed.

End Guards.
(** ** What the derived objects inherit *)

Section ResultInherits.

Variable h : heap.
Variable dataView : value.
Variable d : DataView.
Variables A O : list value.
Variable cs : list (list value).
Hypothesis Hcs : length cs = length d.(columns).

Lemma result_inherits k x :
  k <> Name "categories" -> k <> Name "values" ->
  get_in h dataView k = Some x ->
  get_in (result_heap h dataView d A O cs (length d.(columns)))
    (VRef (result_loc h d)) k = Some x.
Proof.
  intros Hk1 Hk2 Hx.
  eapply (get_in_derived h);
    [apply result_heap_extends|apply (result_view _ _ _ _ _ _ Hcs); reflexivity
    |unfold result_loc; lia| |exact Hx].
  now rewrite !lookup_insert_ne, lookup_empty by congruence.
Qed.

Lemma result_categories_inherit (i : nat) x :
  i <> 0%nat ->
  get_in h d.(categories) (Index i) = Some x ->
  get_in (result_heap h dataView d A O cs (length d.(columns)))
    (VRef (result_loc h d + 2)) (Index i) = Some x.
Proof.
  intros Hi Hx.
  eapply (get_in_derived h);
    [apply result_heap_extends
    |apply (result_heap_fixed _ _ _ _ _ _ Hcs _ 2); reflexivity
    |unfold result_loc; lia| |exact Hx].
  now rewrite lookup_insert_ne, lookup_empty by congruence.
Qed.

Lemma result_categories_length n :
  length_in h d.(categories) = Some n ->
  length_in (result_heap h dataView d A O cs (length d.(columns)))
    (VRef (result_loc h d + 2)) = Some n.
Proof.
  intros Hn.
  eapply (length_in_derived h);
    [apply result_heap_extends
    |apply (result_heap_fixed _ _ _ _ _ _ Hcs _ 2); reflexivity
    |unfold result_loc; lia|exact Hn].
Qed.

Lemma result_category_inherits k x :
  k <> Name "values" -> k <> Name "objects" ->
  get_in h d.(category) k = Some x ->
  get_in (result_heap h dataView d A O cs (length d.(columns)))
    (VRef (result_loc h d + 3)) k = Some x.
Proof.
  intros Hk1 Hk2 Hx.
  eapply (get_in_derived h);
    [apply result_heap_extends
    |apply (result_heap_fixed _ _ _ _ _ _ Hcs _ 3); reflexivity
    |unfold result_loc; lia| |exact Hx].
  now rewrite !lookup_insert_ne, lookup_empty by congruence.
Qed.

Lemma result_column_inherits (i : nat) column k x :
  d.(columns) !! i = Some column ->
  k <> Name "values" ->
  get_in h column k = Some x ->
  get_in (result_heap h dataView d A O cs (length d.(columns)))
    (VRef (result_loc h d + 4 + i)) k = Some x.
Proof.
  intros Hc Hk Hx. pose proof (lookup_lt_Some _ _ _ Hc) as Hi.
  eapply (get_in_derived h);
    [apply result_heap_extends
    |apply (result_heap_measure _ _ _ _ _ _ Hcs _ _ _ Hi Hc)
    |unfold result_loc; lia| |exact Hx].
  now rewrite lookup_insert_ne, lookup_empty by congruence.
Qed.

End ResultInherits.

Lemma read_upto_extends (h h' : heap) v n xs :
  extends h h' -> read_upto h v n = Some xs -> read_upto h' v n = Some xs.
Proof.
  intros He H. pose proof (read_upto_length _ _ _ _ H) as <-.
  apply read_upto_intro. intros i x Hx.
  eapply get_in_extends, read_upto_lookup; eassumption.
Qed.

Lemma read_array_extends (h h' : heap) v xs :
  extends h h' -> read_array h v = Some xs -> read_array h' v = Some xs.
Proof.
  intros He H. destruct (read_array_inv _ _ _ H) as [Hlen Hread].
  unfold read_array. rewrite (length_in_extends _ _ _ _ He Hlen).
  now apply (read_upto_extends h).
Qed.

Lemma shows_functional (h : heap) v a o c a' o' c' :
  shows h v a o c -> shows h v a' o' c' -> a = a' /\ o = o' /\ c = c'.
Proof.
  intros (x1 & x2 & x3 & x4 & x5 & x6 & H1 & H2 & H3 & H4 & H5 & H6 & H7 & H8 & H9)
         (y1 & y2 & y3 & y4 & y5 & y6 & G1 & G2 & G3 & G4 & G5 & G6 & G7 & G8 & G9).
  rewrite H1 in G1. injection G1 as <-.
  rewrite H2 in G2. injection G2 as <-.
  rewrite H3 in G3. injection G3 as <-.
  rewrite H4 in G4. injection G4 as <-.
  rewrite H5 in G5. injection G5 as <-.
  rewrite H6 in G6. injection G6 as <-.
  rewrite H7 in G7. injection G7 as <-.
  rewrite H8 in G8. injection G8 as <-.
  repeat split. clear - H9 G9.
  revert c' G9. induction H9 as [|column col columns cols (b & Hb & Hcol) _ IH];
    intros c' G9; inversion G9 as [|? col' ? cols' (b' & Hb' & Hcol') G9']; subst;
    [reflexivity|].
  rewrite Hb in Hb'. injection Hb' as <-. rewrite Hcol in Hcol'.
  injection Hcol' as <-. f_equal. now apply IH.
Qed.
(** ** The claims about [transformDomain] *)

Lemma example_filtering :
  filtering never_ordinal no_numeric_string example_heap (VRef 0) (num 2) (num 3)
    example_view (num 2) (num 3).
Proof.
  split; [split| | | | | |];
    try (lazymatch goal with |- _ = _ => vm_compute; reflexivity end).
  - exists 1%nat. vm_compute. reflexivity.
  - discriminate.
  - repeat (apply Forall_cons; split; [split; eexists; vm_compute; reflexivity|]).
    constructor.
Qed.

Lemma filtering_values_length isOrdinal StringToNumber h dataView min max d lo hi :
  filtering isOrdinal StringToNumber h dataView min max d lo hi ->
  length_in h d.(values) = Some (length d.(columns)).
Proof. intros Hf. apply read_array_inv, (ld_columns _ _ _ (ft_loaded _ _ _ _ _ _ _ _ _ Hf)). Qed.

Lemma filtering_kept_length isOrdinal StringToNumber h dataView min max d lo hi :
  filtering isOrdinal StringToNumber h dataView min max d lo hi ->
  length (restrict (kept StringToNumber d lo hi) <$> cols d) = length d.(columns).
Proof. intros Hf. rewrite length_fmap. apply (cols_length _ _ _ _ _ _ _ _ _ Hf). Qed.

(** C1, as amended.  On a data view with non-empty categories and values
    whose first category is not ordinal and has values and metadata
    objects, with at least one numeric bound and the resolved [min] not
    above the resolved [max], [transformDomain] keeps exactly the indices
    [i] with [min <= categoryValues[i] <= max]: the category values, the
    metadata objects and every value column of the result are those of
    the input restricted to the kept indices, in the original order. *)
Theorem transformDomain_keeps_range isOrdinal StringToNumber h dataView min max
    d lo hi :
  filtering isOrdinal StringToNumber h dataView min max d lo hi ->
  exists h' result,
    transformDomain isOrdinal StringToNumber dataView min max h
    = (h', Some result) /\
    shows h' result
      (restrict (kept StringToNumber d lo hi) (cvs d))
      (restrict (kept StringToNumber d lo hi) (objs d))
      (restrict (kept StringToNumber d lo hi) <$> cols d) /\
    restrict (kept StringToNumber d lo hi) (cvs d)
    = List.filter (keeps StringToNumber lo hi) (cvs d) /\
    restrict (kept StringToNumber d lo hi) (cvs d) `sublist_of` cvs d.
Proof.
  intros Hf. eexists _, _.
  split; [apply (transformDomain_filters _ _ _ _ _ _ _ _ _ Hf)|].
  split; [|split; [apply restrict_filter|apply restrict_sublist]].
  apply result_heap_shows;
    [apply (filtering_kept_length _ _ _ _ _ _ _ _ _ Hf)
    |apply (filtering_values_length _ _ _ _ _ _ _ _ _ Hf)].
Qed.

Lemma transformDomain_keeps_range_witness :
  filtering never_ordinal no_numeric_string example_heap (VRef 0) (num 2) (num 3)
    example_view (num 2) (num 3) /\
  exists h' result,
    transformDomain never_ordinal no_numeric_string (VRef 0) (num 2) (num 3)
      example_heap = (h', Some result) /\
    shows h' result
      (restrict (kept no_numeric_string example_view (num 2) (num 3))
         (cvs example_view))
      (restrict (kept no_numeric_string example_view (num 2) (num 3))
         (objs example_view))
      (restrict (kept no_numeric_string example_view (num 2) (num 3))
       <$> cols example_view) /\
    restrict (kept no_numeric_string example_view (num 2) (num 3))
      (cvs example_view)
    = List.filter (keeps no_numeric_string (num 2) (num 3)) (cvs example_view) /\
    restrict (kept no_numeric_string example_view (num 2) (num 3))
      (cvs example_view) `sublist_of` cvs example_view.
Proof.
  split; [exact example_filtering|].
  exact (transformDomain_keeps_range _ _ _ _ _ _ _ _ _ example_filtering).
Defined.

(** C1 as stated fails: a first category without metadata objects, or
    bounds that resolve to [min > max], send the call back with its input,
    which shows all four category values where two, respectively none, lie
    in the range. *)
Lemma transformDomain_keeps_range_counterexample :
  (transformDomain never_ordinal no_numeric_string (VRef 0) (num 2) (num 3)
     example_heap_without_objects
   = (example_heap_without_objects, Some (VRef 0)) /\
   shows_values example_heap_without_objects (VRef 0)
   = Some [num 1; num 2; num 3; num 4] /\
   List.filter (keeps no_numeric_string (num 2) (num 3))
     [num 1; num 2; num 3; num 4] = [num 2; num 3]) /\
  (transformDomain never_ordinal no_numeric_string (VRef 0) (num 3) (num 2)
     example_heap
   = (example_heap ++ [array_of []; array_of []; array_of []], Some (VRef 0)) /\
   shows_values (example_heap ++ [array_of []; array_of []; array_of []]) (VRef 0)
   = Some [num 1; num 2; num 3; num 4] /\
   List.filter (keeps no_numeric_string (num 3) (num 2))
     [num 1; num 2; num 3; num 4] = []).
Proof. repeat split; vm_compute; reflexivity. Qed.

(** C8.  Whenever [transformDomain] filters, every value column of the
    data view it returns has a values array as long as the values array
    of the category column. *)
Theorem transformDomain_lengths isOrdinal StringToNumber h dataView min max
    d lo hi :
  filtering isOrdinal StringToNumber h dataView min max d lo hi ->
  exists h' result,
    transformDomain isOrdinal StringToNumber dataView min max h
    = (h', Some result) /\
    (exists cvs' objs' cols', shows h' result cvs' objs' cols') /\
    forall cvs' objs' cols',
      shows h' result cvs' objs' cols' ->
      Forall (fun col => length col = length cvs') cols'.
Proof.
  intros Hf.
  pose proof (result_heap_shows h dataView d
                (restrict (kept StringToNumber d lo hi) (cvs d))
                (restrict (kept StringToNumber d lo hi) (objs d))
                (restrict (kept StringToNumber d lo hi) <$> cols d)
                (filtering_kept_length _ _ _ _ _ _ _ _ _ Hf)
                (filtering_values_length _ _ _ _ _ _ _ _ _ Hf)) as Hshows.
  eexists _, _. split; [apply (transformDomain_filters _ _ _ _ _ _ _ _ _ Hf)|].
  split; [eauto|].
  intros cvs' objs' cols' Hshows'.
  destruct (shows_functional _ _ _ _ _ _ _ _ Hshows Hshows') as (<- & _ & <-).
  apply Forall_fmap, Forall_forall. intros col Hcol. simpl.
  apply restrict_length, (col_length _ _ _ _ _ _ _ _ _ Hf), Hcol.
Qed.

Lemma transformDomain_lengths_witness :
  filtering never_ordinal no_numeric_string example_heap (VRef 0) (num 2) (num 3)
    example_view (num 2) (num 3) /\
  exists h' result,
    transformDomain never_ordinal no_numeric_string (VRef 0) (num 2) (num 3)
      example_heap = (h', Some result) /\
    (exists cvs' objs' cols', shows h' result cvs' objs' cols') /\
    forall cvs' objs' cols',
      shows h' result cvs' objs' cols' ->
      Forall (fun col => length col = length cvs') cols'.
Proof.
  split; [exact example_filtering|].
  exact (transformDomain_lengths _ _ _ _ _ _ _ _ _ example_filtering).
Defined.

Lemma fresh_arrays_distinct (n m : nat) :
  NoDup (n :: (n + 2)%nat :: seq (n + 3) m).
Proof.
  repeat apply NoDup_cons_2; [| |apply NoDup_seq].
  - rewrite elem_of_cons, elem_of_seq. lia.
  - rewrite elem_of_seq. lia.
Qed.

(** C9.  No call of [transformDomain] changes an object of the heap it
    is given: the heap it leaves begins with the heap it found.  When it
    filters, its result is a new object; the arrays that hold the
    filtered category values, metadata objects and column values are new
    and distinct; and every field of the result other than [categories]
    and [values] reads as in the input data view. *)
Theorem transformDomain_preserves_input :
  (forall isOrdinal StringToNumber dataView min max (h : heap),
     h `prefix_of`
       (transformDomain isOrdinal StringToNumber dataView min max h).1) /\
  (forall isOrdinal StringToNumber h dataView min max d lo hi,
     filtering isOrdinal StringToNumber h dataView min max d lo hi ->
     exists h' r rcategories rcategory a o rvalues arrays,
       transformDomain isOrdinal StringToNumber dataView min max h
       = (h', Some (VRef r)) /\
       (length h <= r)%nat /\
       get_in h' (VRef r) (Name "categories") = Some rcategories /\
       get_in h' rcategories (Index 0) = Some rcategory /\
       get_in h' rcategory (Name "values") = Some (VRef a) /\
       get_in h' rcategory (Name "objects") = Some (VRef o) /\
       get_in h' (VRef r) (Name "values") = Some rvalues /\
       length_in h' rvalues = Some (length arrays) /\
       (forall (i : nat) b, arrays !! i = Some b ->
          exists rcolumn,
            get_in h' rvalues (Index i) = Some rcolumn /\
            get_in h' rcolumn (Name "values") = Some (VRef b)) /\
       NoDup (a :: o :: arrays) /\
       Forall (fun l => length h <= l)%nat (a :: o :: arrays) /\
       (forall k x,
          k <> Name "categories" -> k <> Name "values" ->
          get_in h dataView k = Some x -> get_in h' (VRef r) k = Some x)).
Proof.
  split.
  { intros. apply extends_prefix, transformDomain_extends. }
  intros isOrdinal StringToNumber h dataView min max d lo hi Hf.
  pose proof (filtering_kept_length _ _ _ _ _ _ _ _ _ Hf) as Hcs.
  pose proof (filtering_values_length _ _ _ _ _ _ _ _ _ Hf) as Hm.
  eexists _, _, (VRef (result_loc h d + 2)), (VRef (result_loc h d + 3)),
    (length h), (length h + 2)%nat, (VRef (result_loc h d + 1)),
    (seq (length h + 3) (length (columns d))).
  split; [apply (transformDomain_filters _ _ _ _ _ _ _ _ _ Hf)|].
  split; [unfold result_loc; lia|].
  split.
  { eapply get_in_derived_own;
      [apply (result_view _ _ _ _ _ _ Hcs); reflexivity|].
    apply lookup_insert_eq. }
  split.
  { eapply get_in_derived_own;
      [apply (result_heap_fixed _ _ _ _ _ _ Hcs _ 2); reflexivity|].
    apply lookup_insert_eq. }
  split.
  { eapply get_in_derived_own;
      [apply (result_heap_fixed _ _ _ _ _ _ Hcs _ 3); reflexivity|].
    rewrite lookup_insert_ne by discriminate. apply lookup_insert_eq. }
  split.
  { eapply get_in_derived_own;
      [apply (result_heap_fixed _ _ _ _ _ _ Hcs _ 3); reflexivity|].
    apply lookup_insert_eq. }
  split.
  { eapply get_in_derived_own;
      [apply (result_view _ _ _ _ _ _ Hcs); reflexivity|].
    rewrite lookup_insert_ne by discriminate. apply lookup_insert_eq. }
  split.
  { rewrite length_seq.
    eapply (length_in_derived h);
      [apply result_heap_extends
      |apply (result_heap_fixed _ _ _ _ _ _ Hcs _ 1); reflexivity
      |unfold result_loc; lia|exact Hm]. }
  split.
  { intros i b Hb. apply lookup_seq in Hb. destruct Hb as [-> Hi].
    destruct (lookup_lt_is_Some_2 (columns d) i Hi) as [c Hc].
    exists (VRef (result_loc h d + 4 + i)). split.
    - eapply get_in_derived_own;
        [apply (result_heap_fixed _ _ _ _ _ _ Hcs _ 1); reflexivity|].
      rewrite measure_props_lookup. now destruct (decide (i < _)%nat).
    - eapply get_in_derived_own;
        [apply (result_heap_measure _ _ _ _ _ _ Hcs _ _ _ Hi Hc)|].
      apply lookup_insert_eq. }
  split; [apply fresh_arrays_distinct|].
  split.
  { repeat (apply Forall_cons; split; [lia|]).
    apply Forall_forall. intros l Hl. apply elem_of_seq in Hl. lia. }
  intros k x Hk1 Hk2 Hx. now apply result_inherits.
Qed.

Lemma transformDomain_preserves_input_witness :
  filtering never_ordinal no_numeric_string example_heap (VRef 0) (num 2) (num 3)
    example_view (num 2) (num 3) /\
  exists h' r,
    transformDomain never_ordinal no_numeric_string (VRef 0) (num 2) (num 3)
      example_heap = (h', Some (VRef r)) /\
    (length example_heap <= r)%nat /\
    get_in h' (VRef r) (Name "metadata") = Some (VString "kept").
Proof.
  split; [exact example_filtering|].
  destruct (proj2 transformDomain_preserves_input _ _ _ _ _ _ _ _ _
              example_filtering)
    as (h' & r & _ & _ & _ & _ & _ & _ & Hrun & Hr & _ & _ & _ & _ & _ & _ & _
        & _ & _ & Hk).
  exists h', r. split; [exact Hrun|]. split; [exact Hr|].
  apply Hk; [discriminate|discriminate|]. vm_compute. reflexivity.
Defined.

(** C10.  [transformDomain] filters the first category column only.  In
    a filtered result the categories object shows as many columns as the
    input; every column at an index other than 0 is the very column of
    the input, with the values it had; the first category differs from
    the input's in [values] and [objects] only, and every value column in
    [values] only.  On the example data view the first category of the
    result has two values and the second still has four. *)
Theorem transformDomain_first_category_only :
  (forall isOrdinal StringToNumber h dataView min max d lo hi,
     filtering isOrdinal StringToNumber h dataView min max d lo hi ->
     exists h' result rcategories rcategory rvalues,
       transformDomain isOrdinal StringToNumber dataView min max h
       = (h', Some result) /\
       get_in h' result (Name "categories") = Some rcategories /\
       length_in h' rcategories = length_in h d.(categories) /\
       (forall (i : nat) x,
          i <> 0%nat -> get_in h d.(categories) (Index i) = Some x ->
          get_in h' rcategories (Index i) = Some x /\
          forall a xs,
            get_in h x (Name "values") = Some a -> read_array h a = Some xs ->
            get_in h' x (Name "values") = Some a /\ read_array h' a = Some xs) /\
       get_in h' rcategories (Index 0) = Some rcategory /\
       (forall k x,
          k <> Name "values" -> k <> Name "objects" ->
          get_in h d.(category) k = Some x -> get_in h' rcategory k = Some x) /\
       get_in h' result (Name "values") = Some rvalues /\
       (forall (i : nat) column,
          d.(columns) !! i = Some column ->
          exists rcolumn,
            get_in h' rvalues (Index i) = Some rcolumn /\
            forall k x,
              k <> Name "values" ->
              get_in h column k = Some x -> get_in h' rcolumn k = Some x)) /\
  (exists h' result rcategories first second a b,
     transformDomain never_ordinal no_numeric_string (VRef 0) (num 2) (num 3)
       example_heap = (h', Some result) /\
     get_in h' result (Name "categories") = Some rcategories /\
     get_in h' rcategories (Index 0) = Some first /\
     get_in h' rcategories (Index 1) = Some second /\
     get_in h' first (Name "values") = Some a /\
     get_in h' second (Name "values") = Some b /\
     length_in h' a = Some 2%nat /\
     length_in h' b = Some 4%nat).
Proof.
  split.
  - intros isOrdinal StringToNumber h dataView min max d lo hi Hf.
    pose proof (filtering_kept_length _ _ _ _ _ _ _ _ _ Hf) as Hcs.
    pose proof (ft_loaded _ _ _ _ _ _ _ _ _ Hf) as Hl.
    eexists _, _, (VRef (result_loc h d + 2)), (VRef (result_loc h d + 3)),
      (VRef (result_loc h d + 1)).
    split; [apply (transformDomain_filters _ _ _ _ _ _ _ _ _ Hf)|].
    split.
    { eapply get_in_derived_own;
        [apply (result_view _ _ _ _ _ _ Hcs); reflexivity|].
      apply lookup_insert_eq. }
    split.
    { destruct (ld_nonempty _ _ _ Hl) as [n Hn]. rewrite Hn.
      now apply result_categories_length. }
    split.
    { intros i x Hi Hx. split; [now apply result_categories_inherit|].
      intros a xs Ha Hxs. split.
      - eapply get_in_extends; [apply result_heap_extends|exact Ha].
      - eapply read_array_extends; [apply result_heap_extends|exact Hxs]. }
    split.
    { eapply get_in_derived_own;
        [apply (result_heap_fixed _ _ _ _ _ _ Hcs _ 2); reflexivity|].
      apply lookup_insert_eq. }
    split; [intros k x Hk1 Hk2 Hx; now apply result_category_inherits|].
    split.
    { eapply get_in_derived_own;
        [apply (result_view _ _ _ _ _ _ Hcs); reflexivity|].
      rewrite lookup_insert_ne by discriminate. apply lookup_insert_eq. }
    intros i column Hc. pose proof (lookup_lt_Some _ _ _ Hc) as Hi.
    exists (VRef (result_loc h d + 4 + i)). split.
    + eapply get_in_derived_own;
        [apply (result_heap_fixed _ _ _ _ _ _ Hcs _ 1); reflexivity|].
      rewrite measure_props_lookup. now destruct (decide (i < _)%nat).
    + intros k x Hk Hx. now apply (result_column_inherits _ _ _ _ _ _ Hcs _ column).
  - exists (transformDomain never_ordinal no_numeric_string (VRef 0) (num 2)
              (num 3) example_heap).1,
      (VRef 17), (VRef 19), (VRef 20), (VRef 11), (VRef 13), (VRef 12).
    repeat split; vm_compute; reflexivity.
Qed.

Lemma transformDomain_first_category_only_witness :
  filtering never_ordinal no_numeric_string example_heap (VRef 0) (num 2) (num 3)
    example_view (num 2) (num 3) /\
  exists h' result rcategories,
    transformDomain never_ordinal no_numeric_string (VRef 0) (num 2) (num 3)
      example_heap = (h', Some result) /\
    get_in h' result (Name "categories") = Some rcategories /\
    get_in h' rcategories (Index 1) = Some (VRef 11).
Proof.
  split; [exact example_filtering|].
  destruct (proj1 transformDomain_first_category_only _ _ _ _ _ _ _ _ _
              example_filtering)
    as (h' & result & rcategories & _ & _ & Hrun & Hcats & _ & Hother & _).
  exists h', result, rcategories. split; [exact Hrun|]. split; [exact Hcats|].
  apply (Hother 1%nat); [discriminate|]. vm_compute. reflexivity.
Defined.

Lemma example_reaches_axis min max :
  is_number min || is_number max = true ->
  reaches_axis example_heap (VRef 0) min max (VRef 2) (VRef 6).
Proof.
  intros Hb. split; [| |exact Hb|vm_compute; reflexivity].
  - exists (VRef 1), 1%nat. repeat split; vm_compute; reflexivity.
  - exists (VRef 7), 0%nat. repeat split; vm_compute; reflexivity.
Qed.

(** C5, as amended.  When the data view has categories and values,
    neither empty, and at least one of [min] and [max] is a number, an
    ordinal category type makes [transformDomain] return [undefined],
    whatever the numbers are; this differs from returning the input. *)
Theorem transformDomain_ordinal_sentinel isOrdinal StringToNumber h dataView
    min max category categoryType :
  reaches_axis h dataView min max category categoryType ->
  isOrdinal h categoryType = true ->
  transformDomain isOrdinal StringToNumber dataView min max h
  = (h, Some VUndefined) /\
  VUndefined <> dataView.
Proof.
  intros H Hord. split; [now apply (transformDomain_ordinal _ _ _ _ _ _ _ _ H)|].
  destruct H as [(categories & n & Hc & _) _ _ _].
  destruct dataView; simpl in Hc; discriminate.
Qed.

Lemma transformDomain_ordinal_sentinel_witness :
  reaches_axis example_heap (VRef 0) (num 2) VUndefined (VRef 2) (VRef 6) /\
  always_ordinal example_heap (VRef 6) = true /\
  transformDomain always_ordinal no_numeric_string (VRef 0) (num 2) VUndefined
    example_heap = (example_heap, Some VUndefined) /\
  VUndefined <> VRef 0.
Proof.
  split; [now apply example_reaches_axis|]. split; [reflexivity|].
  apply (transformDomain_ordinal_sentinel always_ordinal no_numeric_string
           example_heap (VRef 0) (num 2) VUndefined (VRef 2) (VRef 6));
    [now apply example_reaches_axis|reflexivity].
Defined.

(** C5 as stated fails: with an ordinal category type and no numeric
    bound the call returns its input, not [undefined]. *)
Lemma transformDomain_ordinal_sentinel_counterexample :
  category_type example_heap (VRef 2) = Some (VRef 6) /\
  always_ordinal example_heap (VRef 6) = true /\
  transformDomain always_ordinal no_numeric_string (VRef 0) VUndefined VUndefined
    example_heap = (example_heap, Some (VRef 0)).
Proof. repeat split; vm_compute; reflexivity. Qed.

(** C6, as amended.  [transformDomain] returns the very data view it was
    given, and leaves every object as it was, when the categories or the
    values are missing or empty, when neither bound is a number, and, on
    an axis that is not ordinal, when the category values or the metadata
    objects are missing or the resolved [min] is above the resolved
    [max]; in the last case the three local arrays it has created by then
    stay behind, unreachable. *)
Theorem transformDomain_unchanged isOrdinal StringToNumber h dataView min max :
  (forall categories,
     get_in h dataView (Name "categories") = Some categories ->
     ToBoolean categories = false ->
     transformDomain isOrdinal StringToNumber dataView min max h
     = (h, Some dataView)) /\
  (forall categories values,
     get_in h dataView (Name "categories") = Some categories ->
     get_in h dataView (Name "values") = Some values ->
     ToBoolean values = false ->
     transformDomain isOrdinal StringToNumber dataView min max h
     = (h, Some dataView)) /\
  (forall categories values nc nv,
     get_in h dataView (Name "categories") = Some categories ->
     get_in h dataView (Name "values") = Some values ->
     length_in h categories = Some nc ->
     length_in h values = Some nv ->
     nc = 0%nat \/ nv = 0%nat ->
     transformDomain isOrdinal StringToNumber dataView min max h
     = (h, Some dataView)) /\
  (forall categories values nc nv,
     get_in h dataView (Name "categories") = Some categories ->
     get_in h dataView (Name "values") = Some values ->
     length_in h categories = Some nc ->
     length_in h values = Some nv ->
     is_number min = false -> is_number max = false ->
     transformDomain isOrdinal StringToNumber dataView min max h
     = (h, Some dataView)) /\
  (forall category categoryType categoryValues categoryObjects,
     reaches_axis h dataView min max category categoryType ->
     isOrdinal h categoryType = false ->
     get_in h category (Name "values") = Some categoryValues ->
     get_in h category (Name "objects") = Some categoryObjects ->
     ToBoolean categoryValues = false \/ ToBoolean categoryObjects = false ->
     transformDomain isOrdinal StringToNumber dataView min max h
     = (h, Some dataView)) /\
  (forall category categoryType categoryValues categoryObjects lo hi,
     reaches_axis h dataView min max category categoryType ->
     isOrdinal h categoryType = false ->
     get_in h category (Name "values") = Some categoryValues ->
     get_in h category (Name "objects") = Some categoryObjects ->
     ToBoolean categoryValues = true -> ToBoolean categoryObjects = true ->
     resolve_min h categoryValues min = Some lo ->
     resolve_max h categoryValues max = Some hi ->
     js_gt StringToNumber lo hi = Some true ->
     transformDomain isOrdinal StringToNumber dataView min max h
     = (h ++ [array_of []; array_of []; array_of []], Some dataView)).
Proof.
  repeat split.
  - apply transformDomain_no_categories.
  - apply transformDomain_no_values.
  - apply transformDomain_empty.
  - apply transformDomain_no_bound.
  - apply transformDomain_absent.
  - apply transformDomain_invalid.
Qed.

Lemma transformDomain_unchanged_witness :
  (get_in [plain []] (VRef 0) (Name "categories") = Some VUndefined /\
   ToBoolean VUndefined = false /\
   transformDomain never_ordinal no_numeric_string (VRef 0) (num 2) (num 3)
     [plain []] = ([plain []], Some (VRef 0))) /\
  (is_number VUndefined = false /\
   transformDomain never_ordinal no_numeric_string (VRef 0) VUndefined VUndefined
     example_heap = (example_heap, Some (VRef 0))) /\
  (get_in example_heap_without_objects (VRef 2) (Name "objects") = Some VUndefined /\
   transformDomain never_ordinal no_numeric_string (VRef 0) (num 2) (num 3)
     example_heap_without_objects
   = (example_heap_without_objects, Some (VRef 0))) /\
  (js_gt no_numeric_string (num 3) (num 2) = Some true /\
   transformDomain never_ordinal no_numeric_string (VRef 0) (num 3) (num 2)
     example_heap
   = (example_heap ++ [array_of []; array_of []; array_of []], Some (VRef 0))).
Proof.
  split; [|split; [|split]].
  - split; [vm_compute; reflexivity|]. split; [reflexivity|].
    apply (proj1 (transformDomain_unchanged never_ordinal no_numeric_string
                    [plain []] (VRef 0) (num 2) (num 3)) VUndefined);
      vm_compute; reflexivity.
  - split; [reflexivity|].
    apply (proj1 (proj2 (proj2 (proj2
             (transformDomain_unchanged never_ordinal no_numeric_string
                example_heap (VRef 0) VUndefined VUndefined))))
             (VRef 1) (VRef 7) 2%nat 1%nat);
      vm_compute; reflexivity.
  - split; [vm_compute; reflexivity|].
    apply (proj1 (proj2 (proj2 (proj2 (proj2
             (transformDomain_unchanged never_ordinal no_numeric_string
                example_heap_without_objects (VRef 0) (num 2) (num 3))))))
             (VRef 2) (VRef 6) (VRef 4) VUndefined).
    + split; [| |reflexivity|vm_compute; reflexivity].
      * exists (VRef 1), 1%nat. repeat split; vm_compute; reflexivity.
      * exists (VRef 7), 0%nat. repeat split; vm_compute; reflexivity.
    + reflexivity.
    + vm_compute. reflexivity.
    + vm_compute. reflexivity.
    + right. reflexivity.
  - split; [vm_compute; reflexivity|].
    apply (proj2 (proj2 (proj2 (proj2 (proj2
             (transformDomain_unchanged never_ordinal no_numeric_string
                example_heap (VRef 0) (num 3) (num 2))))))
             (VRef 2) (VRef 6) (VRef 4) (VRef 5) (num 3) (num 2));
      try (vm_compute; reflexivity).
    now apply example_reaches_axis.
Defined.

(** C6 as stated fails: on an ordinal axis a first category without
    metadata objects does not send the input back; the call returns
    [undefined]. *)
Lemma transformDomain_unchanged_counterexample :
  get_in example_heap_without_objects (VRef 2) (Name "objects") = Some VUndefined /\
  transformDomain always_ordinal no_numeric_string (VRef 0) (num 2) (num 3)
    example_heap_without_objects
  = (example_heap_without_objects, Some VUndefined) /\
  VUndefined <> VRef 0.
Proof. repeat split; try (vm_compute; reflexivity). discriminate. Qed.

(** * Further properties

    Properties of the same functions beyond the statements above, read
    off the code: edge cases, invariants and how calls compose. *)

(** ** Further properties of [getClosestColumnIndex] *)

(** X1.  The index [getClosestColumnIndex] returns is an index of the
    centers it was given, whenever there is one. *)
Theorem getClosestColumnIndex_in_bounds coordinate columnsCenters :
  columnsCenters <> [] ->
  (getClosestColumnIndex coordinate columnsCenters < length columnsCenters)%nat.
Proof.
  intros Hne. unfold getClosestColumnIndex.
  destruct (getClosestColumnIndex_loop_spec coordinate columnsCenters 0 0 MAX_VALUE)
    as [(-> & _)|(c & _ & Hc & _)].
  - destruct columnsCenters; [congruence|simpl; lia].
  - rewrite Nat.sub_0_r in Hc. now apply lookup_lt_Some in Hc.
Qed.

Lemma getClosestColumnIndex_in_bounds_witness :
  [of_Z 0; of_Z 10; of_Z 20] <> [] /\
  (getClosestColumnIndex (of_Z 12) [of_Z 0; of_Z 10; of_Z 20]
   < length [of_Z 0; of_Z 10; of_Z 20])%nat.
Proof.
  split; [discriminate|].
  apply (getClosestColumnIndex_in_bounds (of_Z 12) [of_Z 0; of_Z 10; of_Z 20]).
  discriminate.
Defined.

Lemma sub_nan_l y : sub NaN y = NaN.
Proof. now destruct y as [[]|[]| |[] m e]. Qed.

Lemma sub_nan_r x : is_nan (sub x NaN) = true.
Proof. now destruct x as [[]|[]| |[] m e]. Qed.

Lemma lt_nan_l y : is_nan y = true -> forall d, lt (abs y) d = false.
Proof. destruct y; try discriminate. reflexivity. Qed.

Lemma getClosestColumnIndex_loop_skip coordinate : forall centers i cur d,
  Forall (fun c => is_nan (sub coordinate c) = true) centers ->
  getClosestColumnIndex_loop coordinate centers i cur d = cur.
Proof.
  induction centers as [|c centers IH]; intros i cur d H; simpl; [reflexivity|].
  inversion H as [|? ? Hc H']; subst.
  rewrite (lt_nan_l _ Hc). now apply IH.
Qed.

(** X2.  A distance that is NaN is never the closest: when the coordinate
    is NaN, or every center is, [getClosestColumnIndex] returns 0. *)
Theorem getClosestColumnIndex_nan coordinate columnsCenters :
  is_nan coordinate = true \/
  Forall (fun c => is_nan c = true) columnsCenters ->
  getClosestColumnIndex coordinate columnsCenters = 0%nat.
Proof.
  intros H. apply getClosestColumnIndex_loop_skip.
  destruct H as [H|H].
  - destruct coordinate; try discriminate.
    apply Forall_forall. intros c _. now rewrite sub_nan_l.
  - eapply Forall_impl; [exact H|]. intros c Hc. simpl in Hc.
    destruct c; try discriminate. apply sub_nan_r.
Qed.

Lemma getClosestColumnIndex_nan_witness :
  (is_nan NaN = true \/
   Forall (fun c => is_nan c = true) [of_Z 0; of_Z 10]) /\
  getClosestColumnIndex NaN [of_Z 0; of_Z 10] = 0%nat.
Proof.
  split; [now left|].
  apply (getClosestColumnIndex_nan NaN [of_Z 0; of_Z 10]). now left.
Defined.

Lemma getClosestColumnIndex_loop_snoc coordinate center : forall centers i cur d,
  getClosestColumnIndex_loop coordinate (centers ++ [center]) i cur d
  = getClosestColumnIndex_loop coordinate centers i cur d \/
  getClosestColumnIndex_loop coordinate (centers ++ [center]) i cur d
  = (i + length centers)%nat.
Proof.
  induction centers as [|c centers IH]; intros i cur d; simpl.
  - destruct (lt _ d); [right; lia|now left].
  - replace (i + S (length centers))%nat with (S i + length centers)%nat by lia.
    destruct (lt _ d); apply IH.
Qed.

(** X3.  One more column on the right either is the closest itself or
    leaves the closest column as it was. *)
Theorem getClosestColumnIndex_snoc coordinate columnsCenters center :
  getClosestColumnIndex coordinate (columnsCenters ++ [center])
  = getClosestColumnIndex coordinate columnsCenters \/
  getClosestColumnIndex coordinate (columnsCenters ++ [center])
  = length columnsCenters.
Proof. apply (getClosestColumnIndex_loop_snoc coordinate center columnsCenters 0). Qed.

(** ** [getFillOpacity] *)

(** X4.  [getFillOpacity] returns an opacity above 0 and not above 1, and
    it returns full opacity exactly for a data point that neither the
    highlights nor the selection leave out. *)
Theorem getFillOpacity_range selected highlight hasSelection hasPartialHighlights :
  lt (of_Z 0) (getFillOpacity selected highlight hasSelection hasPartialHighlights)
  = true /\
  le (getFillOpacity selected highlight hasSelection hasPartialHighlights) (of_Z 1)
  = true /\
  (strict_eq (getFillOpacity selected highlight hasSelection hasPartialHighlights)
     DefaultOpacity = true
   <-> (hasPartialHighlights = true -> highlight = true) /\
       (hasSelection = true -> selected = true)).
Proof.
  destruct selected, highlight, hasSelection, hasPartialHighlights;
    (split; [reflexivity|]); (split; [reflexivity|]);
    cbn; intuition discriminate.
Qed.

(** ** Further properties of [setChosenColumnOpacity] *)

(** X5.  When the column chosen is also the last column interacted with,
    [setChosenColumnOpacity] dims nothing: no transition is scheduled, and
    only the chosen column changes its style. *)
Theorem setChosenColumnOpacity_same_index series selectedColumnIndex :
  Forall2 (Forall2 (fun r r' =>
    r'.(datum) = r.(datum) /\
    r'.(transition_to) = r.(transition_to) /\
    r'.(fill_opacity)
    = (if strict_eq r.(datum).(Chart.categoryIndex) selectedColumnIndex
       then Some DefaultOpacity else r.(fill_opacity))))
    series
    (setChosenColumnOpacity series selectedColumnIndex (Some selectedColumnIndex)).
Proof.
  unfold setChosenColumnOpacity, transition_style, style. cbv zeta.
  rewrite List.map_map.
  apply Forall2_fmap_r, Forall_Forall2_diag, Forall_forall. intros rs _.
  unfold compose. rewrite List.map_map.
  apply Forall2_fmap_r, Forall_Forall2_diag, Forall_forall. intros r _.
  unfold compose. cbn [orb].
  destruct (strict_eq (Chart.categoryIndex (datum r)) selectedColumnIndex) eqn:E;
    cbn [negb andb datum transition_to fill_opacity]; rewrite ?E; auto.
Qed.

(** X6.  [setChosenColumnOpacity] is idempotent: a second call with the
    same indices leaves the scene as the first call left it. *)
Theorem setChosenColumnOpacity_idempotent series selectedColumnIndex lastColumnIndex :
  setChosenColumnOpacity
    (setChosenColumnOpacity series selectedColumnIndex lastColumnIndex)
    selectedColumnIndex lastColumnIndex
  = setChosenColumnOpacity series selectedColumnIndex lastColumnIndex.
Proof.
  unfold setChosenColumnOpacity, transition_style, style. cbv zeta.
  rewrite !List.map_map. apply map_ext. intros rs.
  rewrite !List.map_map. apply map_ext. intros r.
  repeat match goal with
    | |- context [if ?b then _ else _] => destruct b eqn:?; cbn [datum] in *
    end; try reflexivity; try congruence.
Qed.



(** ** Further properties of [calcValueDomain] *)

(** The reductions go through a sequence from left to right. *)
Lemma min_from_app bs cs : forall a,
  d3.min_from a (bs ++ cs) = d3.min_from (d3.min_from a bs) cs.
Proof.
  induction bs as [|[b|] bs IH]; intros a; simpl; [reflexivity| |apply IH].
  destruct (gt a b); apply IH.
Qed.

Lemma max_from_app bs cs : forall a,
  d3.max_from a (bs ++ cs) = d3.max_from (d3.max_from a bs) cs.
Proof.
  induction bs as [|[b|] bs IH]; intros a; simpl; [reflexivity| |apply IH].
  destruct (gt b a); apply IH.
Qed.

Lemma min_values_app bs cs :
  d3.min_values (bs ++ cs)
  = match d3.min_values bs with
    | Some m => Some (d3.min_from m cs)
    | None => d3.min_values cs
    end.
Proof.
  induction bs as [|b bs IH]; simpl; [reflexivity|].
  destruct (d3.comparable b); [|exact IH].
  now rewrite min_from_app.
Qed.

Lemma max_values_app bs cs :
  d3.max_values (bs ++ cs)
  = match d3.max_values bs with
    | Some m => Some (d3.max_from m cs)
    | None => d3.max_values cs
    end.
Proof.
  induction bs as [|b bs IH]; simpl; [reflexivity|].
  destruct (d3.comparable b); [|exact IH].
  now rewrite max_from_app.
Qed.

(** A running minimum that starts below keeps its start unless the other
    run ends strictly lower. *)
Lemma min_from_below bs : forall a x,
  is_nan a = false -> is_nan x = false -> gt a x = false ->
  d3.min_from a bs
  = if gt a (d3.min_from x bs) then d3.min_from x bs else a.
Proof.
  induction bs as [|[y|] bs IH]; intros a x Ha Hx Hax; simpl.
  - now rewrite Hax.
  - destruct (gt a y) eqn:Hay.
    + unfold gt in *.
      assert (Hy : is_nan y = false) by (clear IH; by_rank).
      assert (Hxy : lt y x = true)
        by (apply (lt_le_trans _ a); [exact Hay|now apply not_lt_le]).
      rewrite Hxy.
      destruct (min_from_spec bs y Hy) as (_ & Hle & _).
      now rewrite (le_lt_trans _ _ _ Hle Hay).
    + destruct (gt x y) eqn:Hxy.
      * apply IH; [exact Ha|clear IH; by_rank|exact Hay].
      * now apply IH.
  - now apply IH.
Qed.

Lemma max_from_above bs : forall a x,
  is_nan a = false -> is_nan x = false -> gt x a = false ->
  d3.max_from a bs
  = if gt (d3.max_from x bs) a then d3.max_from x bs else a.
Proof.
  induction bs as [|[y|] bs IH]; intros a x Ha Hx Hax; simpl.
  - now rewrite Hax.
  - destruct (gt y a) eqn:Hay.
    + unfold gt in *.
      assert (Hy : is_nan y = false) by (clear IH; by_rank).
      assert (Hxy : lt x y = true)
        by (apply (le_lt_trans _ a); [now apply not_lt_le|exact Hay]).
      rewrite Hxy.
      destruct (max_from_spec bs y Hy) as (_ & Hle & _).
      now rewrite (lt_le_trans _ _ _ Hay Hle).
    + destruct (gt y x) eqn:Hxy.
      * apply IH; [exact Ha|clear IH; by_rank|exact Hay].
      * now apply IH.
  - now apply IH.
Qed.

(** Meeting the minimum of a sequence is as good as going through it. *)
Lemma min_from_values bs : forall a,
  is_nan a = false ->
  d3.min_from a bs
  = match d3.min_values bs with
    | Some m => if gt a m then m else a
    | None => a
    end.
Proof.
  induction bs as [|[b|] bs IH]; intros a Ha; simpl; [reflexivity| |now apply IH].
  destruct (ge b b) eqn:Hb.
  - assert (Hn : is_nan b = false) by (clear IH; by_rank).
    destruct (gt a b) eqn:Hab.
    + destruct (min_from_spec bs b Hn) as (_ & Hle & _).
      unfold gt in *. now rewrite (le_lt_trans _ _ _ Hle Hab).
    + now apply min_from_below.
  - assert (Hab : gt a b = false) by (clear IH; by_rank).
    rewrite Hab. now apply IH.
Qed.

Lemma max_from_values bs : forall a,
  is_nan a = false ->
  d3.max_from a bs
  = match d3.max_values bs with
    | Some m => if gt m a then m else a
    | None => a
    end.
Proof.
  induction bs as [|[b|] bs IH]; intros a Ha; simpl; [reflexivity| |now apply IH].
  destruct (ge b b) eqn:Hb.
  - assert (Hn : is_nan b = false) by (clear IH; by_rank).
    destruct (gt b a) eqn:Hab.
    + destruct (max_from_spec bs b Hn) as (_ & Hle & _).
      unfold gt in *. now rewrite (lt_le_trans _ _ _ Hab Hle).
    + now apply max_from_above.
  - assert (Hab : gt b a = false) by (clear IH; by_rank).
    rewrite Hab. now apply IH.
Qed.

Lemma min_values_not_nan bs m : d3.min_values bs = Some m -> is_nan m = false.
Proof.
  intros H. pose proof (min_values_spec bs) as Hs. rewrite H in Hs. apply Hs.
Qed.

Lemma max_values_not_nan bs m : d3.max_values bs = Some m -> is_nan m = false.
Proof.
  intros H. pose proof (max_values_spec bs) as Hs. rewrite H in Hs. apply Hs.
Qed.

(** The minimum of the minima of the rows is the minimum of the rows laid
    end to end, as a value. *)
Lemma min_from_rows {A B} (rows : A -> list B) (f : B -> option number) xs :
  forall a, is_nan a = false ->
  d3.min_from a (map (fun x => d3.min (rows x) f) xs)
  = d3.min_from a (map f (flat_map rows xs)).
Proof.
  induction xs as [|x xs IH]; intros a Ha; simpl; [reflexivity|].
  rewrite map_app, min_from_app, (min_from_values (map f (rows x)) a Ha).
  unfold d3.min at 1.
  destruct (d3.min_values (map f (rows x))) as [m|] eqn:Hm; [|now apply IH].
  destruct (gt a m); apply IH; [|exact Ha].
  now apply (min_values_not_nan _ _ Hm).
Qed.

Lemma max_from_rows {A B} (rows : A -> list B) (f : B -> option number) xs :
  forall a, is_nan a = false ->
  d3.max_from a (map (fun x => d3.max (rows x) f) xs)
  = d3.max_from a (map f (flat_map rows xs)).
Proof.
  induction xs as [|x xs IH]; intros a Ha; simpl; [reflexivity|].
  rewrite map_app, max_from_app, (max_from_values (map f (rows x)) a Ha).
  unfold d3.max at 1.
  destruct (d3.max_values (map f (rows x))) as [m|] eqn:Hm; [|now apply IH].
  destruct (gt m a); apply IH; [|exact Ha].
  now apply (max_values_not_nan _ _ Hm).
Qed.

Lemma min_rows {A B} (rows : A -> list B) (f : B -> option number) xs :
  d3.min xs (fun x => d3.min (rows x) f) = d3.min (flat_map rows xs) f.
Proof.
  unfold d3.min at 1 3.
  induction xs as [|x xs IH]; simpl; [reflexivity|].
  rewrite map_app, min_values_app. unfold d3.min at 1 2.
  destruct (d3.min_values (map f (rows x))) as [m|] eqn:Hm; simpl; [|exact IH].
  pose proof (min_values_not_nan _ _ Hm) as Hn.
  unfold ge. rewrite (le_refl _ Hn). f_equal. now apply min_from_rows.
Qed.

Lemma max_rows {A B} (rows : A -> list B) (f : B -> option number) xs :
  d3.max xs (fun x => d3.max (rows x) f) = d3.max (flat_map rows xs) f.
Proof.
  unfold d3.max at 1 3.
  induction xs as [|x xs IH]; simpl; [reflexivity|].
  rewrite map_app, max_values_app. unfold d3.max at 1 2.
  destruct (d3.max_values (map f (rows x))) as [m|] eqn:Hm; simpl; [|exact IH].
  pose proof (max_values_not_nan _ _ Hm) as Hn.
  unfold ge. rewrite (le_refl _ Hn). f_equal. now apply max_from_rows.
Qed.

(** X8.  The domain depends on the data points and their order only, not
    on how they are grouped into series: a collection of series has the
    domain of the single series that holds all its data points. *)
Theorem calcValueDomain_grouping roundToPrecision data is100pct :
  data <> [] ->
  calcValueDomain roundToPrecision data is100pct
  = calcValueDomain roundToPrecision
      [ {| Chart.data := flat_map Chart.data data |} ] is100pct.
Proof.
  intros Hne. unfold calcValueDomain.
  destruct data as [|series data]; [congruence|].
  cbn [length Nat.eqb]. cbv zeta.
  rewrite !(min_rows Chart.data), !(max_rows Chart.data).
  cbn [flat_map Chart.data]. now rewrite app_nil_r.
Qed.

Lemma calcValueDomain_grouping_witness :
  let p := fun x v =>
    {| Chart.position := of_Z x; Chart.valueAbsolute := of_Z v;
       Chart.categoryIndex := of_Z 0 |} in
  let data := [ {| Chart.data := [p 7%Z 3%Z; p 2%Z 2%Z] |}; {| Chart.data := [] |};
                {| Chart.data := [p 9%Z 1%Z] |} ] in
  data <> [] /\
  calcValueDomain (fun x _ => x) data false
  = calcValueDomain (fun x _ => x)
      [ {| Chart.data := flat_map Chart.data data |} ] false.
Proof.
  intros p data. split; [discriminate|].
  apply (calcValueDomain_grouping (fun x _ => x) data false). discriminate.
Defined.

(** X9.  The default range is for the empty collection only: series that
    hold no data point between them leave both bounds [undefined]. *)
Theorem calcValueDomain_no_data roundToPrecision data :
  data <> [] ->
  Forall (fun series => series.(Chart.data) = []) data ->
  calcValueDomain roundToPrecision data false
  = {| Range.min := None; Range.max := None |}.
Proof.
  intros Hne Hall. unfold calcValueDomain.
  destruct data as [|series data]; [congruence|].
  cbn [length Nat.eqb]. cbv zeta.
  rewrite (min_rows Chart.data), (max_rows Chart.data).
  assert (Hflat : flat_map Chart.data (series :: data) = []).
  { clear Hne. induction Hall as [|s l Hs _ IH]; [reflexivity|].
    simpl. now rewrite Hs, IH. }
  now rewrite Hflat.
Qed.

Lemma calcValueDomain_no_data_witness :
  let data := [ {| Chart.data := [] |}; {| Chart.data := [] |} ] in
  data <> [] /\
  Forall (fun series => series.(Chart.data) = []) data /\
  calcValueDomain (fun x _ => x) data false
  = {| Range.min := None; Range.max := None |}.
Proof.
  intros data.
  assert (H1 : data <> []) by discriminate.
  assert (H2 : Forall (fun series => series.(Chart.data) = []) data)
    by (repeat constructor).
  split; [exact H1|]. split; [exact H2|].
  exact (calcValueDomain_no_data (fun x _ => x) data H1 H2).
Defined.

Lemma differences_app data more :
  differences (data ++ more) = differences data ++ differences more.
Proof. unfold differences. apply flat_map_app. Qed.

Lemma positions_app data more :
  positions (data ++ more) = positions data ++ positions more.
Proof. unfold positions. apply flat_map_app. Qed.

(** X10.  More series can only widen the domain: once a collection has a
    lower and an upper bound, the collection with further series added
    has a lower bound that is not above and an upper bound that is not
    below. *)
Theorem calcValueDomain_widens roundToPrecision data more :
  data <> [] ->
  (forall m,
     (calcValueDomain roundToPrecision data false).(Range.min) = Some m ->
     exists m',
       (calcValueDomain roundToPrecision (data ++ more) false).(Range.min)
       = Some m' /\ le m' m = true) /\
  (forall m,
     (calcValueDomain roundToPrecision data false).(Range.max) = Some m ->
     exists m',
       (calcValueDomain roundToPrecision (data ++ more) false).(Range.max)
       = Some m' /\ le m m' = true).
Proof.
  intros Hne.
  assert (Hne' : data ++ more <> []) by (destruct data; [congruence|discriminate]).
  split; intros m Hm.
  - pose proof (calcValueDomain_min roundToPrecision data Hne) as H.
    pose proof (calcValueDomain_min roundToPrecision (data ++ more) Hne') as H'.
    rewrite Hm in H. destruct H as (Hin & Hn & _).
    rewrite differences_app in H'.
    destruct (Range.min (calcValueDomain roundToPrecision (data ++ more) false))
      as [m'|].
    + exists m'. split; [reflexivity|].
      destruct H' as (_ & _ & Hall). apply Hall; [|exact Hn].
      apply in_or_app. now left.
    + simpl in H'. rewrite (H' m) in Hn; [discriminate|].
      apply in_or_app. now left.
  - pose proof (calcValueDomain_max roundToPrecision data Hne) as H.
    pose proof (calcValueDomain_max roundToPrecision (data ++ more) Hne') as H'.
    rewrite Hm in H. destruct H as (Hin & Hn & _).
    rewrite positions_app in H'.
    destruct (Range.max (calcValueDomain roundToPrecision (data ++ more) false))
      as [m'|].
    + exists m'. split; [reflexivity|].
      destruct H' as (_ & _ & Hall). apply Hall; [|exact Hn].
      apply in_or_app. now left.
    + simpl in H'. rewrite (H' m) in Hn; [discriminate|].
      apply in_or_app. now left.
Qed.

Lemma calcValueDomain_widens_witness :
  let p := fun x v =>
    {| Chart.position := of_Z x; Chart.valueAbsolute := of_Z v;
       Chart.categoryIndex := of_Z 0 |} in
  let data := [ {| Chart.data := [p 7%Z 3%Z] |} ] in
  let more := [ {| Chart.data := [p 9%Z 8%Z] |} ] in
  (calcValueDomain (fun x _ => x) data false).(Range.min) = Some (of_Z 4) /\
  exists m',
    (calcValueDomain (fun x _ => x) (data ++ more) false).(Range.min) = Some m' /\
    le m' (of_Z 4) = true.
Proof.
  intros p data more. split; [reflexivity|].
  assert (Hne : data <> []) by discriminate.
  apply (proj1 (calcValueDomain_widens (fun x _ => x) data more Hne) (of_Z 4)).
  reflexivity.
Defined.

(** ** The derived data view is a data view *)

Section ResultLoaded.

Variable h : heap.
Variable dataView : value.
Variable d : DataView.
Variables A O : list value.
Variable cs : list (list value).
Hypothesis Hl : loaded h dataView d.
Hypothesis Hcs : length cs = length d.(columns).
Hypothesis HO : length O = length A.
Hypothesis Hcols : Forall (fun col => length col = length A) cs.

Lemma result_loaded :
  loaded (result_heap h dataView d A O cs (length d.(columns)))
    (VRef (result_loc h d)) (result_data_view h d A O cs).
Proof.
  pose proof (proj1 (read_array_inv _ _ _ (ld_columns _ _ _ Hl))) as Hm.
  destruct (result_heap_shows h dataView d A O cs Hcs Hm)
    as (c & c0 & cv & co & v & cl & G1 & G2 & G3 & G4 & G5 & G6 & G7 & G8 & G9).
  assert (E1 : c = VRef (result_loc h d + 2)).
  { assert (G : get_in (result_heap h dataView d A O cs (length d.(columns)))
                  (VRef (result_loc h d)) (Name "categories")
                = Some (VRef (result_loc h d + 2))).
    { eapply get_in_derived_own;
        [apply (result_view _ _ _ _ _ _ Hcs); reflexivity|].
      apply lookup_insert_eq. }
    congruence. }
  subst c.
  assert (E2 : c0 = VRef (result_loc h d + 3)).
  { assert (G : get_in (result_heap h dataView d A O cs (length d.(columns)))
                  (VRef (result_loc h d + 2)) (Index 0)
                = Some (VRef (result_loc h d + 3))).
    { eapply get_in_derived_own;
        [apply (result_heap_fixed _ _ _ _ _ _ Hcs _ 2); reflexivity|].
      apply lookup_insert_eq. }
    congruence. }
  subst c0.
  assert (E3 : cv = VRef (length h)).
  { assert (G : get_in (result_heap h dataView d A O cs (length d.(columns)))
                  (VRef (result_loc h d + 3)) (Name "values")
                = Some (VRef (length h))).
    { eapply get_in_derived_own;
        [apply (result_heap_fixed _ _ _ _ _ _ Hcs _ 3); reflexivity|].
      rewrite lookup_insert_ne by discriminate. apply lookup_insert_eq. }
    congruence. }
  subst cv.
  assert (E4 : co = VRef (length h + 2)).
  { assert (G : get_in (result_heap h dataView d A O cs (length d.(columns)))
                  (VRef (result_loc h d + 3)) (Name "objects")
                = Some (VRef (length h + 2))).
    { eapply get_in_derived_own;
        [apply (result_heap_fixed _ _ _ _ _ _ Hcs _ 3); reflexivity|].
      apply lookup_insert_eq. }
    congruence. }
  subst co.
  assert (E5 : v = VRef (result_loc h d + 1)).
  { assert (G : get_in (result_heap h dataView d A O cs (length d.(columns)))
                  (VRef (result_loc h d)) (Name "values")
                = Some (VRef (result_loc h d + 1))).
    { eapply get_in_derived_own;
        [apply (result_view _ _ _ _ _ _ Hcs); reflexivity|].
      rewrite lookup_insert_ne by discriminate. apply lookup_insert_eq. }
    congruence. }
  subst v.
  assert (Hlen : length_in (result_heap h dataView d A O cs (length d.(columns)))
                   (VRef (result_loc h d + 1)) = Some (length d.(columns))).
  { eapply length_in_derived;
      [apply result_heap_extends
      |apply (result_heap_fixed _ _ _ _ _ _ Hcs _ 1); reflexivity
      |unfold result_loc; lia|exact Hm]. }
  assert (Hcolumn : forall i, (i < length d.(columns))%nat ->
            get_in (result_heap h dataView d A O cs (length d.(columns)))
              (VRef (result_loc h d + 1)) (Index i)
            = Some (VRef (result_loc h d + 4 + i))).
  { intros i Hi.
    eapply get_in_derived_own;
      [apply (result_heap_fixed _ _ _ _ _ _ Hcs _ 1); reflexivity|].
    rewrite measure_props_lookup. now destruct (decide (i < _)%nat). }
  assert (E6 : cl = VRef <$> seq (result_loc h d + 4) (length d.(columns))).
  { apply read_array_inv in G8. destruct G8 as [G8 G8'].
    rewrite Hlen in G8. injection G8 as G8.
    apply list_eq_same_length with (length d.(columns));
      [now rewrite length_fmap, length_seq|now symmetry|].
    intros i x y Hi Hx Hy.
    rewrite list_lookup_fmap, lookup_seq_lt in Hy by exact Hi.
    injection Hy as <-.
    pose proof (read_upto_lookup _ _ _ _ _ _ G8' Hx) as Hx'.
    rewrite (Hcolumn i Hi) in Hx'. now injection Hx'. }
  subst cl.
  split; cbn [result_data_view categories values columns category categoryType
              categoryValues categoryObjects cvs objs cols].
  - exact G1.
  - exact G7.
  - destruct (ld_nonempty _ _ _ Hl) as [n Hn]. exists n.
    now apply (result_categories_length _ _ _ _ _ _ Hcs).
  - exact G8.
  - pose proof (ld_column _ _ _ Hl) as Hne.
    destruct (columns d); [congruence|discriminate].
  - exact G2.
  - pose proof (ld_type _ _ _ Hl) as Hty.
    destruct (get_in h (category d) (Name "source")) as [source|] eqn:Hs;
      [|discriminate].
    rewrite (result_category_inherits _ dataView _ A O cs Hcs
               (Name "source") source) by (congruence || exact Hs).
    eapply get_in_extends; [apply result_heap_extends|].
    exact Hty.
  - exact G3.
  - exact G5.
  - reflexivity.
  - exact G4.
  - rewrite <- HO. now apply read_array_inv.
  - apply mapM_Some. apply Forall2_fmap_l.
    apply Forall2_same_length_lookup_2; [now rewrite length_seq|].
    intros i l col Hl' Hcol. apply lookup_seq in Hl'. destruct Hl' as [-> Hi].
    destruct (lookup_lt_is_Some_2 (columns d) i Hi) as [c Hc].
    unfold read_column, compose. cbv beta.
    rewrite (get_in_derived_own _ _ _ _ _ (VRef (length h + 3 + i))
               (result_heap_measure _ _ _ _ _ _ Hcs _ _ _ Hi Hc))
      by apply lookup_insert_eq.
    assert (Hn : length A = length col).
    { symmetry. rewrite Forall_forall in Hcols.
      apply Hcols. eapply list_elem_of_lookup_2, Hcol. }
    rewrite Hn. apply read_array_inv, read_array_of.
    apply result_heap_stage, stage_lookup_col, Hcol.
Qed.

End ResultLoaded.

(** ** Further properties of [transformDomain] *)


Lemma restrict_none {A} (mask : list bool) (xs : list A) :
  Forall (fun b => b = false) mask -> restrict mask xs = [].
Proof.
  intros H. revert xs.
  induction H as [|b mask -> _ IH]; intros [|x xs]; try reflexivity.
  simpl. apply IH.
Qed.

Lemma restrict_Forall {A} (P : A -> Prop) (mask : list bool) (xs : list A) :
  Forall P xs -> Forall P (restrict mask xs).
Proof.
  intros H. revert mask.
  induction H as [|x xs Hx _ IH]; intros [|[] mask]; simpl;
    try constructor; auto.
Qed.

Lemma restrict_mono {A} (mask mask' : list bool) (xs : list A) :
  Forall2 (fun b b' => b = true -> b' = true) mask mask' ->
  restrict mask xs `sublist_of` restrict mask' xs.
Proof.
  intros H. revert xs.
  induction H as [|b b' mask mask' Hb _ IH]; intros [|x xs]; simpl;
    try constructor.
  destruct b; [rewrite (Hb eq_refl); now constructor|].
  destruct b'; [constructor|]; apply IH.
Qed.

Lemma filter_all {A} (f : A -> bool) (xs : list A) :
  Forall (fun x => f x = true) (List.filter f xs).
Proof.
  apply Forall_forall. intros x Hx. apply list_elem_of_In in Hx.
  now apply filter_In in Hx.
Qed.

Section FilterLengths.

Variable isOrdinal : heap -> value -> bool.
Variable StringToNumber : string -> number.
Variables (h : heap) (dataView min max : value) (d : DataView) (lo hi : value).
Hypothesis Hf : filtering isOrdinal StringToNumber h dataView min max d lo hi.

Lemma objs_length : length (objs d) = length (cvs d).
Proof.
  apply (read_upto_length h (categoryObjects d)), (ld_objs _ _ _ (ft_loaded _ _ _ _ _ _ _ _ _ Hf)).
Qed.


Lemma kept_objs_length (mask : list bool) :
  length (restrict mask (objs d)) = length (restrict mask (cvs d)).
Proof. apply restrict_length, objs_length. Qed.

Lemma kept_cols_length (mask : list bool) :
  Forall (fun col => length col = length (restrict mask (cvs d)))
    (restrict mask <$> cols d).
Proof.
  apply Forall_fmap, Forall_forall. intros col Hcol. simpl.
  apply restrict_length, (col_length _ _ _ _ _ _ _ _ _ Hf), Hcol.
Qed.

(** The call on the filtering path, with what its result shows. *)
Lemma transformDomain_shows :
  exists h' result,
    transformDomain isOrdinal StringToNumber dataView min max h
    = (h', Some result) /\
    h' = result_heap h dataView d
           (restrict (kept StringToNumber d lo hi) (cvs d))
           (restrict (kept StringToNumber d lo hi) (objs d))
           (restrict (kept StringToNumber d lo hi) <$> cols d)
           (length (columns d)) /\
    result = VRef (result_loc h d) /\
    shows h' result
      (restrict (kept StringToNumber d lo hi) (cvs d))
      (restrict (kept StringToNumber d lo hi) (objs d))
      (restrict (kept StringToNumber d lo hi) <$> cols d).
Proof.
  eexists _, _. split; [apply (transformDomain_filters _ _ _ _ _ _ _ _ _ Hf)|].
  split; [reflexivity|]. split; [reflexivity|].
  apply result_heap_shows;
    [apply (filtering_kept_length _ _ _ _ _ _ _ _ _ Hf)
    |apply (filtering_values_length _ _ _ _ _ _ _ _ _ Hf)].
Qed.

End FilterLengths.



(** X12.  A range that holds no category value empties the data view
    without dropping a column: the result is a new object with no
    category value, no metadata object, and every value column there and
    empty. *)
Theorem transformDomain_empty_range isOrdinal StringToNumber h dataView
    min max d lo hi :
  filtering isOrdinal StringToNumber h dataView min max d lo hi ->
  Forall (fun x => keeps StringToNumber lo hi x = false) d.(cvs) ->
  exists h' r,
    transformDomain isOrdinal StringToNumber dataView min max h
    = (h', Some (VRef r)) /\
    (length h <= r)%nat /\
    shows h' (VRef r) [] [] (replicate (length d.(columns)) []).
Proof.
  intros Hf Hall.
  destruct (transformDomain_shows _ _ _ _ _ _ _ _ _ Hf)
    as (h' & result & Hrun & _ & -> & Hshows).
  exists h', (result_loc h d). split; [exact Hrun|].
  split; [unfold result_loc; lia|].
  assert (Hmask : Forall (fun b => b = false) (kept StringToNumber d lo hi))
    by (apply Forall_fmap; exact Hall).
  rewrite (restrict_none _ (cvs d) Hmask), (restrict_none _ (objs d) Hmask)
    in Hshows.
  replace (restrict (kept StringToNumber d lo hi) <$> cols d)
    with (replicate (length (columns d)) (@nil value)) in Hshows;
    [exact Hshows|].
  rewrite <- (cols_length _ _ _ _ _ _ _ _ _ Hf).
  clear Hshows. induction (cols d) as [|col l IH]; [reflexivity|].
  simpl. now rewrite (restrict_none _ col Hmask), IH.
Qed.
Ltac solve_example_filtering :=
  split; [split| | | | | |];
    try (lazymatch goal with |- _ = _ => vm_compute; reflexivity end);
    [ exists 1%nat; vm_compute; reflexivity
    | discriminate
    | repeat (apply Forall_cons; split;
              [split; eexists; vm_compute; reflexivity|]);
      constructor ].

Lemma transformDomain_empty_range_witness :
  exists h' r,
    transformDomain never_ordinal no_numeric_string (VRef 0) (num 7) (num 9)
      example_heap = (h', Some (VRef r)) /\
    (length example_heap <= r)%nat /\
    shows h' (VRef r) [] [] (replicate (length example_view.(columns)) []).
Proof.
  apply (transformDomain_empty_range never_ordinal no_numeric_string
           example_heap (VRef 0) (num 7) (num 9) example_view (num 7) (num 9)).
  - solve_example_filtering.
  - repeat (apply Forall_cons; split; [vm_compute; reflexivity|]). constructor.
Defined.

(** On the filtering path the derived data view is again a data view the
    filtering path accepts, for bounds that are numbers, provided the
    host still finds its category type not ordinal. *)
Lemma result_filtering isOrdinal StringToNumber h dataView min max d lo hi
    min' max' :
  filtering isOrdinal StringToNumber h dataView min max d lo hi ->
  is_number min' = true -> is_number max' = true ->
  js_gt StringToNumber min' max' = Some false ->
  Forall (comparable_with StringToNumber min' max') d.(cvs) ->
  (forall h', extends h h' ->
     isOrdinal h' d.(categoryType) = isOrdinal h d.(categoryType)) ->
  filtering isOrdinal StringToNumber
    (result_heap h dataView d
       (restrict (kept StringToNumber d lo hi) (cvs d))
       (restrict (kept StringToNumber d lo hi) (objs d))
       (restrict (kept StringToNumber d lo hi) <$> cols d)
       (length (columns d)))
    (VRef (result_loc h d)) min' max'
    (result_data_view h d
       (restrict (kept StringToNumber d lo hi) (cvs d))
       (restrict (kept StringToNumber d lo hi) (objs d))
       (restrict (kept StringToNumber d lo hi) <$> cols d))
    min' max'.
Proof.
  intros Hf Hmin Hmax Hvalid Hcomparable Hord.
  split.
  - apply result_loaded.
    + apply (ft_loaded _ _ _ _ _ _ _ _ _ Hf).
    + apply (filtering_kept_length _ _ _ _ _ _ _ _ _ Hf).
    + apply (kept_objs_length _ _ _ _ _ _ _ _ _ Hf).
    + apply (kept_cols_length _ _ _ _ _ _ _ _ _ Hf).
  - now rewrite Hmin.
  - cbn [result_data_view categoryType].
    rewrite Hord by apply result_heap_extends.
    apply (ft_scalar _ _ _ _ _ _ _ _ _ Hf).
  - unfold resolve_min. now rewrite Hmin.
  - unfold resolve_max. now rewrite Hmax.
  - exact Hvalid.
  - cbn [result_data_view cvs]. now apply restrict_Forall.
Qed.

Lemma restrict_twice {A B} (f g : A -> bool) (xs : list A) (ys : list B) :
  length xs = length ys ->
  restrict (g <$> restrict (f <$> xs) xs) (restrict (f <$> xs) ys)
  = restrict ((fun x => f x && g x) <$> xs) ys.
Proof.
  revert ys. induction xs as [|x xs IH]; intros [|y ys] Hlen;
    try discriminate; [reflexivity|].
  injection Hlen as Hlen. cbn [fmap list_fmap restrict].
  destruct (f x); cbn [fmap list_fmap restrict andb]; [|now apply IH].
  destruct (g x); [f_equal|]; now apply IH.
Qed.

(** A bound that is a number stays as it is. *)
Lemma filtering_numbers isOrdinal StringToNumber h dataView min max d lo hi :
  filtering isOrdinal StringToNumber h dataView min max d lo hi ->
  is_number min = true -> is_number max = true ->
  lo = min /\ hi = max.
Proof.
  intros Hf Hmin Hmax.
  pose proof (ft_min _ _ _ _ _ _ _ _ _ Hf) as Hlo.
  pose proof (ft_max _ _ _ _ _ _ _ _ _ Hf) as Hhi.
  unfold resolve_min in Hlo. unfold resolve_max in Hhi.
  rewrite Hmin in Hlo. rewrite Hmax in Hhi. simpl in Hlo, Hhi.
  split; congruence.
Qed.

(** The second of two calls in a row, the second with numbers for bounds,
    with what its result shows. *)
Lemma transformDomain_twice isOrdinal StringToNumber h dataView min max d lo hi
    min' max' :
  filtering isOrdinal StringToNumber h dataView min max d lo hi ->
  is_number min' = true -> is_number max' = true ->
  js_gt StringToNumber min' max' = Some false ->
  Forall (comparable_with StringToNumber min' max') d.(cvs) ->
  (forall h', extends h h' ->
     isOrdinal h' d.(categoryType) = isOrdinal h d.(categoryType)) ->
  exists h1 r1 h2 r2,
    transformDomain isOrdinal StringToNumber dataView min max h
    = (h1, Some r1) /\
    transformDomain isOrdinal StringToNumber r1 min' max' h1
    = (h2, Some r2) /\
    shows h1 r1
      (restrict (kept StringToNumber d lo hi) (cvs d))
      (restrict (kept StringToNumber d lo hi) (objs d))
      (restrict (kept StringToNumber d lo hi) <$> cols d) /\
    shows h2 r2
      (restrict ((fun x => keeps StringToNumber lo hi x
                           && keeps StringToNumber min' max' x) <$> cvs d)
         (cvs d))
      (restrict ((fun x => keeps StringToNumber lo hi x
                           && keeps StringToNumber min' max' x) <$> cvs d)
         (objs d))
      (restrict ((fun x => keeps StringToNumber lo hi x
                           && keeps StringToNumber min' max' x) <$> cvs d)
       <$> cols d).
Proof.
  intros Hf Hmin Hmax Hvalid Hcomparable Hord.
  pose proof (result_filtering _ _ _ _ _ _ _ _ _ _ _
                Hf Hmin Hmax Hvalid Hcomparable Hord) as Hf'.
  destruct (transformDomain_shows _ _ _ _ _ _ _ _ _ Hf)
    as (h1 & r1 & Hrun & -> & -> & Hshows).
  destruct (transformDomain_shows _ _ _ _ _ _ _ _ _ Hf')
    as (h2 & r2 & Hrun' & _ & _ & Hshows').
  eexists _, _, h2, r2.
  split; [exact Hrun|]. split; [exact Hrun'|]. split; [exact Hshows|].
  change (kept StringToNumber
            (result_data_view h d
               (restrict (kept StringToNumber d lo hi) (cvs d))
               (restrict (kept StringToNumber d lo hi) (objs d))
               (restrict (kept StringToNumber d lo hi) <$> cols d)) min' max')
    with (keeps StringToNumber min' max'
          <$> restrict (keeps StringToNumber lo hi <$> cvs d) (cvs d))
    in Hshows'.
  cbn [result_data_view cvs objs cols] in Hshows'. unfold kept in Hshows'.
  rewrite (restrict_twice _ _ (cvs d) (cvs d) eq_refl) in Hshows'.
  rewrite (restrict_twice _ _ (cvs d) (objs d)) in Hshows'
    by (symmetry; apply (objs_length _ _ _ _ _ _ _ _ _ Hf)).
  replace (restrict (keeps StringToNumber min' max'
                     <$> restrict (keeps StringToNumber lo hi <$> cvs d) (cvs d))
           <$> (restrict (keeps StringToNumber lo hi <$> cvs d) <$> cols d))
    with (restrict ((fun x => keeps StringToNumber lo hi x
                              && keeps StringToNumber min' max' x) <$> cvs d)
          <$> cols d) in Hshows'; [exact Hshows'|].
  rewrite <- list_fmap_compose.
  apply Forall_fmap_ext_1, Forall_forall. intros col Hcol. simpl.
  symmetry. apply restrict_twice.
  symmetry. apply (col_length _ _ _ _ _ _ _ _ _ Hf), Hcol.
Qed.

(** X13.  With both bounds given as numbers, [transformDomain] is
    idempotent on what a data view shows: filtering its own result again
    with the same bounds returns a data view with the same category
    values, metadata objects and column values. *)
Theorem transformDomain_idempotent isOrdinal StringToNumber h dataView min max
    d lo hi :
  filtering isOrdinal StringToNumber h dataView min max d lo hi ->
  is_number min = true -> is_number max = true ->
  (forall h', extends h h' ->
     isOrdinal h' d.(categoryType) = isOrdinal h d.(categoryType)) ->
  exists h1 r1 h2 r2 cvs' objs' cols',
    transformDomain isOrdinal StringToNumber dataView min max h
    = (h1, Some r1) /\
    transformDomain isOrdinal StringToNumber r1 min max h1
    = (h2, Some r2) /\
    shows h1 r1 cvs' objs' cols' /\
    shows h2 r2 cvs' objs' cols'.
Proof.
  intros Hf Hmin Hmax Hord.
  destruct (filtering_numbers _ _ _ _ _ _ _ _ _ Hf Hmin Hmax) as [-> ->].
  destruct (transformDomain_twice _ _ _ _ _ _ _ _ _ min max Hf Hmin Hmax
              (ft_valid _ _ _ _ _ _ _ _ _ Hf)
              (ft_comparable _ _ _ _ _ _ _ _ _ Hf) Hord)
    as (h1 & r1 & h2 & r2 & Hrun & Hrun' & Hshows & Hshows').
  eexists h1, r1, h2, r2, _, _, _.
  split; [exact Hrun|]. split; [exact Hrun'|]. split; [exact Hshows|].
  replace ((fun x => keeps StringToNumber min max x
                     && keeps StringToNumber min max x) <$> cvs d)
    with (kept StringToNumber d min max) in Hshows'; [exact Hshows'|].
  unfold kept. apply list_fmap_ext. intros _ x _. now destruct (keeps _ _ _ x).
Qed.

Lemma transformDomain_idempotent_witness :
  exists h1 r1 h2 r2 cvs' objs' cols',
    transformDomain never_ordinal no_numeric_string (VRef 0) (num 2) (num 3)
      example_heap = (h1, Some r1) /\
    transformDomain never_ordinal no_numeric_string r1 (num 2) (num 3) h1
    = (h2, Some r2) /\
    shows h1 r1 cvs' objs' cols' /\
    shows h2 r2 cvs' objs' cols'.
Proof.
  apply (transformDomain_idempotent never_ordinal no_numeric_string
           example_heap (VRef 0) (num 2) (num 3) example_view (num 2) (num 3));
    [solve_example_filtering|reflexivity|reflexivity|reflexivity].
Defined.



(** [x >= y] is [y <= x] on numbers. *)
Lemma compare_ge (x y : number) :
  match SFcompare x y with Some (Gt | Eq) => true | _ => false end = le y x.
Proof.
  unfold le, SFleb.
  destruct x as [[]|[]| |[] mx ex], y as [[]|[]| |[] my ey]; simpl;
    try reflexivity;
    compare_cases; simpl; try reflexivity; try (exfalso; lia);
    subst; try (exfalso; lia).
Qed.

(** Against bounds that are numbers every category value is compared as a
    number. *)
Lemma keeps_number StringToNumber (a b : number) x :
  keeps StringToNumber (VNumber a) (VNumber b) x
  = match ToNumber StringToNumber x with
    | Some n => le a n && le n b
    | None => false
    end.
Proof.
  unfold keeps, js_ge, js_le, compare_values.
  assert (E : forall n,
            match
              match SFcompare n a with
              | Some (Eq | Gt) => Some true
              | _ => Some false
              end,
              match SFcompare n b with
              | Some (Eq | Lt) => Some true
              | _ => Some false
              end
            with
            | Some true, Some true => true
            | _, _ => false
            end = le a n && le n b).
  { intros n. rewrite <- (compare_ge n a). unfold le, SFleb.
    destruct (SFcompare n a) as [[]|], (SFcompare n b) as [[]|]; reflexivity. }
  destruct x; cbn [ToNumber]; try apply E. reflexivity.
Qed.

Lemma keeps_widen StringToNumber (a b a' b' : number) x :
  le a' a = true -> le b b' = true ->
  keeps StringToNumber (VNumber a) (VNumber b) x = true ->
  keeps StringToNumber (VNumber a') (VNumber b') x = true.
Proof.
  intros Ha Hb. rewrite !keeps_number.
  destruct (ToNumber StringToNumber x) as [n|]; [|discriminate].
  rewrite !andb_true_iff. intros [H1 H2].
  split; [exact (le_trans _ _ _ Ha H1)|exact (le_trans _ _ _ H2 Hb)].
Qed.

(** X15.  Widening the range of numbers never loses a row: what the data
    view filtered by the narrower range shows is a subsequence, column by
    column, of what the one filtered by the wider range shows. *)
Theorem transformDomain_monotone isOrdinal StringToNumber h dataView d
    (a b a' b' : number) :
  filtering isOrdinal StringToNumber h dataView (VNumber a) (VNumber b) d
    (VNumber a) (VNumber b) ->
  filtering isOrdinal StringToNumber h dataView (VNumber a') (VNumber b') d
    (VNumber a') (VNumber b') ->
  le a' a = true -> le b b' = true ->
  exists h1 r1 cvs1 objs1 cols1 h2 r2 cvs2 objs2 cols2,
    transformDomain isOrdinal StringToNumber dataView (VNumber a) (VNumber b) h
    = (h1, Some r1) /\
    shows h1 r1 cvs1 objs1 cols1 /\
    transformDomain isOrdinal StringToNumber dataView (VNumber a') (VNumber b') h
    = (h2, Some r2) /\
    shows h2 r2 cvs2 objs2 cols2 /\
    cvs1 `sublist_of` cvs2 /\
    objs1 `sublist_of` objs2 /\
    Forall2 sublist cols1 cols2.
Proof.
  intros Hf Hf' Ha Hb.
  destruct (transformDomain_shows _ _ _ _ _ _ _ _ _ Hf)
    as (h1 & r1 & Hrun & _ & _ & Hshows).
  destruct (transformDomain_shows _ _ _ _ _ _ _ _ _ Hf')
    as (h2 & r2 & Hrun' & _ & _ & Hshows').
  eexists h1, r1, _, _, _, h2, r2, _, _, _.
  split; [exact Hrun|]. split; [exact Hshows|].
  split; [exact Hrun'|]. split; [exact Hshows'|].
  assert (Hmask : Forall2 (fun b b' => b = true -> b' = true)
                    (kept StringToNumber d (VNumber a) (VNumber b))
                    (kept StringToNumber d (VNumber a') (VNumber b'))).
  { unfold kept. apply Forall2_fmap, Forall_Forall2_diag, Forall_forall.
    intros x _. now apply keeps_widen. }
  split; [now apply restrict_mono|]. split; [now apply restrict_mono|].
  apply Forall2_fmap, Forall_Forall2_diag, Forall_forall.
  intros col _. now apply restrict_mono.
Qed.

Lemma transformDomain_monotone_witness :
  exists h1 r1 cvs1 objs1 cols1 h2 r2 cvs2 objs2 cols2,
    transformDomain never_ordinal no_numeric_string (VRef 0) (num 2) (num 3)
      example_heap = (h1, Some r1) /\
    shows h1 r1 cvs1 objs1 cols1 /\
    transformDomain never_ordinal no_numeric_string (VRef 0) (num 1) (num 4)
      example_heap = (h2, Some r2) /\
    shows h2 r2 cvs2 objs2 cols2 /\
    cvs1 `sublist_of` cvs2 /\
    objs1 `sublist_of` objs2 /\
    Forall2 sublist cols1 cols2.
Proof.
  apply (transformDomain_monotone never_ordinal no_numeric_string
           example_heap (VRef 0) example_view
           (of_Z 2) (of_Z 3) (of_Z 1) (of_Z 4));
    [solve_example_filtering|solve_example_filtering|reflexivity|reflexivity].
Defined.

Lemma lookup_last {A} (x : A) (xs : list A) :
  (x :: xs) !! (length (x :: xs) - 1)%nat = Some (default x (last xs)).
Proof.
  rewrite last_lookup. destruct xs as [|y xs]; [reflexivity|].
  cbn [length]. replace (S (S (length xs)) - 1)%nat with (S (length xs)) by lia.
  rewrite lookup_cons. cbn [pred].
  destruct ((y :: xs) !! length xs) eqn:E; [reflexivity|].
  apply lookup_ge_None in E. cbn [length] in E. lia.
Qed.

(** X16.  A bound that is not a number is replaced by the first category
    value (for [min]) or by the last one (for [max]), whatever the order
    of the category values: the data view returned shows the category
    values within the range this gives. *)
Theorem transformDomain_default_bounds isOrdinal StringToNumber h dataView
    min max d lo hi first rest :
  filtering isOrdinal StringToNumber h dataView min max d lo hi ->
  d.(cvs) = first :: rest ->
  exists h' result objs' cols',
    transformDomain isOrdinal StringToNumber dataView min max h
    = (h', Some result) /\
    shows h' result
      (List.filter
         (keeps StringToNumber
            (if is_number min then min else first)
            (if is_number max then max else default first (last rest)))
         d.(cvs))
      objs' cols'.
Proof.
  intros Hf Hcvs.
  pose proof (ft_loaded _ _ _ _ _ _ _ _ _ Hf) as Hl.
  destruct (read_array_inv _ _ _ (ld_cvs _ _ _ Hl)) as [Hlen Hread].
  assert (Hlo : lo = if is_number min then min else first).
  { pose proof (ft_min _ _ _ _ _ _ _ _ _ Hf) as H. unfold resolve_min in H.
    destruct (is_number min); simpl in H; [congruence|].
    rewrite (read_upto_lookup _ _ _ _ 0 first Hread) in H
      by (now rewrite Hcvs).
    congruence. }
  assert (Hhi : hi = if is_number max then max else default first (last rest)).
  { pose proof (ft_max _ _ _ _ _ _ _ _ _ Hf) as H. unfold resolve_max in H.
    destruct (is_number max); simpl in H; [congruence|].
    rewrite Hlen, Hcvs in H. cbn [length Nat.eqb] in H.
    rewrite (read_upto_lookup _ _ _ _ _ (default first (last rest)) Hread) in H
      by (rewrite Hcvs; apply lookup_last).
    congruence. }
  destruct (transformDomain_shows _ _ _ _ _ _ _ _ _ Hf)
    as (h' & result & Hrun & _ & _ & Hshows).
  eexists h', result, _, _. split; [exact Hrun|].
  rewrite <- Hlo, <- Hhi, <- restrict_filter. exact Hshows.
Qed.

Lemma transformDomain_default_bounds_witness :
  exists h' result objs' cols',
    transformDomain never_ordinal no_numeric_string (VRef 0) VUndefined (num 3)
      example_heap = (h', Some result) /\
    shows h' result
      (List.filter
         (keeps no_numeric_string
            (if is_number VUndefined then VUndefined else num 1)
            (if is_number (num 3) then num 3
             else default (num 1) (last [num 2; num 3; num 4])))
         example_view.(cvs))
      objs' cols'.
Proof.
  apply (transformDomain_default_bounds never_ordinal no_numeric_string
           example_heap (VRef 0) VUndefined (num 3) example_view (num 1) (num 3)
           (num 1) [num 2; num 3; num 4]);
    [solve_example_filtering|reflexivity].
Defined.

(** ** Calls that throw *)

(** X17.  [transformDomain] throws a TypeError, and creates nothing, when
    the data view is [undefined] or [null], and when the first category
    column is: past the test on the axis type, which then looks at [null],
    the function reads [values] of the missing column. *)
Theorem transformDomain_throws isOrdinal StringToNumber (h : heap) min max :
  (forall dataView,
     dataView = VUndefined \/ dataView = VNull ->
     transformDomain isOrdinal StringToNumber dataView min max h = (h, None)) /\
  (forall dataView category categoryType,
     reaches_axis h dataView min max category categoryType ->
     category = VUndefined \/ category = VNull ->
     isOrdinal h VNull = false ->
     transformDomain isOrdinal StringToNumber dataView min max h = (h, None)).
Proof.
  split.
  - intros dataView [->| ->]; reflexivity.
  - intros dataView category categoryType
      [(categories & nc & Hc & Hnc & Hcat) (values & nv & Hv & Hnv) Hb Hty]
      Hcategory Hord.
    assert (Tc : ToBoolean category = false) by (now destruct Hcategory; subst).
    assert (Hget : forall k, get_in h category k = None)
      by (now destruct Hcategory; subst).
    unfold transformDomain.
    rewrite bind_get, Hc, (length_in_truthy _ _ _ Hnc); cbn [negb].
    rewrite bind_get, Hv, (length_in_truthy _ _ _ Hnv); cbn [negb].
    rewrite bind_assoc, bind_get, Hc, bind_length_of, Hnc; cbn [Nat.eqb].
    rewrite bind_assoc, bind_get, Hv, bind_length_of, Hnv; cbn [Nat.eqb].
    replace (negb (is_number min) && negb (is_number max)) with false
      by (destruct (is_number min), (is_number max); simpl in *; congruence).
    rewrite bind_assoc, bind_get, Hc, bind_get, Hcat, Tc, bind_ret, bind_read.
    rewrite Hord, bind_get, Hget. reflexivity.
Qed.

Lemma transformDomain_throws_witness :
  transformDomain never_ordinal no_numeric_string VUndefined (num 2) (num 3)
    example_heap = (example_heap, None) /\
  transformDomain never_ordinal no_numeric_string (VRef 0) (num 2) (num 3)
    example_heap_with_hole = (example_heap_with_hole, None).
Proof.
  split.
  - apply (proj1 (transformDomain_throws never_ordinal no_numeric_string
                    example_heap (num 2) (num 3))). now left.
  - apply (proj2 (transformDomain_throws never_ordinal no_numeric_string
                    example_heap_with_hole (num 2) (num 3))
             (VRef 0) VUndefined VNull);
      [|now left|reflexivity].
    split; [| |reflexivity|reflexivity].
    + exists (VRef 1), 1%nat. repeat split; vm_compute; reflexivity.
    + exists (VRef 7), 0%nat. repeat split; vm_compute; reflexivity.
Defined.

(** ** [applyUserMinMax] *)

(** X18.  [applyUserMinMax] changes no object of the heap it is given,
    whatever it is called with, and on an axis that is not scalar it does
    nothing at all: it returns the data view it was given. *)
Theorem applyUserMinMax_frame isOrdinal StringToNumber dataView xAxisCardProperties
    (h : heap) :
  (forall isScalar,
     h `prefix_of`
       (applyUserMinMax isOrdinal StringToNumber isScalar dataView
          xAxisCardProperties h).1) /\
  applyUserMinMax isOrdinal StringToNumber false dataView xAxisCardProperties h
  = (h, Some dataView).
Proof.
  split; [|reflexivity].
  intros [|]; [|reflexivity]. apply extends_prefix.
  unfold applyUserMinMax.
  rewrite bind_get.
  destruct (get_in h xAxisCardProperties (Name "start")); [|apply extends_refl].
  rewrite bind_get.
  destruct (get_in h xAxisCardProperties (Name "end")); [|apply extends_refl].
  apply transformDomain_extends.
Qed.

(** X19.  An axis card that gives no number for [start] nor for [end]
    leaves a scalar axis as it is: [applyUserMinMax] returns the data view
    it was given and creates nothing. *)
Theorem applyUserMinMax_no_bounds isOrdinal StringToNumber h dataView
    xAxisCardProperties start end_ categories values :
  get_in h xAxisCardProperties (Name "start") = Some start ->
  get_in h xAxisCardProperties (Name "end") = Some end_ ->
  is_number start = false -> is_number end_ = false ->
  get_in h dataView (Name "categories") = Some categories ->
  get_in h dataView (Name "values") = Some values ->
  (ToBoolean categories = true -> ToBoolean values = true ->
   is_Some (length_in h categories) /\ is_Some (length_in h values)) ->
  applyUserMinMax isOrdinal StringToNumber true dataView xAxisCardProperties h
  = (h, Some dataView).
Proof.
  intros Hs He Hns Hne Hc Hv Hlen. unfold applyUserMinMax.
  rewrite bind_get, Hs, bind_get, He.
  destruct (ToBoolean categories) eqn:Tc;
    [|now apply (transformDomain_no_categories _ _ _ _ _ _ categories)].
  destruct (ToBoolean values) eqn:Tv;
    [|now apply (transformDomain_no_values _ _ _ _ _ _ categories values)].
  destruct (Hlen eq_refl eq_refl) as [[nc Hnc] [nv Hnv]].
  now apply (transformDomain_no_bound _ _ _ _ _ _ categories values nc nv).
Qed.

Lemma applyUserMinMax_no_bounds_witness :
  applyUserMinMax never_ordinal no_numeric_string true (VRef 0) (VRef 10)
    example_heap
  = (example_heap, Some (VRef 0)).
Proof.
  apply (applyUserMinMax_no_bounds never_ordinal no_numeric_string example_heap
           (VRef 0) (VRef 10) VUndefined VUndefined (VRef 1) (VRef 7));
    try (vm_compute; reflexivity).
  intros _ _. split; eexists; vm_compute; reflexivity.
Defined.

(** X20.  On a scalar axis [applyUserMinMax] filters by the range of the
    axis card: with [start] and [end] for bounds it returns the data view
    [transformDomain] derives, which shows the category values within the
    range and the rows that go with them. *)
Theorem applyUserMinMax_filters isOrdinal StringToNumber h dataView
    xAxisCardProperties min max d lo hi :
  get_in h xAxisCardProperties (Name "start") = Some min ->
  get_in h xAxisCardProperties (Name "end") = Some max ->
  filtering isOrdinal StringToNumber h dataView min max d lo hi ->
  exists h' r,
    applyUserMinMax isOrdinal StringToNumber true dataView xAxisCardProperties h
    = (h', Some (VRef r)) /\
    (length h <= r)%nat /\
    shows h' (VRef r)
      (List.filter (keeps StringToNumber lo hi) d.(cvs))
      (restrict (kept StringToNumber d lo hi) d.(objs))
      (restrict (kept StringToNumber d lo hi) <$> d.(cols)).
Proof.
  intros Hs He Hf. unfold applyUserMinMax.
  rewrite bind_get, Hs, bind_get, He.
  destruct (transformDomain_shows _ _ _ _ _ _ _ _ _ Hf)
    as (h' & result & Hrun & _ & -> & Hshows).
  exists h', (result_loc h d). split; [exact Hrun|].
  split; [unfold result_loc; lia|].
  rewrite <- restrict_filter. exact Hshows.
Qed.

Lemma applyUserMinMax_filters_witness :
  exists h' r,
    applyUserMinMax never_ordinal no_numeric_string true (VRef 0) (VRef 13)
      example_heap_with_card
    = (h', Some (VRef r)) /\
    (length example_heap_with_card <= r)%nat /\
    shows h' (VRef r)
      (List.filter (keeps no_numeric_string (num 2) (num 3)) example_view.(cvs))
      (restrict (kept no_numeric_string example_view (num 2) (num 3))
         example_view.(objs))
      (restrict (kept no_numeric_string example_view (num 2) (num 3))
       <$> example_view.(cols)).
Proof.
  apply (applyUserMinMax_filters never_ordinal no_numeric_string
           example_heap_with_card (VRef 0) (VRef 13) (num 2) (num 3)
           example_view (num 2) (num 3));
    [vm_compute; reflexivity|vm_compute; reflexivity|solve_example_filtering].
Defined.

(** X21.  On a scalar axis whose category type the host finds ordinal,
    [applyUserMinMax] returns [undefined] instead of a data view as soon
    as the axis card gives a number for [start] or for [end]. *)
Theorem applyUserMinMax_ordinal isOrdinal StringToNumber h dataView
    xAxisCardProperties min max category categoryType :
  get_in h xAxisCardProperties (Name "start") = Some min ->
  get_in h xAxisCardProperties (Name "end") = Some max ->
  reaches_axis h dataView min max category categoryType ->
  isOrdinal h categoryType = true ->
  applyUserMinMax isOrdinal StringToNumber true dataView xAxisCardProperties h
  = (h, Some VUndefined).
Proof.
  intros Hs He Hax Hord. unfold applyUserMinMax.
  rewrite bind_get, Hs, bind_get, He.
  now apply (transformDomain_ordinal _ _ _ _ _ _ category categoryType).
Qed.

Lemma applyUserMinMax_ordinal_witness :
  applyUserMinMax always_ordinal no_numeric_string true (VRef 0) (VRef 13)
    example_heap_with_card
  = (example_heap_with_card, Some VUndefined).
Proof.
  apply (applyUserMinMax_ordinal always_ordinal no_numeric_string
           example_heap_with_card (VRef 0) (VRef 13) (num 2) (num 3)
           (VRef 2) (VRef 6));
    [vm_compute; reflexivity|vm_compute; reflexivity| |reflexivity].
  split; [| |reflexivity|vm_compute; reflexivity].
  - exists (VRef 1), 1%nat. repeat split; vm_compute; reflexivity.
  - exists (VRef 7), 0%nat. repeat split; vm_compute; reflexivity.
Defined.
